(** * Tax_Bot_India: the tax computation engine

    A shallow embedding of [tax_calculator.py] (the two slab calculators,
    the regime comparison and the tips advisor), of the calculation handler
    of [main.py], and of the construction and inference wiring of
    [tax_predictor.py].

    Number model.  The Python functions are duck-typed over numbers: the
    user interface hands them integers, and every product with a decimal
    literal ([0.05], [0.2], [0.04], ...) yields a fractional amount.  The
    source is read in two ways.

    - Exact arithmetic (modules [TaxCalculator] and [Main]): amounts are
      rationals [Q], a decimal literal [0.05] is the rational 5/100, and
      integers embed through [inject_Z].  This is the arithmetic the tables
      and percentages of the specification speak about; equalities between
      amounts are stated with [==] (equality of rationals as fractions).

    - Binary64 (module [Binary64]): amounts are IEEE 754 double precision
      floats, as the interpreter computes them from integer inputs.  It
      covers the integers that convert to a float; for larger ones the
      source raises [OverflowError] and computes no amount.

    Every property of the amounts is established in both readings.  They
    part ways in one place only: far beyond any income, where the spacing
    of the floats exceeds the difference between the two regimes, rounding
    can invert the comparison of the totals.

    The arrays of the predictor hold exact rationals; what is shown about
    the predictor does not depend on their arithmetic. *)

From Stdlib Require Import ZArith QArith Qminmax Lqa Lia Bool List String Ascii.
From Stdlib Require Import SpecFloat.
From Stdlib Require Qabs Qpower DecimalString DecimalPos DecimalZ.
Import ListNotations.

(** ** Boolean comparisons on amounts *)

Definition Qlt_bool (x y : Q) : bool :=
  (Qnum x * QDen y <? Qnum y * QDen x)%Z.

(** ** tax_calculator.py *)

Module TaxCalculator.

Open Scope Q_scope.

(** The dictionary [{"base_tax": ..., "cess": ..., "total_tax": ...}]. *)
Record TaxBreakdown : Type := mkBreakdown {
  base_tax : Q;
  cess : Q;
  total_tax : Q
}.

(** Slabs of the old regime (FY 2023-24).  Each [old_slab_k] is the
    right-hand side assigned to [tax] in the k-th branch of the chain
    [if / elif / elif / else]; [old_regime_slab] is the chain itself. *)
Definition old_slab_1 (income_after_deductions : Q) : Q := 0.
Definition old_slab_2 (income_after_deductions : Q) : Q :=
  (income_after_deductions - 250000) * 0.05.
Definition old_slab_3 (income_after_deductions : Q) : Q :=
  12500 + (income_after_deductions - 500000) * 0.2.
Definition old_slab_4 (income_after_deductions : Q) : Q :=
  112500 + (income_after_deductions - 1000000) * 0.3.

Definition old_regime_slab (income_after_deductions : Q) : Q :=
  if Qle_bool income_after_deductions 250000 then
    old_slab_1 income_after_deductions
  else if Qle_bool income_after_deductions 500000 then
    old_slab_2 income_after_deductions
  else if Qle_bool income_after_deductions 1000000 then
    old_slab_3 income_after_deductions
  else
    old_slab_4 income_after_deductions.

Definition calculate_old_regime_tax (income_after_deductions : Q) : TaxBreakdown :=
  let tax := old_regime_slab income_after_deductions in
  let cess := tax * 0.04 in
  let total_tax := tax + cess in
  {| base_tax := tax; cess := cess; total_tax := total_tax |}.

(** Slabs of the new regime (FY 2023-24), in the same way. *)
Definition new_slab_1 (income : Q) : Q := 0.
Definition new_slab_2 (income : Q) : Q := (income - 300000) * 0.05.
Definition new_slab_3 (income : Q) : Q := 15000 + (income - 600000) * 0.1.
Definition new_slab_4 (income : Q) : Q := 45000 + (income - 900000) * 0.15.
Definition new_slab_5 (income : Q) : Q := 90000 + (income - 1200000) * 0.2.
Definition new_slab_6 (income : Q) : Q := 150000 + (income - 1500000) * 0.3.

Definition new_regime_slab (income : Q) : Q :=
  if Qle_bool income 300000 then new_slab_1 income
  else if Qle_bool income 600000 then new_slab_2 income
  else if Qle_bool income 900000 then new_slab_3 income
  else if Qle_bool income 1200000 then new_slab_4 income
  else if Qle_bool income 1500000 then new_slab_5 income
  else new_slab_6 income.

Definition calculate_new_regime_tax (income : Q) : TaxBreakdown :=
  let tax := new_regime_slab income in
  let cess := tax * 0.04 in
  let total_tax := tax + cess in
  {| base_tax := tax; cess := cess; total_tax := total_tax |}.

(** Python's format specification [:,] on an integer: decimal digits in
    groups of three, separated by commas, after the sign. *)
Fixpoint uint_digits (d : Decimal.uint) : list ascii :=
  match d with
  | Decimal.Nil => []
  | Decimal.D0 d => "0"%char :: uint_digits d
  | Decimal.D1 d => "1"%char :: uint_digits d
  | Decimal.D2 d => "2"%char :: uint_digits d
  | Decimal.D3 d => "3"%char :: uint_digits d
  | Decimal.D4 d => "4"%char :: uint_digits d
  | Decimal.D5 d => "5"%char :: uint_digits d
  | Decimal.D6 d => "6"%char :: uint_digits d
  | Decimal.D7 d => "7"%char :: uint_digits d
  | Decimal.D8 d => "8"%char :: uint_digits d
  | Decimal.D9 d => "9"%char :: uint_digits d
  end.

(** Commas are placed counting from the least significant digit, so the
    grouping runs over the reversed digit list. *)
Fixpoint group_thousands (rev_digits : list ascii) : list ascii :=
  match rev_digits with
  | a :: b :: c :: ((_ :: _) as rest) =>
      a :: b :: c :: ","%char :: group_thousands rest
  | short => short
  end.

Definition format_thousands (n : Z) : string :=
  let digits := uint_digits (N.to_uint (Z.abs_N n)) in
  let grouped := rev (group_thousands (rev digits)) in
  string_of_list_ascii (if (n <? 0)%Z then "-"%char :: grouped else grouped).

Definition tip_80c (remaining_80c : Z) : string :=
  ("You can invest Rs. " ++ format_thousands remaining_80c ++
   " more under section 80C (PPF, ELSS, NSC, etc.) to maximize your tax benefits.")%string.

Definition tip_80d : string :=
  "Consider buying health insurance for yourself and family (up to Rs. 25,000 deduction under 80D).".

Definition tip_home_loan (home_loan : Z) : string :=
  ("You can claim up to Rs. 2,00,000 for home loan interest under Section 24b. Current claim: Rs. "
   ++ format_thousands home_loan)%string.

Definition tip_edu_loan : string :=
  "Interest paid on education loans is fully deductible under Section 80E (no upper limit).".

Definition tip_nps : string :=
  "Consider investing in NPS (National Pension Scheme) for additional deduction of up to Rs. 50,000 under Section 80CCD(1B).".

Definition tip_income_splitting : string :=
  "Consider splitting income with family members (income splitting) to reduce tax burden.".

(** [tips.append(t)] on the list built so far. *)
Definition append (tips : list string) (t : string) : list string := tips ++ [t].

(** The five arguments are the integers typed into the form. *)
Definition get_tax_saving_tips
    (income investments health_insurance home_loan edu_loan : Z) : list string :=
  let tips := [] in
  let tips :=
    if (investments <? 150000)%Z then
      let remaining_80c := (150000 - investments)%Z in
      append tips (tip_80c remaining_80c)
    else tips in
  let tips :=
    if (health_insurance <? 25000)%Z then append tips tip_80d else tips in
  let tips :=
    if (home_loan >? 0)%Z && (home_loan <? 200000)%Z
    then append tips (tip_home_loan home_loan) else tips in
  let tips :=
    if (edu_loan =? 0)%Z then append tips tip_edu_loan else tips in
  let tips := append tips tip_nps in
  let tips :=
    if (income >? 1000000)%Z then append tips tip_income_splitting else tips in
  tips.

(** The dictionary [{"regime": ..., "savings": ...}]. *)
Record RegimeVerdict : Type := mkVerdict {
  regime : string;
  savings : Q
}.

Definition get_better_regime (old_regime_tax new_regime_tax : TaxBreakdown)
    : RegimeVerdict :=
  if Qlt_bool (total_tax old_regime_tax) (total_tax new_regime_tax) then
    {| regime := "Old Regime";
       savings := total_tax new_regime_tax - total_tax old_regime_tax |}
  else
    {| regime := "New Regime";
       savings := total_tax old_regime_tax - total_tax new_regime_tax |}.

End TaxCalculator.

(** ** main.py: the handler of the "Calculate Tax" button *)

Module Main.

Import TaxCalculator.

Record CalculationResult : Type := mkResult {
  old_regime_tax : TaxBreakdown;
  new_regime_tax : TaxBreakdown;
  better_regime : RegimeVerdict;
  tips : list string
}.

(** The six form fields are integers ([st.number_input] with an integer
    minimum, step and format). *)
Definition calculate_tax
    (income investments health_insurance home_loan edu_loan hra : Z)
    : CalculationResult :=
  let total_deductions :=
    (investments + health_insurance + home_loan + edu_loan + hra)%Z in
  let old_regime_taxable := Z.max 0 (income - total_deductions) in
  let old_regime_tax := calculate_old_regime_tax (inject_Z old_regime_taxable) in
  let new_regime_tax := calculate_new_regime_tax (inject_Z income) in
  let better_regime := get_better_regime old_regime_tax new_regime_tax in
  let tips :=
    get_tax_saving_tips income investments health_insurance home_loan edu_loan in
  {| old_regime_tax := old_regime_tax; new_regime_tax := new_regime_tax;
     better_regime := better_regime; tips := tips |}.

End Main.

(** ** tax_predictor.py *)

Module TaxPredictor.

Open Scope Q_scope.

(** Python indexing [l[i]]: a negative index counts from the end, an index
    out of range raises [IndexError] (here [None]). *)
Definition py_index {A : Type} (l : list A) (i : Z) : option A :=
  let n := Z.of_nat (List.length l) in
  if (0 <=? i)%Z then nth_error l (Z.to_nat i)
  else if (0 <=? n + i)%Z then nth_error l (Z.to_nat (n + i))
  else None.

(** Element-wise operations on arrays of equal length. *)
Fixpoint zip_with {A B C : Type} (f : A -> B -> C) (xs : list A) (ys : list B)
    : list C :=
  match xs, ys with
  | x :: xs', y :: ys' => f x y :: zip_with f xs' ys'
  | _, _ => []
  end.

(** [np.clip(a, a_min, a_max)], element by element. *)
Definition np_clip (a : list Q) (a_min a_max : Q) : list Q :=
  map (fun v => Qmin (Qmax v a_min) a_max) a.

(** [np.where(cond, 1, 0)]. *)
Definition np_where (cond : list bool) (x y : Z) : list Z :=
  map (fun c : bool => if c then x else y) cond.

(** The [DataFrame] built by [_generate_training_data], column by column. *)
Record TrainingData : Type := mkTrainingData {
  Income : list Z;
  Investments_80C : list Q;
  Health_Insurance : list Z;
  HRA : list Z;
  Home_Loan : list Z;
  Edu_Loan : list Z;
  Age : list Z;
  Total_Deductions : list Q;
  Best_Regime : list Z
}.

(** The dictionary returned by [predict_regime]. *)
Record Prediction : Type := mkPrediction {
  regime : string;
  confidence : Q;
  explanation : string
}.

Section Libraries.

(** numpy's process-wide generator ([np.random]) and scikit-learn's tree are
    library code; they enter as parameters.  Every draw reads and advances
    the one global generator state, and so does [fit], whose [random_state]
    is left unset and therefore falls back on that same global generator. *)
Variable RandomState : Type.
(** [np.random.seed(s)]: the state the generator is reset to. *)
Variable mt19937_seeded : Z -> RandomState.
(** [np.random.randint(low, high, size)] and [np.random.uniform(low, high,
    size)] from a given state: the array drawn and the state afterwards. *)
Variable randint : Z -> Z -> nat -> RandomState -> list Z * RandomState.
Variable uniform : Q -> Q -> nat -> RandomState -> list Q * RandomState.
(** A fitted [DecisionTreeClassifier]; [fit max_depth X y] takes the feature
    columns and the labels. *)
Variable DecisionTreeClassifier : Type.
Variable fit :
  nat -> list (list Q) -> list Z -> RandomState -> DecisionTreeClassifier * RandomState.
(** [model.predict(row)[0]] and [model.predict_proba(row)[0]]. *)
Variable predict : DecisionTreeClassifier -> list Q -> Z.
Variable predict_proba : DecisionTreeClassifier -> list Q -> list Q.

(** Computations over the global generator state. *)
Definition Rand (A : Type) : Type := RandomState -> A * RandomState.

Definition ret {A : Type} (a : A) : Rand A := fun g => (a, g).

Definition bind {A B : Type} (m : Rand A) (k : A -> Rand B) : Rand B :=
  fun g => let (a, g') := m g in k a g'.

Definition np_random_seed (s : Z) : Rand unit :=
  fun _ => (tt, mt19937_seeded s).

Notation "x <- m ;; k" := (bind m (fun x => k))
  (at level 61, m at next level, right associativity).
Notation "m ;;; k" := (bind m (fun _ => k))
  (at level 61, right associativity).

Definition _generate_training_data : Rand TrainingData :=
  np_random_seed 42 ;;;
  income <- randint 300000 2500000 100 ;;
  u <- uniform 0.05 0.15 100 ;;
  let ded_80c := np_clip (zip_with (fun i f => inject_Z i * f) income u) 0 150000 in
  ded_80d <- randint 0 50000 100 ;;
  hra <- randint 0 200000 100 ;;
  home_loan <- randint 0 300000 100 ;;
  edu_loan <- randint 0 100000 100 ;;
  let total_deductions :=
    zip_with (fun a b => a + inject_Z b)
      (zip_with (fun a b => a + inject_Z b)
        (zip_with (fun a b => a + inject_Z b)
          (zip_with (fun a b => a + inject_Z b) ded_80c ded_80d) hra)
        home_loan)
      edu_loan in
  age <- randint 22 70 100 ;;
  let deduction_income_ratio :=
    zip_with (fun t i => t / inject_Z i) total_deductions income in
  let labels :=
    np_where (map (fun r => Qlt_bool 0.12 r) deduction_income_ratio) 1 0 in
  ret {| Income := income; Investments_80C := ded_80c;
         Health_Insurance := ded_80d; HRA := hra; Home_Loan := home_loan;
         Edu_Loan := edu_loan; Age := age;
         Total_Deductions := total_deductions; Best_Regime := labels |}.

Definition _train_model (training_data : TrainingData)
    : Rand DecisionTreeClassifier :=
  let X := [ map inject_Z (Income training_data);
             Investments_80C training_data;
             map inject_Z (Health_Insurance training_data);
             map inject_Z (HRA training_data);
             map inject_Z (Home_Loan training_data);
             map inject_Z (Edu_Loan training_data);
             map inject_Z (Age training_data);
             Total_Deductions training_data ] in
  let y := Best_Regime training_data in
  fit 5 X y.

(** A [TaxRegimePredictor] instance: its two attributes. *)
Record TaxRegimePredictor : Type := mkPredictor {
  training_data : TrainingData;
  model : DecisionTreeClassifier
}.

Definition __init__ : Rand TaxRegimePredictor :=
  training_data <- _generate_training_data ;;
  model <- _train_model training_data ;;
  ret {| training_data := training_data; model := model |}.

Local Open Scope string_scope.

(** [predict_regime]; [None] stands for the [IndexError] of
    [probability[prediction]]. *)
Definition predict_regime (self : TaxRegimePredictor)
    (income investments_80c health_insurance hra home_loan edu_loan age : Z)
    : option Prediction :=
  let total_deductions :=
    (investments_80c + health_insurance + hra + home_loan + edu_loan)%Z in
  let input_data :=
    map inject_Z [income; investments_80c; health_insurance; hra; home_loan;
                  edu_loan; age; total_deductions] in
  let prediction := predict (model self) input_data in
  let probability := predict_proba (model self) input_data in
  let regime := if (prediction =? 1)%Z then "Old Regime" else "New Regime" in
  match py_index probability prediction with
  | None => None
  | Some p =>
      let confidence := p * 100 in
      let explanation :=
        if (prediction =? 1)%Z then
          if (total_deductions >? 150000)%Z then
            "Your high deduction amount makes the Old Regime more beneficial."
          else
            "Based on your profile, the Old Regime provides better tax benefits."
        else
          if (total_deductions <? 50000)%Z then
            "With low deductions, the New Regime's reduced tax rates are more beneficial."
          else
            "Based on your overall profile, the New Regime appears to be more advantageous." in
      Some {| regime := regime; confidence := confidence;
              explanation := explanation |}
  end.

End Libraries.

End TaxPredictor.

(** ** The calculators as the interpreter evaluates them: binary64

    The second reading of the same source.  The form delivers Python
    integers; comparisons and subtractions of the income are integer
    operations; a product with a decimal literal converts the integer to a
    float and multiplies in binary64, and so on.  Floats are the
    [spec_float] of the standard library with its IEEE 754 operations
    (round to nearest, ties to even) at precision 53 and maximal exponent
    1024.  A result [None] stands for the [OverflowError] that Python raises
    when an integer is too large to be converted. *)

Module Binary64.

Local Open Scope Z_scope.

Definition prec : Z := 53.
Definition emax : Z := 1024.

Definition fmul : spec_float -> spec_float -> spec_float := SFmul prec emax.
Definition fadd : spec_float -> spec_float -> spec_float := SFadd prec emax.
Definition fsub : spec_float -> spec_float -> spec_float := SFsub prec emax.

(** [float(n)] for a Python integer: the nearest float, ties to even;
    [OverflowError] when that is out of range. *)
Definition float_of_int (n : Z) : option spec_float :=
  match binary_normalize prec emax n 0 false with
  | S754_infinity _ => None
  | f => Some f
  end.

(** A decimal literal [num/den] denotes the float nearest to it, which is
    also what the correctly rounded division of [num] by [den] returns. *)
Definition literal (num den : Z) : spec_float :=
  SFdiv prec emax (binary_normalize prec emax num 0 false)
                  (binary_normalize prec emax den 0 false).

Definition lit_0_04 : spec_float := Eval vm_compute in literal 4 100.
Definition lit_0_05 : spec_float := Eval vm_compute in literal 5 100.
Definition lit_0_1 : spec_float := Eval vm_compute in literal 1 10.
Definition lit_0_15 : spec_float := Eval vm_compute in literal 15 100.
Definition lit_0_2 : spec_float := Eval vm_compute in literal 2 10.
Definition lit_0_3 : spec_float := Eval vm_compute in literal 3 10.

(** [n * c] and [k + f] with an integer on the left: the integer is
    converted first. *)
Definition int_mul (n : Z) (c : spec_float) : option spec_float :=
  match float_of_int n with
  | Some f => Some (fmul f c)
  | None => None
  end.

Definition int_add (k : Z) (f : option spec_float) : option spec_float :=
  match f with
  | Some f =>
      match float_of_int k with
      | Some c => Some (fadd c f)
      | None => None
      end
  | None => None
  end.

Record TaxBreakdown : Type := mkBreakdown {
  base_tax : spec_float;
  cess : spec_float;
  total_tax : spec_float
}.

(** In the first branch [tax] is the integer 0; it enters the products and
    sums below as the float 0.0. *)
Definition old_slab_1 (income_after_deductions : Z) : option spec_float :=
  float_of_int 0.
Definition old_slab_2 (income_after_deductions : Z) : option spec_float :=
  int_mul (income_after_deductions - 250000) lit_0_05.
Definition old_slab_3 (income_after_deductions : Z) : option spec_float :=
  int_add 12500 (int_mul (income_after_deductions - 500000) lit_0_2).
Definition old_slab_4 (income_after_deductions : Z) : option spec_float :=
  int_add 112500 (int_mul (income_after_deductions - 1000000) lit_0_3).

Definition old_regime_slab (income_after_deductions : Z) : option spec_float :=
  if income_after_deductions <=? 250000 then old_slab_1 income_after_deductions
  else if income_after_deductions <=? 500000 then old_slab_2 income_after_deductions
  else if income_after_deductions <=? 1000000 then old_slab_3 income_after_deductions
  else old_slab_4 income_after_deductions.

(** The common tail of both calculators: cess, total, and the dictionary. *)
Definition breakdown_of (tax : option spec_float) : option TaxBreakdown :=
  match tax with
  | Some tax =>
      let cess := fmul tax lit_0_04 in
      let total_tax := fadd tax cess in
      Some {| base_tax := tax; cess := cess; total_tax := total_tax |}
  | None => None
  end.

Definition calculate_old_regime_tax (income_after_deductions : Z)
    : option TaxBreakdown :=
  breakdown_of (old_regime_slab income_after_deductions).

Definition new_slab_1 (income : Z) : option spec_float := float_of_int 0.
Definition new_slab_2 (income : Z) : option spec_float :=
  int_mul (income - 300000) lit_0_05.
Definition new_slab_3 (income : Z) : option spec_float :=
  int_add 15000 (int_mul (income - 600000) lit_0_1).
Definition new_slab_4 (income : Z) : option spec_float :=
  int_add 45000 (int_mul (income - 900000) lit_0_15).
Definition new_slab_5 (income : Z) : option spec_float :=
  int_add 90000 (int_mul (income - 1200000) lit_0_2).
Definition new_slab_6 (income : Z) : option spec_float :=
  int_add 150000 (int_mul (income - 1500000) lit_0_3).

Definition new_regime_slab (income : Z) : option spec_float :=
  if income <=? 300000 then new_slab_1 income
  else if income <=? 600000 then new_slab_2 income
  else if income <=? 900000 then new_slab_3 income
  else if income <=? 1200000 then new_slab_4 income
  else if income <=? 1500000 then new_slab_5 income
  else new_slab_6 income.

Definition calculate_new_regime_tax (income : Z) : option TaxBreakdown :=
  breakdown_of (new_regime_slab income).

Record RegimeVerdict : Type := mkVerdict {
  regime : string;
  savings : spec_float
}.

Definition get_better_regime (old_regime_tax new_regime_tax : TaxBreakdown)
    : RegimeVerdict :=
  if SFltb (total_tax old_regime_tax) (total_tax new_regime_tax) then
    {| regime := "Old Regime";
       savings := fsub (total_tax new_regime_tax) (total_tax old_regime_tax) |}
  else
    {| regime := "New Regime";
       savings := fsub (total_tax old_regime_tax) (total_tax new_regime_tax) |}.

(** The handler of main.py, without the tips. *)
Definition calculate_tax
    (income investments health_insurance home_loan edu_loan hra : Z)
    : option (TaxBreakdown * TaxBreakdown * RegimeVerdict) :=
  let total_deductions :=
    investments + health_insurance + home_loan + edu_loan + hra in
  let old_regime_taxable := Z.max 0 (income - total_deductions) in
  match calculate_old_regime_tax old_regime_taxable,
        calculate_new_regime_tax income with
  | Some old_regime_tax, Some new_regime_tax =>
      Some (old_regime_tax, new_regime_tax,
            get_better_regime old_regime_tax new_regime_tax)
  | _, _ => None
  end.

End Binary64.

(** ** Auxiliary notions for reasoning about rounding *)

Module Rounding.

Import Binary64.
Local Open Scope Z_scope.

(** Rounding of the positive dyadic [m * 2^e], in the two forms the
    operations use it. *)
Definition round_pos (m : positive) (e : Z) : spec_float :=
  binary_round_aux prec emax false (Zpos m) e loc_Exact.

Definition round_dyadic (s : positive) (e : Z) : spec_float :=
  binary_round prec emax false s e.

(** The record reached after [n >= 1] right shifts of an exact mantissa. *)
Definition shr_closed (m : Z) (n : Z) : shr_record :=
  {| shr_m := m / 2 ^ n;
     shr_r := Z.testbit m (n - 1);
     shr_s := negb (m mod 2 ^ (n - 1) =? 0) |}.

(** [m / 2^k] rounded to a nearest integer, ties to even. *)
Definition rne (m k : Z) : Z :=
  let q := m / 2 ^ k in
  match 2 * (m mod 2 ^ k) ?= 2 ^ k with
  | Lt => q
  | Eq => if Z.even q then q else q + 1
  | Gt => q + 1
  end.

Definition emin : Z := -1074.

(** The float made of a rounded mantissa [q <= 2^53] at exponent [E]. *)
Definition pack (q E : Z) : spec_float :=
  match q with
  | Z0 => S754_zero false
  | Zpos p =>
      if q =? 2 ^ 53 then
        if E + 1 <=? 971 then S754_finite false (2 ^ 52) (E + 1)
        else S754_infinity false
      else
        if E <=? 971 then S754_finite false p E else S754_infinity false
  | Zneg _ => S754_nan
  end.

(** A non-negative float as an integer: its value in units of [2^-1074],
    with [2^2098] (that is [2^1024]) for infinity. *)
Definition top : Z := 2 ^ 2098.

Definition ord (f : spec_float) : Z :=
  match f with
  | S754_zero _ => 0
  | S754_finite false m e => Zpos m * 2 ^ (e + 1074)
  | S754_infinity false => top
  | _ => -1
  end.

(** Non-negative, not NaN, and in canonical form. *)
Definition good (f : spec_float) : Prop :=
  match f with
  | S754_zero false => True
  | S754_infinity false => True
  | S754_finite false m e => bounded prec emax m e = true
  | _ => False
  end.

Definition finite_nonneg (f : spec_float) : Prop :=
  match f with
  | S754_zero false => True
  | S754_finite false m e => bounded prec emax m e = true
  | _ => False
  end.

(** Rounding [v] units of [2^-k]. *)
Definition round_scaled (k v : Z) : spec_float :=
  match v with
  | Zpos p => round_dyadic p (- k)
  | _ => S754_zero false
  end.

(** Order on results that may be missing: whenever both are there, they are
    canonical non-negative floats in order. *)
Definition le_opt (a b : option spec_float) : Prop :=
  forall ta tb, a = Some ta -> b = Some tb -> good ta /\ good tb /\ ord ta <= ord tb.

(** The chain [if x <= b1: f1(x) elif x <= b2: f2(x) ... else: last(x)]. *)
Fixpoint piecewise (tiers : list (Z * (Z -> option spec_float)))
    (last : Z -> option spec_float) (x : Z) : option spec_float :=
  match tiers with
  | nil => last x
  | cons (b, f) rest => if x <=? b then f x else piecewise rest last x
  end.

(** Each formula grows from the lower end of its slab on, is defined at the
    upper end, and agrees there with the chain of the slabs above. *)
Fixpoint continuous_growing (lo : Z) (tiers : list (Z * (Z -> option spec_float)))
    (last : Z -> option spec_float) : Prop :=
  match tiers with
  | nil => forall x y, lo <= x <= y -> le_opt (last x) (last y)
  | cons (b, f) rest =>
      (forall x y, lo <= x <= y -> le_opt (f x) (f y)) /\
      (exists t, f b = Some t) /\
      piecewise rest last b = f b /\
      continuous_growing b rest last
  end.

End Rounding.

(** ** Notions used to state further properties

    Nothing below is program code: [Reading] holds what a reader does with
    the program's output (Python's [s.replace], [int(s)], [str(n)], the
    number a float stands for), [Bounds] the quantities of the error
    analysis. *)

Module Reading.

(** [s.replace(",", "")]. *)
Fixpoint remove_commas (s : string) : string :=
  match s with
  | EmptyString => EmptyString
  | String c s' =>
      if (c =? ",")%char then remove_commas s' else String c (remove_commas s')
  end.

Definition not_comma (c : ascii) : bool := negb (c =? ",")%char.

(** [int(s)] for a decimal numeral with an optional minus sign. *)
Definition int_of_string (s : string) : option Z :=
  option_map Z.of_int (DecimalString.NilZero.int_of_string s).

(** [str(n)] for an integer. *)
Definition str (n : Z) : string :=
  DecimalString.NilZero.string_of_int (Z.to_int n).

(** [l] is [l'] with some elements left out, the others in their order. *)
Inductive subsequence {A : Type} : list A -> list A -> Prop :=
| subsequence_nil : subsequence [] []
| subsequence_skip (x : A) (l l' : list A) :
    subsequence l l' -> subsequence l (x :: l')
| subsequence_take (x : A) (l l' : list A) :
    subsequence l l' -> subsequence (x :: l) (x :: l').

(** A character of 7-bit ASCII, and a text made of such characters only
    (what the core fonts of the report can print). *)
Definition seven_bit (c : ascii) : bool :=
  match c with Ascii _ _ _ _ _ _ _ b7 => negb b7 end.

Fixpoint pure_ascii (s : string) : bool :=
  match s with
  | EmptyString => true
  | String c s' => seven_bit c && pure_ascii s'
  end.

(** The rational number a float stands for (0 for the non-finite ones). *)
Definition float_value (f : spec_float) : Q :=
  match f with
  | S754_finite s m e =>
      ((if s then -1 else 1) * inject_Z (Zpos m) * 2 ^ e)%Q
  | _ => 0%Q
  end.

End Reading.

Module Bounds.

(** The first integer that no longer converts to a float: halfway between
    the largest float and [2^1024], where the tie goes to the even mantissa
    above. *)
Definition int_limit : Z := (2 ^ 1024 - 2 ^ 970)%Z.

Local Open Scope Q_scope.

(** The number of units of [2^-1074] in 1. *)
Definition scale : Q := inject_Z (2 ^ 1074).

(** One rounding moves a value by at most one part in [2^52]; [near k v e]
    says that [v] is [e] up to [k] such steps. *)
Definition delta : Q := 1 # 4503599627370496.

Fixpoint lo (k : nat) : Q :=
  match k with O => 1 | S k => (1 - delta) * lo k end.

Fixpoint hi (k : nat) : Q :=
  match k with O => 1 | S k => (1 + delta) * hi k end.

Definition near (k : nat) (v e : Q) : Prop := lo k * e <= v /\ v <= hi k * e.

End Bounds.

(** Scenarios of the engine, evaluated. *)
Example format_thousands_ex :
  map TaxCalculator.format_thousands [0; 999; 1000; 150000; 1234567; -1000]%Z
  = ["0"; "999"; "1,000"; "150,000"; "1,234,567"; "-1,000"]%string.
Proof. reflexivity. Qed.

Example tips_scenario_4 :
  TaxCalculator.get_tax_saving_tips 1200000 150000 25000 0 10000
  = [TaxCalculator.tip_nps; TaxCalculator.tip_income_splitting].
Proof. reflexivity. Qed.

(** Income 600,000 without deductions. *)
Example calculation_600000 :
  let r := Main.calculate_tax 600000 0 0 0 0 0 in
  (TaxCalculator.total_tax (Main.old_regime_tax r) == 33800)%Q /\
  (TaxCalculator.total_tax (Main.new_regime_tax r) == 15600)%Q /\
  TaxCalculator.regime (Main.better_regime r) = "New Regime"%string /\
  (TaxCalculator.savings (Main.better_regime r) == 18200)%Q.
Proof. repeat split. Qed.

(** Income 250,000 without deductions: a tie at zero. *)
Example calculation_250000 :
  let r := Main.calculate_tax 250000 0 0 0 0 0 in
  (TaxCalculator.total_tax (Main.old_regime_tax r) == 0)%Q /\
  (TaxCalculator.total_tax (Main.new_regime_tax r) == 0)%Q /\
  TaxCalculator.regime (Main.better_regime r) = "New Regime"%string /\
  (TaxCalculator.savings (Main.better_regime r) == 0)%Q.
Proof. repeat split. Qed.

(** Income 1,200,000 with 150,000 of investments, 25,000 of health insurance
    and 200,000 of home-loan interest: 825,000 taxable under the old regime. *)
Example calculation_1200000 :
  let r := Main.calculate_tax 1200000 150000 25000 200000 0 0 in
  (TaxCalculator.base_tax (Main.old_regime_tax r) == 77500)%Q /\
  (TaxCalculator.total_tax (Main.old_regime_tax r) == 80600)%Q /\
  (TaxCalculator.base_tax (Main.new_regime_tax r) == 90000)%Q /\
  (TaxCalculator.total_tax (Main.new_regime_tax r) == 93600)%Q /\
  TaxCalculator.regime (Main.better_regime r) = "Old Regime"%string /\
  (TaxCalculator.savings (Main.better_regime r) == 13000)%Q.
Proof. repeat split. Qed.

(** The same three calculations in binary64 give the same amounts, which
    are integers and therefore floats. *)
Example calculation_600000_binary64 :
  match Binary64.calculate_tax 600000 0 0 0 0 0 with
  | Some (old_tax, new_tax, verdict) =>
      Some (Binary64.total_tax old_tax) = Binary64.float_of_int 33800 /\
      Some (Binary64.total_tax new_tax) = Binary64.float_of_int 15600 /\
      Binary64.regime verdict = "New Regime"%string /\
      Some (Binary64.savings verdict) = Binary64.float_of_int 18200
  | None => False
  end.
Proof. vm_compute. repeat split. Qed.

Example calculation_250000_binary64 :
  match Binary64.calculate_tax 250000 0 0 0 0 0 with
  | Some (old_tax, new_tax, verdict) =>
      Some (Binary64.total_tax old_tax) = Binary64.float_of_int 0 /\
      Some (Binary64.total_tax new_tax) = Binary64.float_of_int 0 /\
      Binary64.regime verdict = "New Regime"%string /\
      Some (Binary64.savings verdict) = Binary64.float_of_int 0
  | None => False
  end.
Proof. vm_compute. repeat split. Qed.

Example calculation_1200000_binary64 :
  match Binary64.calculate_tax 1200000 150000 25000 200000 0 0 with
  | Some (old_tax, new_tax, verdict) =>
      Some (Binary64.total_tax old_tax) = Binary64.float_of_int 80600 /\
      Some (Binary64.total_tax new_tax) = Binary64.float_of_int 93600 /\
      Binary64.regime verdict = "Old Regime"%string /\
      Some (Binary64.savings verdict) = Binary64.float_of_int 13000
  | None => False
  end.
Proof. vm_compute. repeat split. Qed.

(** * Properties in exact arithmetic *)

Import TaxCalculator.
Open Scope Q_scope.

(** ** Comparisons *)

Lemma Qle_bool_spec (x y : Q) : BoolSpec (x <= y) (y < x) (Qle_bool x y).
Proof.
  destruct (Qle_bool x y) eqn:E; constructor.
  - now apply Qle_bool_iff.
  - apply Qnot_le_lt. intro H. apply Qle_bool_iff in H. congruence.
Qed.

Lemma Qlt_bool_spec (x y : Q) : BoolSpec (x < y) (y <= x) (Qlt_bool x y).
Proof.
  unfold Qlt_bool, Qlt, Qle.
  destruct (Z.ltb_spec (Qnum x * QDen y) (Qnum y * QDen x)); constructor; lia.
Qed.

(** ** The slab in force, by income range *)

Ltac slab_cases x :=
  repeat match goal with
  | |- context [Qle_bool x ?b] => destruct (Qle_bool_spec x b)
  end.

Lemma old_regime_slab_1 x : x <= 250000 -> old_regime_slab x = old_slab_1 x.
Proof. intros H. unfold old_regime_slab. slab_cases x; try reflexivity; lra. Qed.

Lemma old_regime_slab_2 x :
  250000 < x <= 500000 -> old_regime_slab x = old_slab_2 x.
Proof. intros H. unfold old_regime_slab. slab_cases x; try reflexivity; lra. Qed.

Lemma old_regime_slab_3 x :
  500000 < x <= 1000000 -> old_regime_slab x = old_slab_3 x.
Proof. intros H. unfold old_regime_slab. slab_cases x; try reflexivity; lra. Qed.

Lemma old_regime_slab_4 x : 1000000 < x -> old_regime_slab x = old_slab_4 x.
Proof. intros H. unfold old_regime_slab. slab_cases x; try reflexivity; lra. Qed.

Lemma new_regime_slab_1 x : x <= 300000 -> new_regime_slab x = new_slab_1 x.
Proof. intros H. unfold new_regime_slab. slab_cases x; try reflexivity; lra. Qed.

Lemma new_regime_slab_2 x :
  300000 < x <= 600000 -> new_regime_slab x = new_slab_2 x.
Proof. intros H. unfold new_regime_slab. slab_cases x; try reflexivity; lra. Qed.

Lemma new_regime_slab_3 x :
  600000 < x <= 900000 -> new_regime_slab x = new_slab_3 x.
Proof. intros H. unfold new_regime_slab. slab_cases x; try reflexivity; lra. Qed.

Lemma new_regime_slab_4 x :
  900000 < x <= 1200000 -> new_regime_slab x = new_slab_4 x.
Proof. intros H. unfold new_regime_slab. slab_cases x; try reflexivity; lra. Qed.

Lemma new_regime_slab_5 x :
  1200000 < x <= 1500000 -> new_regime_slab x = new_slab_5 x.
Proof. intros H. unfold new_regime_slab. slab_cases x; try reflexivity; lra. Qed.

Lemma new_regime_slab_6 x : 1500000 < x -> new_regime_slab x = new_slab_6 x.
Proof. intros H. unfold new_regime_slab. slab_cases x; try reflexivity; lra. Qed.

(** ** The slab tables *)

Lemma old_regime_exact_table (x : Q) :
  (x <= 250000 ->
     base_tax (calculate_old_regime_tax x) == 0 /\
     cess (calculate_old_regime_tax x) == 0 /\
     total_tax (calculate_old_regime_tax x) == 0) /\
  (250000 < x <= 500000 ->
     base_tax (calculate_old_regime_tax x) == (5 # 100) * (x - 250000)) /\
  (500000 < x <= 1000000 ->
     base_tax (calculate_old_regime_tax x)
       == 12500 + (20 # 100) * (x - 500000)) /\
  (1000000 < x ->
     base_tax (calculate_old_regime_tax x)
       == 112500 + (30 # 100) * (x - 1000000)).
Proof.
  unfold calculate_old_regime_tax; cbn [base_tax cess total_tax].
  repeat apply conj; intros H.
  - rewrite old_regime_slab_1 by assumption. unfold old_slab_1.
    repeat split; lra.
  - rewrite old_regime_slab_2 by assumption. unfold old_slab_2. lra.
  - rewrite old_regime_slab_3 by assumption. unfold old_slab_3. lra.
  - rewrite old_regime_slab_4 by assumption. unfold old_slab_4. lra.
Qed.

Lemma new_regime_exact_table (x : Q) :
  (x <= 300000 ->
     base_tax (calculate_new_regime_tax x) == 0 /\
     cess (calculate_new_regime_tax x) == 0 /\
     total_tax (calculate_new_regime_tax x) == 0) /\
  (300000 < x <= 600000 ->
     base_tax (calculate_new_regime_tax x) == (5 # 100) * (x - 300000)) /\
  (600000 < x <= 900000 ->
     base_tax (calculate_new_regime_tax x)
       == 15000 + (10 # 100) * (x - 600000)) /\
  (900000 < x <= 1200000 ->
     base_tax (calculate_new_regime_tax x)
       == 45000 + (15 # 100) * (x - 900000)) /\
  (1200000 < x <= 1500000 ->
     base_tax (calculate_new_regime_tax x)
       == 90000 + (20 # 100) * (x - 1200000)) /\
  (1500000 < x ->
     base_tax (calculate_new_regime_tax x)
       == 150000 + (30 # 100) * (x - 1500000)).
Proof.
  unfold calculate_new_regime_tax; cbn [base_tax cess total_tax].
  repeat apply conj; intros H.
  - rewrite new_regime_slab_1 by assumption. unfold new_slab_1.
    repeat split; lra.
  - rewrite new_regime_slab_2 by assumption. unfold new_slab_2. lra.
  - rewrite new_regime_slab_3 by assumption. unfold new_slab_3. lra.
  - rewrite new_regime_slab_4 by assumption. unfold new_slab_4. lra.
  - rewrite new_regime_slab_5 by assumption. unfold new_slab_5. lra.
  - rewrite new_regime_slab_6 by assumption. unfold new_slab_6. lra.
Qed.

(** ** Cess and total *)

Lemma cess_and_total_exact_arith (x : Q) :
  (cess (calculate_old_regime_tax x)
     = base_tax (calculate_old_regime_tax x) * 0.04 /\
   total_tax (calculate_old_regime_tax x)
     = base_tax (calculate_old_regime_tax x) + cess (calculate_old_regime_tax x)) /\
  (cess (calculate_new_regime_tax x)
     = base_tax (calculate_new_regime_tax x) * 0.04 /\
   total_tax (calculate_new_regime_tax x)
     = base_tax (calculate_new_regime_tax x) + cess (calculate_new_regime_tax x)).
Proof. repeat split. Qed.

(** The total is 104% of the base tax, hence grows with it. *)
Lemma total_tax_old x :
  total_tax (calculate_old_regime_tax x) == (104 # 100) * old_regime_slab x.
Proof. unfold calculate_old_regime_tax; cbn [total_tax]. lra. Qed.

Lemma total_tax_new x :
  total_tax (calculate_new_regime_tax x) == (104 # 100) * new_regime_slab x.
Proof. unfold calculate_new_regime_tax; cbn [total_tax]. lra. Qed.

(** ** Negative incomes *)

Lemma negative_income_exact_as_zero (x : Q) :
  x < 0 ->
  (calculate_old_regime_tax x = calculate_old_regime_tax (Qmax 0 x) /\
   calculate_old_regime_tax x = calculate_old_regime_tax 0 /\
   base_tax (calculate_old_regime_tax x) == 0 /\
   cess (calculate_old_regime_tax x) == 0 /\
   total_tax (calculate_old_regime_tax x) == 0) /\
  (calculate_new_regime_tax x = calculate_new_regime_tax (Qmax 0 x) /\
   calculate_new_regime_tax x = calculate_new_regime_tax 0 /\
   base_tax (calculate_new_regime_tax x) == 0 /\
   cess (calculate_new_regime_tax x) == 0 /\
   total_tax (calculate_new_regime_tax x) == 0).
Proof.
  intros H.
  assert (Hm : Qmax 0 x <= 0) by (apply Q.max_lub; lra).
  unfold calculate_old_regime_tax, calculate_new_regime_tax;
    cbn [base_tax cess total_tax].
  rewrite (old_regime_slab_1 x), (old_regime_slab_1 (Qmax 0 x)),
    (old_regime_slab_1 0) by lra.
  rewrite (new_regime_slab_1 x), (new_regime_slab_1 (Qmax 0 x)),
    (new_regime_slab_1 0) by lra.
  unfold old_slab_1, new_slab_1. repeat split; lra.
Qed.

(** ** The comparison *)

Lemma better_regime_exact_verdict (old_tax new_tax : TaxBreakdown) :
  (total_tax old_tax < total_tax new_tax ->
     regime (get_better_regime old_tax new_tax) = "Old Regime"%string /\
     savings (get_better_regime old_tax new_tax)
       = total_tax new_tax - total_tax old_tax) /\
  (total_tax new_tax <= total_tax old_tax ->
     regime (get_better_regime old_tax new_tax) = "New Regime"%string /\
     savings (get_better_regime old_tax new_tax)
       = total_tax old_tax - total_tax new_tax) /\
  (total_tax old_tax == total_tax new_tax ->
     regime (get_better_regime old_tax new_tax) = "New Regime"%string /\
     savings (get_better_regime old_tax new_tax) == 0) /\
  0 <= savings (get_better_regime old_tax new_tax).
Proof.
  unfold get_better_regime.
  destruct (Qlt_bool_spec (total_tax old_tax) (total_tax new_tax)) as [Hlt | Hge];
    cbn [regime savings]; repeat apply conj; intros; try (split; [|]);
    try reflexivity; try lra.
Qed.

(** ** Monotonicity *)

Lemma old_regime_slab_mono x y :
  x <= y -> old_regime_slab x <= old_regime_slab y.
Proof.
  intros H. unfold old_regime_slab, old_slab_1, old_slab_2, old_slab_3, old_slab_4.
  slab_cases x; slab_cases y; lra.
Qed.

Lemma new_regime_slab_mono x y :
  x <= y -> new_regime_slab x <= new_regime_slab y.
Proof.
  intros H.
  unfold new_regime_slab, new_slab_1, new_slab_2, new_slab_3, new_slab_4,
    new_slab_5, new_slab_6.
  slab_cases x; slab_cases y; lra.
Qed.

Lemma total_tax_exact_monotone (x y : Q) :
  x <= y ->
  total_tax (calculate_old_regime_tax x) <= total_tax (calculate_old_regime_tax y) /\
  total_tax (calculate_new_regime_tax x) <= total_tax (calculate_new_regime_tax y).
Proof.
  intros H. rewrite !total_tax_old, !total_tax_new.
  pose proof (old_regime_slab_mono x y H).
  pose proof (new_regime_slab_mono x y H).
  split; lra.
Qed.

(** ** Continuity at the slab boundaries *)

Lemma slabs_exact_continuous :
  (old_slab_1 250000 == old_slab_2 250000 /\
   old_slab_2 500000 == old_slab_3 500000 /\
   old_slab_3 1000000 == old_slab_4 1000000) /\
  (new_slab_1 300000 == new_slab_2 300000 /\
   new_slab_2 600000 == new_slab_3 600000 /\
   new_slab_3 900000 == new_slab_4 900000 /\
   new_slab_4 1200000 == new_slab_5 1200000 /\
   new_slab_5 1500000 == new_slab_6 1500000) /\
  (base_tax (calculate_old_regime_tax 250000) == old_slab_2 250000 /\
   base_tax (calculate_old_regime_tax 500000) == old_slab_3 500000 /\
   base_tax (calculate_old_regime_tax 1000000) == old_slab_4 1000000) /\
  (base_tax (calculate_new_regime_tax 300000) == new_slab_2 300000 /\
   base_tax (calculate_new_regime_tax 600000) == new_slab_3 600000 /\
   base_tax (calculate_new_regime_tax 900000) == new_slab_4 900000 /\
   base_tax (calculate_new_regime_tax 1200000) == new_slab_5 1200000 /\
   base_tax (calculate_new_regime_tax 1500000) == new_slab_6 1500000).
Proof. repeat split; vm_compute; reflexivity. Qed.

(** Between any two incomes the base tax grows by at most the top marginal
    rate times the difference: the calculators have no jump anywhere. *)
Lemma old_regime_slab_lipschitz x y :
  x <= y -> old_regime_slab y - old_regime_slab x <= (30 # 100) * (y - x).
Proof.
  intros H. unfold old_regime_slab, old_slab_1, old_slab_2, old_slab_3, old_slab_4.
  slab_cases x; slab_cases y; lra.
Qed.

Lemma new_regime_slab_lipschitz x y :
  x <= y -> new_regime_slab y - new_regime_slab x <= (30 # 100) * (y - x).
Proof.
  intros H.
  unfold new_regime_slab, new_slab_1, new_slab_2, new_slab_3, new_slab_4,
    new_slab_5, new_slab_6.
  slab_cases x; slab_cases y; lra.
Qed.

(** ** New regime against old regime on the same amount *)

Lemma new_slab_le_old_slab x : new_regime_slab x <= old_regime_slab x.
Proof.
  unfold new_regime_slab, new_slab_1, new_slab_2, new_slab_3, new_slab_4,
    new_slab_5, new_slab_6.
  unfold old_regime_slab, old_slab_1, old_slab_2, old_slab_3, old_slab_4.
  slab_cases x; lra.
Qed.

Lemma regime_of_le (old_tax new_tax : TaxBreakdown) :
  total_tax new_tax <= total_tax old_tax ->
  regime (get_better_regime old_tax new_tax) = "New Regime"%string.
Proof.
  intros H. unfold get_better_regime.
  destruct (Qlt_bool_spec (total_tax old_tax) (total_tax new_tax)); [lra | reflexivity].
Qed.

Lemma new_regime_exact_never_dearer :
  (forall x : Q, 0 <= x ->
     total_tax (calculate_new_regime_tax x) <= total_tax (calculate_old_regime_tax x) /\
     regime (get_better_regime (calculate_old_regime_tax x)
                               (calculate_new_regime_tax x))
       = "New Regime"%string) /\
  (forall income investments health_insurance home_loan edu_loan hra : Z,
     (0 <= income)%Z ->
     (investments + health_insurance + home_loan + edu_loan + hra = 0)%Z ->
     regime (Main.better_regime
               (Main.calculate_tax income investments health_insurance
                                   home_loan edu_loan hra))
       = "New Regime"%string).
Proof.
  assert (Hle : forall x : Q,
    total_tax (calculate_new_regime_tax x) <= total_tax (calculate_old_regime_tax x)).
  { intros x. rewrite total_tax_old, total_tax_new.
    pose proof (new_slab_le_old_slab x). lra. }
  split.
  - intros x _. split; [apply Hle | apply regime_of_le, Hle].
  - intros income investments health_insurance home_loan edu_loan hra Hi Hd.
    unfold Main.calculate_tax; cbn [Main.better_regime].
    rewrite Hd, Z.sub_0_r, Z.max_r by assumption.
    apply regime_of_le, Hle.
Qed.

(** ** The tips advisor *)

Lemma In_append_new (tips : list string) (t : string) : In t (append tips t).
Proof. unfold append. apply in_or_app. right. left. reflexivity. Qed.

Lemma In_append_old (tips : list string) (t u : string) :
  In t tips -> In t (append tips u).
Proof. intros H. unfold append. apply in_or_app. left. exact H. Qed.

(** C8.  Whatever the five inputs, the list of tips contains the NPS
    suggestion, so there is always at least one tip. *)
Theorem nps_tip_always
    (income investments health_insurance home_loan edu_loan : Z) :
  In tip_nps
     (get_tax_saving_tips income investments health_insurance home_loan edu_loan) /\
  (1 <= List.length
          (get_tax_saving_tips income investments health_insurance home_loan
                               edu_loan))%nat.
Proof.
  assert (H : In tip_nps
    (get_tax_saving_tips income investments health_insurance home_loan edu_loan)).
  { unfold get_tax_saving_tips.
    destruct (income >? 1000000)%Z;
      [apply In_append_old |]; apply In_append_new. }
  split; [exact H |].
  destruct (get_tax_saving_tips income investments health_insurance home_loan
              edu_loan); [destruct H | simpl; lia].
Qed.

(** ** Reproducibility of the predictor *)

Section Reproducibility.

Import TaxPredictor.

Variable RandomState : Type.
Variable mt19937_seeded : Z -> RandomState.
Variable randint : Z -> Z -> nat -> RandomState -> list Z * RandomState.
Variable uniform : Q -> Q -> nat -> RandomState -> list Q * RandomState.
Variable DecisionTreeClassifier : Type.
Variable fit :
  nat -> list (list Q) -> list Z -> RandomState -> DecisionTreeClassifier * RandomState.
Variable predict : DecisionTreeClassifier -> list Q -> Z.
Variable predict_proba : DecisionTreeClassifier -> list Q -> list Q.

Local Abbreviation generate :=
  (_generate_training_data RandomState mt19937_seeded randint uniform).
Local Abbreviation init :=
  (__init__ RandomState mt19937_seeded randint uniform DecisionTreeClassifier fit).
Local Abbreviation predict_with :=
  (predict_regime DecisionTreeClassifier predict predict_proba).

(** Seeding comes first in the generation, so the state the generator was
    in before plays no part: the data set and the state handed on to the
    fit are those reached from seed 42. *)
Lemma generate_from_seed (g : RandomState) :
  generate g = generate (mt19937_seeded 42).
Proof. reflexivity. Qed.

Lemma init_from_seed (g : RandomState) : init g = init (mt19937_seeded 42).
Proof. unfold __init__, bind. rewrite generate_from_seed. reflexivity. Qed.

(** Two constructions one after the other in the same process, the second
    starting from the state the first one left behind. *)
Lemma two_instances_in_sequence (g : RandomState) :
  let (p1, g1) := init g in
  let (p2, _) := init g1 in
  p1 = p2.
Proof.
  destruct (init g) as [p1 g1] eqn:E1.
  destruct (init g1) as [p2 g2] eqn:E2.
  rewrite init_from_seed in E1. rewrite init_from_seed in E2. congruence.
Qed.

(** C9.  Two predictor instances, constructed from whatever states the
    global generator happens to be in, hold the same training set, and
    answer every prediction request alike: same regime, same confidence,
    same explanation (or the same failure). *)
Theorem predictor_reproducible (g1 g2 : RandomState) :
  training_data _
    (fst (__init__ _ mt19937_seeded randint uniform _ fit g1))
  = training_data _
      (fst (__init__ _ mt19937_seeded randint uniform _ fit g2)) /\
  forall income investments_80c health_insurance hra home_loan edu_loan age : Z,
    predict_regime _ predict predict_proba
      (fst (__init__ _ mt19937_seeded randint uniform _ fit g1))
      income investments_80c health_insurance hra home_loan edu_loan age
    = predict_regime _ predict predict_proba
        (fst (__init__ _ mt19937_seeded randint uniform _ fit g2))
        income investments_80c health_insurance hra home_loan edu_loan age.
Proof.
  rewrite (init_from_seed g1), (init_from_seed g2). split; reflexivity.
Qed.

End Reproducibility.

(** * Properties in binary64 *)

Module Binary64Facts.

Import Binary64 Rounding.
Local Open Scope Z_scope.

(** ** Number of binary digits *)

Lemma digits2_pos_bounds (m : positive) :
  2 ^ (Zpos (digits2_pos m) - 1) <= Zpos m < 2 ^ Zpos (digits2_pos m).
Proof.
  induction m as [m IH | m IH |]; cbn [digits2_pos].
  - rewrite Pos2Z.inj_succ.
    replace (Z.succ (Zpos (digits2_pos m)) - 1) with (Zpos (digits2_pos m)) by lia.
    rewrite Z.pow_succ_r by lia.
    replace (Zpos (digits2_pos m)) with (Z.succ (Zpos (digits2_pos m) - 1)) at 1 by lia.
    rewrite Z.pow_succ_r by lia. lia.
  - rewrite Pos2Z.inj_succ.
    replace (Z.succ (Zpos (digits2_pos m)) - 1) with (Zpos (digits2_pos m)) by lia.
    rewrite Z.pow_succ_r by lia.
    replace (Zpos (digits2_pos m)) with (Z.succ (Zpos (digits2_pos m) - 1)) at 1 by lia.
    rewrite Z.pow_succ_r by lia. lia.
  - cbn. lia.
Qed.

Lemma pow2_pos (n : Z) : 0 <= n -> 0 < 2 ^ n.
Proof. intros. apply Z.pow_pos_nonneg; lia. Qed.

Lemma pow2_le (a b : Z) : 0 <= a <= b -> 2 ^ a <= 2 ^ b.
Proof. intros. apply Z.pow_le_mono_r; lia. Qed.

Lemma pow2_lt (a b : Z) : 0 <= a < b -> 2 ^ a < 2 ^ b.
Proof. intros. apply Z.pow_lt_mono_r; lia. Qed.

(** The digit count is the only [d] with [2^(d-1) <= m < 2^d]. *)
Lemma digits2_pos_unique (m : positive) (d : Z) :
  0 < d -> 2 ^ (d - 1) <= Zpos m < 2 ^ d -> Zpos (digits2_pos m) = d.
Proof.
  intros Hd H. pose proof (digits2_pos_bounds m) as B.
  destruct (Z.lt_trichotomy (Zpos (digits2_pos m)) d) as [L | [E | G]]; [| exact E |].
  - assert (2 ^ Zpos (digits2_pos m) <= 2 ^ (d - 1)) by (apply pow2_le; lia). lia.
  - assert (2 ^ d <= 2 ^ (Zpos (digits2_pos m) - 1)) by (apply pow2_le; lia). lia.
Qed.

Lemma digits2_pos_mono (m n : positive) :
  Zpos m <= Zpos n -> Zpos (digits2_pos m) <= Zpos (digits2_pos n).
Proof.
  intros H. pose proof (digits2_pos_bounds m) as Bm.
  pose proof (digits2_pos_bounds n) as Bn.
  destruct (Z_le_gt_dec (Zpos (digits2_pos m)) (Zpos (digits2_pos n))) as [L | G]; [exact L |].
  assert (2 ^ Zpos (digits2_pos n) <= 2 ^ (Zpos (digits2_pos m) - 1)) by (apply pow2_le; lia).
  lia.
Qed.

(** ** Shifting right with round and sticky bits *)

Lemma iter_pos_comm {A} (f : A -> A) (p : positive) (x : A) :
  iter_pos f p (f x) = f (iter_pos f p x).
Proof.
  revert x. induction p as [p IH | p IH |]; intros x; cbn [iter_pos].
  - now rewrite !IH.
  - now rewrite !IH.
  - reflexivity.
Qed.

Lemma iter_pos_succ {A} (f : A -> A) (p : positive) (x : A) :
  iter_pos f (Pos.succ p) x = f (iter_pos f p x).
Proof.
  revert x. induction p as [p IH | p IH |]; intros x; cbn [iter_pos Pos.succ].
  - rewrite !IH. now rewrite !iter_pos_comm.
  - now rewrite !iter_pos_comm.
  - reflexivity.
Qed.

Lemma shr_1_nonneg (m : Z) (r s : bool) :
  0 <= m ->
  shr_1 {| shr_m := m; shr_r := r; shr_s := s |}
  = {| shr_m := m / 2; shr_r := Z.odd m; shr_s := r || s |}.
Proof.
  intros H. destruct m as [| p | p]; [reflexivity | | lia].
  destruct p as [p | p |]; cbn [shr_1].
  - replace (Zpos p~1 / 2) with (Zpos p); [reflexivity |].
    rewrite Pos2Z.inj_xI. apply Z.div_unique with 1; lia.
  - replace (Zpos p~0 / 2) with (Zpos p); [reflexivity |].
    rewrite Pos2Z.inj_xO. apply Z.div_unique with 0; lia.
  - reflexivity.
Qed.

Lemma testbit_div_pow2 (m n : Z) : 0 <= n -> Z.testbit m n = Z.odd (m / 2 ^ n).
Proof. intros H. now rewrite Z.testbit_odd, Z.shiftr_div_pow2. Qed.

Lemma mod_pow2_succ (m j : Z) :
  0 <= j -> m mod 2 ^ (j + 1) = m mod 2 ^ j + 2 ^ j * Z.b2z (Z.testbit m j).
Proof.
  intros H. rewrite Z.pow_add_r, Z.pow_1_r by lia.
  pose proof (pow2_pos j H).
  rewrite Z.rem_mul_r by lia.
  rewrite testbit_div_pow2 by lia.
  rewrite Zmod_odd. destruct (Z.odd (m / 2 ^ j)); reflexivity.
Qed.

Lemma sticky_succ (m j : Z) :
  0 <= j ->
  Z.testbit m j || negb (m mod 2 ^ j =? 0) = negb (m mod 2 ^ (j + 1) =? 0).
Proof.
  intros H. rewrite mod_pow2_succ by assumption.
  pose proof (pow2_pos j H).
  pose proof (Z.mod_pos_bound m (2 ^ j) ltac:(lia)).
  destruct (Z.testbit m j); cbn [Z.b2z orb].
  - symmetry. apply negb_true_iff, Z.eqb_neq. lia.
  - now rewrite Z.mul_0_r, Z.add_0_r.
Qed.

Lemma shr_1_closed (m n : Z) :
  0 <= m -> 0 < n -> shr_1 (shr_closed m n) = shr_closed m (n + 1).
Proof.
  intros Hm Hn. unfold shr_closed.
  pose proof (pow2_pos n ltac:(lia)).
  rewrite shr_1_nonneg by (apply Z.div_pos; lia).
  f_equal.
  - rewrite Z.div_div by lia. now rewrite Z.pow_add_r, Z.pow_1_r by lia.
  - replace (n + 1 - 1) with n by lia. now rewrite testbit_div_pow2 by lia.
  - replace (n + 1 - 1) with (n - 1 + 1) by lia. apply sticky_succ. lia.
Qed.

Lemma iter_shr_1_closed (p : positive) (m : Z) :
  0 <= m ->
  iter_pos shr_1 p {| shr_m := m; shr_r := false; shr_s := false |}
  = shr_closed m (Zpos p).
Proof.
  intros Hm. induction p as [| p IH] using Pos.peano_ind.
  - cbn [iter_pos]. rewrite shr_1_nonneg by assumption. unfold shr_closed.
    change (1 - 1) with 0. change (2 ^ 1) with 2. change (2 ^ 0) with 1.
    now rewrite Z.bit0_odd, Z.mod_1_r.
  - rewrite iter_pos_succ, IH, shr_1_closed by lia.
    f_equal. lia.
Qed.

(** ** Rounding a quotient by a power of two to nearest, ties to even *)

Lemma rne_0_r (m : Z) : rne m 0 = m.
Proof.
  unfold rne. change (2 ^ 0) with 1. rewrite Z.mod_1_r, Z.div_1_r. reflexivity.
Qed.

Lemma round_shr_closed (m k : Z) :
  0 <= m -> 0 < k ->
  round_nearest_even (shr_m (shr_closed m k)) (loc_of_shr_record (shr_closed m k))
  = rne m k.
Proof.
  intros Hm Hk.
  assert (exists j, 0 <= j /\ k = j + 1) as (j & Hj & ->) by (exists (k - 1); lia).
  unfold shr_closed, rne. cbn [shr_m loc_of_shr_record].
  replace (j + 1 - 1) with j by lia.
  rewrite mod_pow2_succ by lia.
  rewrite Z.pow_add_r, Z.pow_1_r by lia.
  pose proof (pow2_pos j Hj) as Hp.
  pose proof (Z.mod_pos_bound m (2 ^ j) Hp) as Hb.
  destruct (Z.testbit m j); cbn [Z.b2z].
  - destruct (Z.eqb_spec (m mod 2 ^ j) 0) as [E | N]; cbn [negb round_nearest_even].
    + rewrite E. replace (2 * (0 + 2 ^ j * 1)) with (2 ^ j * 2) by lia.
      rewrite Z.compare_refl. reflexivity.
    + replace (2 * (m mod 2 ^ j + 2 ^ j * 1) ?= 2 ^ j * 2) with Gt;
        [reflexivity |].
      symmetry. apply Z.compare_gt_iff. lia.
  - replace (2 * (m mod 2 ^ j + 2 ^ j * 0) ?= 2 ^ j * 2) with Lt.
    + destruct (negb (m mod 2 ^ j =? 0)); reflexivity.
    + symmetry. apply Z.compare_lt_iff. lia.
Qed.

Lemma rne_bounds (m k : Z) : m / 2 ^ k <= rne m k <= m / 2 ^ k + 1.
Proof.
  unfold rne. destruct (2 * (m mod 2 ^ k) ?= 2 ^ k); [| lia | lia].
  destruct (Z.even (m / 2 ^ k)); lia.
Qed.

Lemma rne_mono (m1 m2 k : Z) : 0 <= k -> m1 <= m2 -> rne m1 k <= rne m2 k.
Proof.
  intros Hk H. pose proof (pow2_pos k Hk) as Hp.
  pose proof (Z.div_le_mono m1 m2 (2 ^ k) Hp H) as Hq.
  pose proof (Z.div_mod m1 (2 ^ k) ltac:(lia)) as D1.
  pose proof (Z.div_mod m2 (2 ^ k) ltac:(lia)) as D2.
  pose proof (Z.mod_pos_bound m1 (2 ^ k) Hp) as B1.
  pose proof (Z.mod_pos_bound m2 (2 ^ k) Hp) as B2.
  destruct (Z.eq_dec (m1 / 2 ^ k) (m2 / 2 ^ k)) as [E | N].
  - unfold rne. rewrite <- E in *.
    assert (Hr : m1 mod 2 ^ k <= m2 mod 2 ^ k) by lia.
    destruct (Z.compare_spec (2 * (m1 mod 2 ^ k)) (2 ^ k));
      destruct (Z.compare_spec (2 * (m2 mod 2 ^ k)) (2 ^ k));
      destruct (Z.even (m1 / 2 ^ k)); lia.
  - pose proof (rne_bounds m1 k). pose proof (rne_bounds m2 k). lia.
Qed.

Lemma rne_scale (m k j : Z) :
  0 <= k -> 0 <= j -> rne (m * 2 ^ j) (k + j) = rne m k.
Proof.
  intros Hk Hj. unfold rne.
  pose proof (pow2_pos k Hk). pose proof (pow2_pos j Hj).
  rewrite Z.pow_add_r by lia.
  rewrite Z.div_mul_cancel_r by lia.
  rewrite Z.mul_mod_distr_r by lia.
  replace (2 * (m mod 2 ^ k * 2 ^ j)) with (2 * (m mod 2 ^ k) * 2 ^ j) by lia.
  rewrite <- Zmult_compare_compat_r by lia. reflexivity.
Qed.

(** ** The two alignment steps of [binary_round_aux] *)

Lemma fexp_eq (x : Z) : fexp prec emax x = Z.max (x - 53) emin.
Proof. reflexivity. Qed.

Lemma shr_fexp_keep (m e : Z) :
  fexp prec emax (Zdigits2 m + e) <= e ->
  shr_fexp prec emax m e loc_Exact
  = ({| shr_m := m; shr_r := false; shr_s := false |}, e).
Proof.
  intros H. unfold shr_fexp, shr. cbn [shr_record_of_loc].
  destruct (fexp prec emax (Zdigits2 m + e) - e) eqn:E; [reflexivity | lia | reflexivity].
Qed.

Lemma shr_fexp_shift (m e : Z) :
  0 <= m -> e < fexp prec emax (Zdigits2 m + e) ->
  shr_fexp prec emax m e loc_Exact
  = (shr_closed m (fexp prec emax (Zdigits2 m + e) - e),
     fexp prec emax (Zdigits2 m + e)).
Proof.
  intros Hm H. unfold shr_fexp, shr. cbn [shr_record_of_loc].
  destruct (fexp prec emax (Zdigits2 m + e) - e) eqn:E; [lia | | lia].
  rewrite iter_shr_1_closed by assumption. f_equal. lia.
Qed.

(** Closed form of the rounding: with [E] the exponent the format assigns
    to the magnitude of [m * 2^e], the result is the quotient of [m] by
    [2^(E-e)], rounded to nearest even and packed at exponent [E]. *)
Lemma round_pos_closed (m : positive) (e : Z) :
  e <= fexp prec emax (Zpos (digits2_pos m) + e) ->
  round_pos m e
  = pack (rne (Zpos m) (fexp prec emax (Zpos (digits2_pos m) + e) - e))
         (fexp prec emax (Zpos (digits2_pos m) + e)).
Proof.
  intros He. unfold round_pos, binary_round_aux.
  set (d := Zpos (digits2_pos m)) in *.
  set (E := fexp prec emax (d + e)) in *.
  assert (HE : emin <= E) by (unfold E; rewrite fexp_eq; lia).
  assert (HdE : d + e - 53 <= E) by (unfold E; rewrite fexp_eq; lia).
  (* first alignment and rounding *)
  assert (H1 : exists q,
    q = rne (Zpos m) (E - e) /\
    (let '(mrs', e') := shr_fexp prec emax (Zpos m) e loc_Exact in
     (round_nearest_even (shr_m mrs') (loc_of_shr_record mrs'), e')) = (q, E)).
  { eexists; split; [reflexivity |].
    destruct (Z.eq_dec e E) as [Eq | Ne].
    - rewrite shr_fexp_keep by (cbn [Zdigits2]; fold d; fold E; lia).
      cbn [shr_m loc_of_shr_record round_nearest_even].
      rewrite <- Eq, Z.sub_diag, rne_0_r. reflexivity.
    - rewrite shr_fexp_shift by (cbn [Zdigits2]; fold d; fold E; lia).
      cbn [Zdigits2]. fold d. fold E.
      rewrite round_shr_closed by lia. reflexivity. }
  destruct H1 as (q & Hq & H1).
  destruct (shr_fexp prec emax (Zpos m) e loc_Exact) as [mrs' e'].
  injection H1 as H1 ->. rewrite H1, <- Hq. clear H1 mrs'.
  (* the rounded mantissa has at most 53 digits, or is 2^53 *)
  assert (Hq0 : 0 <= q <= 2 ^ 53).
  { pose proof (rne_bounds (Zpos m) (E - e)) as B. rewrite <- Hq in B.
    pose proof (pow2_pos (E - e) ltac:(lia)) as Hp.
    pose proof (digits2_pos_bounds m) as Bd. fold d in Bd.
    assert (0 <= Zpos m / 2 ^ (E - e)) by (apply Z.div_pos; lia).
    assert (Zpos m / 2 ^ (E - e) < 2 ^ 53).
    { apply Z.div_lt_upper_bound; [lia |].
      rewrite <- Z.pow_add_r by lia.
      assert (2 ^ d <= 2 ^ (E - e + 53)) by (apply pow2_le; lia). lia. }
    lia. }
  unfold pack.
  destruct q as [| p | p]; [| | lia].
  - rewrite shr_fexp_keep by (cbn [Zdigits2]; rewrite fexp_eq; lia). reflexivity.
  - destruct (Z.eqb_spec (Zpos p) (2 ^ 53)) as [Ep | Np].
    + rewrite Ep. rewrite shr_fexp_shift; [| lia |].
      * change (Zdigits2 (2 ^ 53)) with 54.
        replace (fexp prec emax (54 + E)) with (E + 1) by (rewrite fexp_eq; lia).
        replace (E + 1 - E) with 1 by lia. reflexivity.
      * change (Zdigits2 (2 ^ 53)) with 54. rewrite fexp_eq. lia.
    + assert (Hd : Zpos (digits2_pos p) <= 53).
      { pose proof (digits2_pos_bounds p) as Bp.
        destruct (Z_le_gt_dec (Zpos (digits2_pos p)) 53) as [L | G]; [exact L |].
        assert (2 ^ 53 <= 2 ^ (Zpos (digits2_pos p) - 1)) by (apply pow2_le; lia).
        lia. }
      rewrite shr_fexp_keep by (cbn [Zdigits2]; rewrite fexp_eq; lia).
      reflexivity.
Qed.

(** ** Non-negative floats as integers: the value scaled by [2^1074] *)

Lemma bounded_iff (m : positive) (e : Z) :
  bounded prec emax m e = true <->
  Z.max (Zpos (digits2_pos m) + e - 53) emin = e /\ e <= 971.
Proof.
  unfold bounded, canonical_mantissa. rewrite andb_true_iff, Z.eqb_eq, Z.leb_le.
  rewrite fexp_eq. reflexivity.
Qed.

Lemma pow2_lt_inv (a b : Z) : 0 <= a -> 0 <= b -> 2 ^ a < 2 ^ b -> a < b.
Proof. intros Ha Hb H. apply (Z.pow_lt_mono_r_iff 2); lia. Qed.

Lemma good_finite_bounds (m : positive) (e : Z) :
  bounded prec emax m e = true ->
  emin <= e <= 971 /\ Zpos m < 2 ^ 53 /\ (emin < e -> 2 ^ 52 <= Zpos m).
Proof.
  intros H. apply bounded_iff in H. destruct H as [Hc He].
  pose proof (digits2_pos_bounds m) as B.
  set (d := Zpos (digits2_pos m)) in *.
  assert (0 < d) by (unfold d; lia).
  repeat split; try lia.
  - assert (2 ^ d <= 2 ^ 53) by (apply pow2_le; lia). lia.
  - intros Hlt. assert (d = 53) by lia.
    replace (d - 1) with 52 in B by lia. lia.
Qed.

Lemma ord_finite_lt_top (m : positive) (e : Z) :
  bounded prec emax m e = true -> 0 < ord (S754_finite false m e) < top.
Proof.
  intros H. apply good_finite_bounds in H. destruct H as (He & Hm & _).
  cbn [ord]. unfold emin in He.
  pose proof (pow2_pos (e + 1074) ltac:(lia)) as Hp.
  split; [lia |].
  assert (2 ^ (e + 1074) <= 2 ^ 2045) by (apply pow2_le; lia).
  unfold top. replace 2098 with (53 + 2045) by lia.
  rewrite (Z.pow_add_r 2 53 2045) by lia.
  pose proof (pow2_pos 2045 ltac:(lia)).
  apply Z.lt_le_trans with (2 ^ 53 * 2 ^ (e + 1074)).
  - apply Z.mul_lt_mono_pos_r; lia.
  - apply Z.mul_le_mono_nonneg_l; lia.
Qed.

Lemma good_ord_nonneg (f : spec_float) : good f -> 0 <= ord f <= top.
Proof.
  destruct f as [[] | [] | | [] m e]; cbn [good]; try tauto; intros H.
  - cbn [ord]. unfold top. pose proof (pow2_pos 2098 ltac:(lia)). lia.
  - cbn [ord]. unfold top. pose proof (pow2_pos 2098 ltac:(lia)). lia.
  - pose proof (ord_finite_lt_top m e H). lia.
Qed.

(** On canonical non-negative floats the IEEE comparison is the comparison of
    the scaled values. *)
Lemma finite_lt_by_exponent (m1 m2 : positive) (e1 e2 : Z) :
  bounded prec emax m1 e1 = true -> bounded prec emax m2 e2 = true ->
  e1 < e2 ->
  Zpos m1 * 2 ^ (e1 + 1074) < Zpos m2 * 2 ^ (e2 + 1074).
Proof.
  intros H1 H2 Hlt.
  apply good_finite_bounds in H1. destruct H1 as (He1 & Hm1 & _).
  apply good_finite_bounds in H2. destruct H2 as (He2 & _ & Hm2).
  unfold emin in *. specialize (Hm2 ltac:(lia)).
  pose proof (pow2_pos (e1 + 1074) ltac:(lia)) as Hp1.
  pose proof (pow2_pos (e2 + 1074) ltac:(lia)) as Hp2.
  assert (Hs : 2 * 2 ^ (e1 + 1074) <= 2 ^ (e2 + 1074)).
  { replace (2 * 2 ^ (e1 + 1074)) with (2 ^ (e1 + 1074 + 1))
      by (rewrite Z.pow_add_r by lia; lia).
    apply pow2_le. lia. }
  apply Z.lt_le_trans with (2 ^ 53 * 2 ^ (e1 + 1074)).
  - apply Z.mul_lt_mono_pos_r; lia.
  - apply Z.le_trans with (2 ^ 52 * 2 ^ (e2 + 1074)).
    + change (2 ^ 53) with (2 ^ 52 * 2). rewrite <- Z.mul_assoc.
      apply Z.mul_le_mono_nonneg_l; lia.
    + apply Z.mul_le_mono_nonneg_r; lia.
Qed.

Lemma SFcompare_ord (f1 f2 : spec_float) :
  good f1 -> good f2 -> SFcompare f1 f2 = Some (ord f1 ?= ord f2).
Proof.
  destruct f1 as [[] | [] | | [] m1 e1]; cbn [good]; try tauto;
    destruct f2 as [[] | [] | | [] m2 e2]; cbn [good]; try tauto;
    intros H1 H2; cbn [SFcompare]; try reflexivity;
    try (pose proof (ord_finite_lt_top _ _ H1) as B1);
    try (pose proof (ord_finite_lt_top _ _ H2) as B2);
    try (assert (0 < top) by (apply pow2_pos; lia));
    try solve [f_equal; symmetry; apply Z.compare_lt_iff; cbn [ord] in *; lia];
    try solve [f_equal; symmetry; apply Z.compare_gt_iff; cbn [ord] in *; lia];
    try solve [cbn [ord]; now rewrite Z.compare_refl].
  - f_equal. cbn [ord].
    destruct (Z.compare_spec e1 e2) as [E | L | G].
    + subst e2. rewrite Pos.compare_cont_spec. cbn [Pos.switch_Eq].
      apply good_finite_bounds in H1. destruct H1 as (He1 & _). unfold emin in He1.
      pose proof (pow2_pos (e1 + 1074) ltac:(lia)).
      rewrite <- Zmult_compare_compat_r by lia.
      change (Z.pos m1 ?= Z.pos m2) with (m1 ?= m2)%positive.
      destruct (m1 ?= m2)%positive; reflexivity.
    + symmetry. apply Z.compare_lt_iff. now apply finite_lt_by_exponent.
    + symmetry. apply Z.compare_gt_iff. now apply finite_lt_by_exponent.
Qed.

Lemma SFleb_ord (f1 f2 : spec_float) :
  good f1 -> good f2 -> SFleb f1 f2 = (ord f1 <=? ord f2).
Proof.
  intros H1 H2. unfold SFleb. rewrite SFcompare_ord by assumption.
  unfold Z.leb. destruct (ord f1 ?= ord f2); reflexivity.
Qed.

Lemma SFltb_ord (f1 f2 : spec_float) :
  good f1 -> good f2 -> SFltb f1 f2 = (ord f1 <? ord f2).
Proof.
  intros H1 H2. unfold SFltb. rewrite SFcompare_ord by assumption.
  unfold Z.ltb. destruct (ord f1 ?= ord f2); reflexivity.
Qed.

(** ** Products with powers of two *)

Lemma mul_pow2_le (x a b c : Z) :
  0 <= a -> 0 <= b <= c -> 0 <= x <= 2 ^ a -> x * 2 ^ b <= 2 ^ (a + c).
Proof.
  intros Ha Hb Hx. rewrite Z.pow_add_r by lia.
  pose proof (pow2_pos b ltac:(lia)). pose proof (pow2_pos a Ha).
  pose proof (pow2_le b c ltac:(lia)).
  apply Z.le_trans with (2 ^ a * 2 ^ b).
  - apply Z.mul_le_mono_nonneg_r; lia.
  - apply Z.mul_le_mono_nonneg_l; lia.
Qed.

Lemma mul_pow2_lt (x a b c : Z) :
  0 <= a -> 0 <= b <= c -> 0 <= x < 2 ^ a -> x * 2 ^ b < 2 ^ (a + c).
Proof.
  intros Ha Hb Hx. rewrite Z.pow_add_r by lia.
  pose proof (pow2_pos b ltac:(lia)). pose proof (pow2_pos a Ha).
  pose proof (pow2_le b c ltac:(lia)).
  apply Z.lt_le_trans with (2 ^ a * 2 ^ b).
  - apply Z.mul_lt_mono_pos_r; lia.
  - apply Z.mul_le_mono_nonneg_l; lia.
Qed.

Lemma mul_pow2_ge (x a b c : Z) :
  0 <= a -> 0 <= c <= b -> 2 ^ a <= x -> 2 ^ (a + c) <= x * 2 ^ b.
Proof.
  intros Ha Hb Hx. rewrite Z.pow_add_r by lia.
  pose proof (pow2_pos c ltac:(lia)). pose proof (pow2_pos a Ha).
  pose proof (pow2_le c b ltac:(lia)).
  apply Z.le_trans with (2 ^ a * 2 ^ b).
  - apply Z.mul_le_mono_nonneg_l; lia.
  - apply Z.mul_le_mono_nonneg_r; lia.
Qed.

(** ** The rounded mantissa and the float packed from it *)

Lemma rne_mantissa (m : positive) (e E : Z) :
  E = fexp prec emax (Zpos (digits2_pos m) + e) -> e <= E ->
  0 <= rne (Zpos m) (E - e) <= 2 ^ 53 /\
  (emin < E -> 2 ^ 52 <= rne (Zpos m) (E - e)).
Proof.
  intros HE He. rewrite fexp_eq in HE.
  pose proof (rne_bounds (Zpos m) (E - e)) as B.
  pose proof (pow2_pos (E - e) ltac:(lia)) as Hp.
  pose proof (digits2_pos_bounds m) as Bd.
  set (d := Zpos (digits2_pos m)) in *.
  assert (0 < d) by (unfold d; lia).
  assert (0 <= Zpos m / 2 ^ (E - e)) by (apply Z.div_pos; lia).
  assert (Zpos m / 2 ^ (E - e) < 2 ^ 53).
  { apply Z.div_lt_upper_bound; [lia |].
    rewrite <- Z.pow_add_r by lia.
    assert (2 ^ d <= 2 ^ (E - e + 53)) by (apply pow2_le; lia). lia. }
  split; [lia |]. intros Hlt.
  assert (Hk : E - e = d - 53) by lia.
  assert (2 ^ 52 <= Zpos m / 2 ^ (E - e)); [| lia].
  apply Z.div_le_lower_bound; [lia |].
  rewrite <- Z.pow_add_r by lia.
  replace (E - e + 52) with (d - 1) by lia. lia.
Qed.

Lemma digits2_pos_pow52 : Zpos (digits2_pos (2 ^ 52)) = 53.
Proof. reflexivity. Qed.

Lemma pack_good (q E : Z) :
  0 <= q <= 2 ^ 53 -> emin <= E -> (emin < E -> 2 ^ 52 <= q) -> good (pack q E).
Proof.
  intros Hq HE Hn. unfold pack. destruct q as [| p | p]; [exact I | | lia].
  destruct (Z.eqb_spec (Zpos p) (2 ^ 53)) as [Ep | Np].
  - destruct (Z.leb_spec (E + 1) 971); [| exact I].
    cbn [good]. apply bounded_iff. rewrite digits2_pos_pow52. lia.
  - destruct (Z.leb_spec E 971); [| exact I].
    cbn [good]. apply bounded_iff. split; [| assumption].
    pose proof (digits2_pos_bounds p) as Bp.
    destruct (Z.eq_dec E emin) as [Em | Em].
    + assert (Zpos (digits2_pos p) <= 53); [| lia].
      destruct (Z_le_gt_dec (Zpos (digits2_pos p)) 53) as [L | G]; [exact L |].
      assert (2 ^ 53 <= 2 ^ (Zpos (digits2_pos p) - 1)) by (apply pow2_le; lia).
      lia.
    + rewrite (digits2_pos_unique p 53); lia.
Qed.

Lemma pack_ord (q E : Z) :
  0 <= q <= 2 ^ 53 -> emin <= E -> (emin < E -> 2 ^ 52 <= q) ->
  ord (pack q E) = Z.min (q * 2 ^ (E + 1074)) top.
Proof.
  intros Hq HE Hn. pose proof (pack_good q E Hq HE Hn) as G.
  unfold emin in *. unfold pack in *.
  assert (Ht : 0 < top) by (apply pow2_pos; lia).
  destruct q as [| p | p]; [cbn [ord]; lia | | lia].
  destruct (Z.eqb_spec (Zpos p) (2 ^ 53)) as [Ep | Np].
  - rewrite Ep. destruct (Z.leb_spec (E + 1) 971).
    + pose proof (ord_finite_lt_top _ _ G) as B. cbn [ord] in *.
      replace (E + 1 + 1074) with (1 + (E + 1074)) in * by lia.
      rewrite Z.pow_add_r in * by lia.
      change (Zpos (2 ^ 52) * (2 ^ 1 * 2 ^ (E + 1074)))
        with (2 ^ 52 * (2 * 2 ^ (E + 1074))) in *.
      change (2 ^ 53) with (2 ^ 52 * 2). lia.
    + cbn [ord]. assert (top <= 2 ^ 53 * 2 ^ (E + 1074)); [| lia].
      unfold top. replace 2098 with (53 + 2045) by lia.
      apply mul_pow2_ge; lia.
  - destruct (Z.leb_spec E 971).
    + pose proof (ord_finite_lt_top _ _ G) as B. cbn [ord] in *. lia.
    + cbn [ord]. assert (top <= Zpos p * 2 ^ (E + 1074)); [| lia].
      unfold top. replace 2098 with (52 + 2046) by lia.
      apply mul_pow2_ge; lia.
Qed.

(** The result is a canonical non-negative float, and its scaled value is
    the rounded mantissa at its exponent, capped at infinity. *)
Theorem round_pos_good (m : positive) (e : Z) :
  e <= fexp prec emax (Zpos (digits2_pos m) + e) -> good (round_pos m e).
Proof.
  intros He. rewrite round_pos_closed by assumption.
  destruct (rne_mantissa m e _ eq_refl He) as [Hq Hn].
  apply pack_good; try assumption. rewrite fexp_eq. lia.
Qed.

Theorem round_pos_ord (m : positive) (e : Z) :
  e <= fexp prec emax (Zpos (digits2_pos m) + e) ->
  ord (round_pos m e)
  = Z.min (rne (Zpos m) (fexp prec emax (Zpos (digits2_pos m) + e) - e)
           * 2 ^ (fexp prec emax (Zpos (digits2_pos m) + e) + 1074))
          top.
Proof.
  intros He. rewrite round_pos_closed by assumption.
  destruct (rne_mantissa m e _ eq_refl He) as [Hq Hn].
  apply pack_ord; try assumption. rewrite fexp_eq. lia.
Qed.

(** ** Rounding is monotone *)

Lemma rne_upper (m k d : Z) :
  0 <= k -> 0 < d -> 0 <= m < 2 ^ d -> rne m k <= 2 ^ Z.max (d - k) 0.
Proof.
  intros Hk Hd Hm. pose proof (rne_bounds m k) as B.
  pose proof (pow2_pos k Hk).
  assert (m / 2 ^ k < 2 ^ Z.max (d - k) 0); [| lia].
  apply Z.div_lt_upper_bound; [lia |].
  rewrite <- Z.pow_add_r by lia.
  assert (2 ^ d <= 2 ^ (k + Z.max (d - k) 0)) by (apply pow2_le; lia). lia.
Qed.

(** If [m1 * 2^e1 <= m2 * 2^e2] (compared in units of [2^c]), the roundings
    are in the same order. *)
Theorem round_pos_mono (m1 m2 : positive) (e1 e2 c : Z) :
  e1 <= fexp prec emax (Zpos (digits2_pos m1) + e1) ->
  e2 <= fexp prec emax (Zpos (digits2_pos m2) + e2) ->
  c <= e1 -> c <= e2 ->
  Zpos m1 * 2 ^ (e1 - c) <= Zpos m2 * 2 ^ (e2 - c) ->
  ord (round_pos m1 e1) <= ord (round_pos m2 e2).
Proof.
  intros He1 He2 Hc1 Hc2 Hv.
  rewrite !round_pos_ord by assumption.
  destruct (rne_mantissa m1 e1 _ eq_refl He1) as [Hq1 Hn1].
  destruct (rne_mantissa m2 e2 _ eq_refl He2) as [Hq2 Hn2].
  pose proof (digits2_pos_bounds m1) as B1.
  pose proof (digits2_pos_bounds m2) as B2.
  set (d1 := Zpos (digits2_pos m1)) in *. set (d2 := Zpos (digits2_pos m2)) in *.
  assert (Hd1 : 0 < d1) by (unfold d1; lia).
  assert (Hd2 : 0 < d2) by (unfold d2; lia).
  set (E1 := fexp prec emax (d1 + e1)) in *. set (E2 := fexp prec emax (d2 + e2)) in *.
  assert (HE1 : E1 = Z.max (d1 + e1 - 53) emin) by (unfold E1; now rewrite fexp_eq).
  assert (HE2 : E2 = Z.max (d2 + e2 - 53) emin) by (unfold E2; now rewrite fexp_eq).
  unfold emin in *.
  apply Z.min_le_compat_r.
  (* magnitudes are ordered *)
  assert (HD : d1 + e1 <= d2 + e2).
  { assert (L : 2 ^ (d1 - 1 + (e1 - c)) <= Zpos m1 * 2 ^ (e1 - c))
      by (apply mul_pow2_ge; lia).
    assert (U : Zpos m2 * 2 ^ (e2 - c) < 2 ^ (d2 + (e2 - c)))
      by (apply mul_pow2_lt; lia).
    assert (d1 - 1 + (e1 - c) < d2 + (e2 - c)); [| lia].
    apply pow2_lt_inv; lia. }
  destruct (Z.eq_dec E1 E2) as [EE | NE].
  - (* same exponent after rounding: compare the rounded quotients *)
    rewrite <- EE in *.
    pose proof (pow2_pos (E1 + 1074) ltac:(lia)).
    apply Z.mul_le_mono_nonneg_r; [lia |].
    rewrite <- (rne_scale (Zpos m1) (E1 - e1) (e1 - c)) by lia.
    rewrite <- (rne_scale (Zpos m2) (E1 - e2) (e2 - c)) by lia.
    replace (E1 - e1 + (e1 - c)) with (E1 - c) by lia.
    replace (E1 - e2 + (e2 - c)) with (E1 - c) by lia.
    apply rne_mono; lia.
  - (* a binade apart: a power of two lies in between *)
    assert (HlE : E1 < E2) by lia.
    specialize (Hn2 ltac:(lia)).
    pose proof (rne_upper (Zpos m1) (E1 - e1) d1 ltac:(lia) Hd1 ltac:(lia)) as U1.
    apply Z.le_trans with (2 ^ (Z.max (d1 - (E1 - e1)) 0 + (E1 + 1074))).
    + apply mul_pow2_le; lia.
    + apply Z.le_trans with (2 ^ (52 + (E2 + 1074))).
      * apply pow2_le. lia.
      * apply mul_pow2_ge; lia.
Qed.

(** ** Rounding an arbitrary positive dyadic: [binary_round] *)

Lemma Pos_iter_xO (m d : positive) : Zpos (Pos.iter xO m d) = Zpos m * 2 ^ Zpos d.
Proof.
  induction d as [| d IH] using Pos.peano_ind.
  - cbn [Pos.iter]. rewrite Pos2Z.inj_xO. change (2 ^ 1) with 2. lia.
  - rewrite Pos.iter_succ, Pos2Z.inj_xO, IH, Pos2Z.inj_succ, Z.pow_succ_r by lia. lia.
Qed.

(** [shl_align m e e'] keeps the value and lowers the exponent to [e'] when
    [e' < e]. *)
Lemma shl_align_spec (m : positive) (e e' : Z) :
  let '(m', e'') := shl_align m e e' in
  e'' = Z.min e e' /\ Zpos m' = Zpos m * 2 ^ (e - e'').
Proof.
  unfold shl_align. destruct (e' - e) as [| d | d] eqn:E.
  - split; [lia |]. rewrite Z.sub_diag. change (2 ^ 0) with 1. lia.
  - split; [lia |]. rewrite Z.sub_diag. change (2 ^ 0) with 1. lia.
  - split; [lia |]. rewrite Pos_iter_xO. f_equal. f_equal. lia.
Qed.

Lemma digits2_pos_shift (m m' : positive) (j : Z) :
  0 <= j -> Zpos m' = Zpos m * 2 ^ j ->
  Zpos (digits2_pos m') = Zpos (digits2_pos m) + j.
Proof.
  intros Hj H. pose proof (digits2_pos_bounds m) as B.
  apply digits2_pos_unique; [lia |]. rewrite H. split.
  - replace (Zpos (digits2_pos m) + j - 1) with (Zpos (digits2_pos m) - 1 + j) by lia.
    apply mul_pow2_ge; lia.
  - apply mul_pow2_lt; lia.
Qed.

(** [binary_round] first shifts the mantissa left as far as the format
    allows, which keeps the value, and then rounds as above. *)
Lemma round_dyadic_as_round_pos (s : positive) (e : Z) :
  exists (m' : positive) (e' : Z),
    round_dyadic s e = round_pos m' e' /\
    e' <= fexp prec emax (Zpos (digits2_pos m') + e') /\
    e' <= e /\ Zpos m' = Zpos s * 2 ^ (e - e').
Proof.
  unfold round_dyadic, binary_round.
  pose proof (shl_align_spec s e (fexp prec emax (Zpos (digits2_pos s) + e))) as H.
  destruct (shl_align s e (fexp prec emax (Zpos (digits2_pos s) + e))) as [m' e'].
  destruct H as [He' Hm'].
  exists m', e'. split; [reflexivity |]. split; [| split; [lia | exact Hm']].
  rewrite (digits2_pos_shift s m' (e - e')) by (lia || assumption).
  replace (Zpos (digits2_pos s) + (e - e') + e') with (Zpos (digits2_pos s) + e) by lia.
  lia.
Qed.

Theorem round_dyadic_good (s : positive) (e : Z) : good (round_dyadic s e).
Proof.
  destruct (round_dyadic_as_round_pos s e) as (m' & e' & -> & Hp & _).
  now apply round_pos_good.
Qed.

Theorem round_dyadic_mono (s1 s2 : positive) (e1 e2 c : Z) :
  c <= e1 -> c <= e2 ->
  Zpos s1 * 2 ^ (e1 - c) <= Zpos s2 * 2 ^ (e2 - c) ->
  ord (round_dyadic s1 e1) <= ord (round_dyadic s2 e2).
Proof.
  intros Hc1 Hc2 Hv.
  destruct (round_dyadic_as_round_pos s1 e1) as (m1 & e1' & -> & Hp1 & Hle1 & Hm1).
  destruct (round_dyadic_as_round_pos s2 e2) as (m2 & e2' & -> & Hp2 & Hle2 & Hm2).
  set (c' := Z.min c (Z.min e1' e2')).
  apply (round_pos_mono m1 m2 e1' e2' c'); try assumption; try (unfold c'; lia).
  rewrite Hm1, Hm2, <- !Z.mul_assoc, <- !Z.pow_add_r by (unfold c'; lia).
  replace (e1 - e1' + (e1' - c')) with (e1 - c + (c - c')) by lia.
  replace (e2 - e2' + (e2' - c')) with (e2 - c + (c - c')) by lia.
  rewrite !Z.pow_add_r, !Z.mul_assoc by (unfold c'; lia).
  pose proof (pow2_pos (c - c') ltac:(unfold c'; lia)).
  apply Z.mul_le_mono_nonneg_r; lia.
Qed.

(** ** Floats are determined by their scaled value *)

Lemma ord_inj (f1 f2 : spec_float) : good f1 -> good f2 -> ord f1 = ord f2 -> f1 = f2.
Proof.
  destruct f1 as [[] | [] | | [] m1 e1]; cbn [good]; try tauto;
    destruct f2 as [[] | [] | | [] m2 e2]; cbn [good]; try tauto;
    intros H1 H2 He; try reflexivity;
    try (pose proof (ord_finite_lt_top _ _ H1) as B1);
    try (pose proof (ord_finite_lt_top _ _ H2) as B2);
    try (assert (0 < top) by (apply pow2_pos; lia));
    try (cbn [ord] in *; lia).
  destruct (Z.lt_trichotomy e1 e2) as [L | [E | G]].
  - pose proof (finite_lt_by_exponent m1 m2 e1 e2 H1 H2 L). cbn [ord] in He. lia.
  - subst e2. cbn [ord] in He.
    apply good_finite_bounds in H1. destruct H1 as (He1 & _). unfold emin in He1.
    pose proof (pow2_pos (e1 + 1074) ltac:(lia)).
    apply Z.mul_cancel_r in He; [| lia]. congruence.
  - pose proof (finite_lt_by_exponent m2 m1 e2 e1 H2 H1 G). cbn [ord] in He. lia.
Qed.

(** The rounding depends on the value only, not on how it is written. *)
Theorem round_dyadic_value (s1 s2 : positive) (e1 e2 c : Z) :
  c <= e1 -> c <= e2 ->
  Zpos s1 * 2 ^ (e1 - c) = Zpos s2 * 2 ^ (e2 - c) ->
  round_dyadic s1 e1 = round_dyadic s2 e2.
Proof.
  intros Hc1 Hc2 Hv. apply ord_inj; try apply round_dyadic_good.
  apply Z.le_antisymm; apply (round_dyadic_mono _ _ _ _ c); lia.
Qed.

(** A canonical float rounds to itself. *)
Lemma round_dyadic_canonical (m : positive) (e : Z) :
  bounded prec emax m e = true -> round_dyadic m e = S754_finite false m e.
Proof.
  intros H. pose proof (good_finite_bounds m e H) as (He & Hm & _).
  apply bounded_iff in H. destruct H as [Hc _].
  unfold round_dyadic, binary_round.
  pose proof (shl_align_spec m e (fexp prec emax (Zpos (digits2_pos m) + e))) as A.
  destruct (shl_align m e (fexp prec emax (Zpos (digits2_pos m) + e))) as [m' e'].
  rewrite fexp_eq, Hc in A. destruct A as [-> A].
  rewrite Z.min_id, Z.sub_diag in A. change (2 ^ 0) with 1 in A.
  assert (m' = m) by lia. subst m'. rewrite Z.min_id.
  change (binary_round_aux prec emax false (Zpos m) e loc_Exact) with (round_pos m e).
  rewrite round_pos_closed by (rewrite fexp_eq; lia).
  rewrite fexp_eq, Hc, Z.sub_diag, rne_0_r. unfold pack.
  destruct (Z.eqb_spec (Zpos m) (2 ^ 53)); [lia |].
  destruct (Z.leb_spec e 971); [reflexivity | lia].
Qed.

(** ** Rounding an integer number of units of [2^-k] *)

Lemma round_scaled_good (k v : Z) : good (round_scaled k v).
Proof. destruct v; cbn [round_scaled good]; try exact I. apply round_dyadic_good. Qed.

Lemma round_scaled_mono (k v1 v2 : Z) :
  v1 <= v2 -> ord (round_scaled k v1) <= ord (round_scaled k v2).
Proof.
  intros H. pose proof (good_ord_nonneg _ (round_scaled_good k v2)) as G2.
  destruct v1 as [| p1 | p1];
    [change (ord (round_scaled k 0)) with 0; lia | |
     change (ord (round_scaled k (Zneg p1))) with 0; lia].
  destruct v2 as [| p2 | p2]; try lia. cbn [round_scaled].
  apply (round_dyadic_mono p1 p2 (- k) (- k) (- k)); try lia.
  rewrite Z.sub_diag. change (2 ^ 0) with 1. lia.
Qed.

Lemma round_scaled_dyadic (k : Z) (s : positive) (e : Z) :
  - k <= e -> round_scaled k (Zpos s * 2 ^ (e + k)) = round_dyadic s e.
Proof.
  intros H. pose proof (pow2_pos (e + k) ltac:(lia)) as Hp.
  destruct (Zpos s * 2 ^ (e + k)) as [| p | p] eqn:E; try lia.
  cbn [round_scaled]. apply (round_dyadic_value _ _ _ _ (- k)); try lia.
  rewrite Z.sub_diag. change (2 ^ 0) with 1.
  replace (e - - k) with (e + k) by lia. rewrite E. lia.
Qed.

(** ** The operations return the exact result, rounded *)

Lemma good_cases (f : spec_float) :
  good f <-> finite_nonneg f \/ f = S754_infinity false.
Proof.
  destruct f as [[] | [] | | [] m e]; cbn [good finite_nonneg];
    split; intros H; try tauto; try (destruct H as [H | H]; try tauto; discriminate).
Qed.

Lemma finite_nonneg_good (f : spec_float) : finite_nonneg f -> good f.
Proof. intros H. apply good_cases. now left. Qed.

Lemma finite_nonneg_ord (f : spec_float) : finite_nonneg f -> 0 <= ord f < top.
Proof.
  destruct f as [[] | [] | | [] m e]; cbn [finite_nonneg]; try tauto; intros H.
  - cbn [ord]. split; [lia | apply pow2_pos; lia].
  - pose proof (ord_finite_lt_top m e H). lia.
Qed.

Lemma good_lt_top_finite (f : spec_float) : good f -> ord f < top -> finite_nonneg f.
Proof.
  intros G H. apply good_cases in G. destruct G as [G | ->]; [exact G |].
  cbn [ord] in H. lia.
Qed.

Lemma round_dyadic_eq_round_pos (s : positive) (e : Z) :
  e <= fexp prec emax (Zpos (digits2_pos s) + e) -> round_dyadic s e = round_pos s e.
Proof.
  intros H. unfold round_dyadic, binary_round, shl_align.
  destruct (fexp prec emax (Zpos (digits2_pos s) + e) - e) eqn:E; try reflexivity. lia.
Qed.

Lemma mul_exponent_ok (m1 m2 : positive) (e1 e2 : Z) :
  bounded prec emax m1 e1 = true -> bounded prec emax m2 e2 = true ->
  e1 + e2 <= fexp prec emax (Zpos (digits2_pos (m1 * m2)) + (e1 + e2)).
Proof.
  intros H1 H2. apply bounded_iff in H1, H2.
  destruct H1 as [C1 _], H2 as [C2 _]. unfold emin in *.
  pose proof (digits2_pos_bounds m1) as B1.
  pose proof (digits2_pos_bounds m2) as B2.
  pose proof (digits2_pos_bounds (m1 * m2)) as B.
  set (d1 := Zpos (digits2_pos m1)) in *. set (d2 := Zpos (digits2_pos m2)) in *.
  set (d := Zpos (digits2_pos (m1 * m2))) in *.
  assert (0 < d1) by (unfold d1; lia). assert (0 < d2) by (unfold d2; lia).
  assert (0 < d) by (unfold d; lia).
  assert (Hd : d1 + d2 - 1 <= d).
  { assert (2 ^ (d1 - 1 + (d2 - 1)) < 2 ^ d); [| apply pow2_lt_inv in H2; lia].
    rewrite Z.pow_add_r by lia. rewrite Pos2Z.inj_mul in B.
    pose proof (pow2_pos (d1 - 1) ltac:(lia)). pose proof (pow2_pos (d2 - 1) ltac:(lia)).
    apply Z.le_lt_trans with (Zpos m1 * Zpos m2); [| lia].
    apply Z.mul_le_mono_nonneg; lia. }
  rewrite fexp_eq. unfold emin. lia.
Qed.

(** The product of two finite non-negative floats is the exact product of
    their values (in units of [2^-2148]), rounded. *)
Lemma fmul_finite (a c : spec_float) :
  finite_nonneg a -> finite_nonneg c ->
  fmul a c = round_scaled 2148 (ord a * ord c).
Proof.
  destruct a as [[] | [] | | [] ma ea]; cbn [finite_nonneg]; try tauto;
    destruct c as [[] | [] | | [] mc ec]; cbn [finite_nonneg]; try tauto;
    intros Ha Hc; try reflexivity.
  - cbn [ord]. rewrite Z.mul_0_r. reflexivity.
  - unfold fmul. cbn [SFmul xorb].
    change (binary_round_aux prec emax false (Zpos (ma * mc)) (ea + ec) loc_Exact)
      with (round_pos (ma * mc) (ea + ec)).
    rewrite <- round_dyadic_eq_round_pos by now apply mul_exponent_ok.
    pose proof (good_finite_bounds ma ea Ha) as (Hea & _).
    pose proof (good_finite_bounds mc ec Hc) as (Hec & _). unfold emin in *.
    rewrite <- round_scaled_dyadic with (k := 2148) by lia.
    f_equal. cbn [ord]. rewrite Pos2Z.inj_mul.
    replace (ea + ec + 2148) with ((ea + 1074) + (ec + 1074)) by lia.
    rewrite Z.pow_add_r by lia. lia.
Qed.

(** The sum of two finite non-negative floats is the exact sum of their
    values (in units of [2^-1074]), rounded. *)
Lemma fadd_finite (a b : spec_float) :
  finite_nonneg a -> finite_nonneg b ->
  fadd a b = round_scaled 1074 (ord a + ord b).
Proof.
  destruct a as [[] | [] | | [] ma ea]; cbn [finite_nonneg]; try tauto;
    destruct b as [[] | [] | | [] mb eb]; cbn [finite_nonneg]; try tauto;
    intros Ha Hb; try reflexivity.
  - (* 0 + b *)
    unfold fadd. cbn [SFadd ord]. rewrite Z.add_0_l.
    pose proof (good_finite_bounds mb eb Hb) as (Heb & _). unfold emin in Heb.
    rewrite round_scaled_dyadic by lia. now rewrite round_dyadic_canonical.
  - (* a + 0 *)
    unfold fadd. cbn [SFadd ord]. rewrite Z.add_0_r.
    pose proof (good_finite_bounds ma ea Ha) as (Hea & _). unfold emin in Hea.
    rewrite round_scaled_dyadic by lia. now rewrite round_dyadic_canonical.
  - (* both finite: align, add, round *)
    unfold fadd. cbn [SFadd cond_Zopp ord].
    pose proof (good_finite_bounds ma ea Ha) as (Hea & _).
    pose proof (good_finite_bounds mb eb Hb) as (Heb & _). unfold emin in *.
    pose proof (shl_align_spec ma ea (Z.min ea eb)) as Aa.
    pose proof (shl_align_spec mb eb (Z.min ea eb)) as Ab.
    destruct (shl_align ma ea (Z.min ea eb)) as [ma' ea'].
    destruct (shl_align mb eb (Z.min ea eb)) as [mb' eb'].
    destruct Aa as [Ea Ma], Ab as [Eb Mb]. cbn [fst].
    set (ez := Z.min ea eb) in *.
    replace ea' with ez in Ma by lia. replace eb' with ez in Mb by lia.
    change (Zpos ma' + Zpos mb') with (Zpos (ma' + mb')).
    cbn [binary_normalize].
    change (binary_round prec emax false (ma' + mb') ez)
      with (round_dyadic (ma' + mb') ez).
    rewrite <- round_scaled_dyadic with (k := 1074) by (unfold ez; lia).
    f_equal. rewrite Pos2Z.inj_add, Ma, Mb, Z.mul_add_distr_r.
    rewrite <- !Z.mul_assoc, <- !Z.pow_add_r by (unfold ez; lia).
    f_equal; f_equal; f_equal; lia.
Qed.

Lemma fadd_infinity_l (b : spec_float) :
  good b -> fadd (S754_infinity false) b = S754_infinity false.
Proof. destruct b as [[] | [] | | [] m e]; cbn [good]; try tauto; reflexivity. Qed.

Lemma fadd_infinity_r (a : spec_float) :
  good a -> fadd a (S754_infinity false) = S754_infinity false.
Proof. destruct a as [[] | [] | | [] m e]; cbn [good]; try tauto; reflexivity. Qed.

Lemma fmul_infinity_l (m : positive) (e : Z) :
  fmul (S754_infinity false) (S754_finite false m e) = S754_infinity false.
Proof. reflexivity. Qed.

Theorem fadd_good (a b : spec_float) : good a -> good b -> good (fadd a b).
Proof.
  intros Ga Gb. apply good_cases in Ga. destruct Ga as [Fa | ->].
  - pose proof Gb as Gb'. apply good_cases in Gb'. destruct Gb' as [Fb | ->].
    + rewrite fadd_finite by assumption. apply round_scaled_good.
    + rewrite fadd_infinity_r by now apply finite_nonneg_good. exact I.
  - now rewrite fadd_infinity_l.
Qed.

(** Addition and multiplication by a positive constant are monotone on
    canonical non-negative floats. *)
Theorem fadd_mono (a a' b b' : spec_float) :
  good a -> good a' -> good b -> good b' ->
  ord a <= ord a' -> ord b <= ord b' ->
  ord (fadd a b) <= ord (fadd a' b').
Proof.
  intros Ga Ga' Gb Gb' Ha Hb.
  pose proof (good_ord_nonneg _ (fadd_good a b Ga Gb)) as B.
  pose proof Ga' as Ca'. apply good_cases in Ca'. destruct Ca' as [Fa' | ->];
    [| rewrite fadd_infinity_l by assumption; cbn [ord]; lia].
  pose proof Gb' as Cb'. apply good_cases in Cb'. destruct Cb' as [Fb' | ->];
    [| rewrite fadd_infinity_r by assumption; cbn [ord]; lia].
  pose proof (finite_nonneg_ord a' Fa'). pose proof (finite_nonneg_ord b' Fb').
  assert (Fa : finite_nonneg a) by (apply good_lt_top_finite; [assumption | lia]).
  assert (Fb : finite_nonneg b) by (apply good_lt_top_finite; [assumption | lia]).
  rewrite !fadd_finite by assumption. apply round_scaled_mono. lia.
Qed.

Theorem fmul_good (a : spec_float) (m : positive) (e : Z) :
  good a -> bounded prec emax m e = true -> good (fmul a (S754_finite false m e)).
Proof.
  intros Ga Hc. apply good_cases in Ga. destruct Ga as [Fa | ->].
  - rewrite fmul_finite by assumption. apply round_scaled_good.
  - rewrite fmul_infinity_l. exact I.
Qed.

Theorem fmul_mono (a a' : spec_float) (m : positive) (e : Z) :
  good a -> good a' -> bounded prec emax m e = true ->
  ord a <= ord a' ->
  ord (fmul a (S754_finite false m e)) <= ord (fmul a' (S754_finite false m e)).
Proof.
  intros Ga Ga' Hc Ha.
  pose proof (good_ord_nonneg _ (fmul_good a m e Ga Hc)) as B.
  pose proof Ga' as Ca'. apply good_cases in Ca'. destruct Ca' as [Fa' | ->];
    [| rewrite fmul_infinity_l; cbn [ord]; lia].
  pose proof (finite_nonneg_ord a' Fa').
  assert (Fa : finite_nonneg a) by (apply good_lt_top_finite; [assumption | lia]).
  rewrite !fmul_finite by assumption. apply round_scaled_mono.
  pose proof (ord_finite_lt_top m e Hc). pose proof (finite_nonneg_ord a Fa).
  apply Z.mul_le_mono_nonneg_r; lia.
Qed.

(** ** Conversion of integers *)

Lemma binary_normalize_nonneg (n : Z) :
  0 <= n -> binary_normalize prec emax n 0 false = round_scaled 0 n.
Proof. intros H. destruct n; [reflexivity | reflexivity | lia]. Qed.

Lemma float_of_int_spec (n : Z) (f : spec_float) :
  0 <= n -> float_of_int n = Some f -> f = round_scaled 0 n /\ finite_nonneg f.
Proof.
  intros Hn. unfold float_of_int. rewrite binary_normalize_nonneg by assumption.
  pose proof (round_scaled_good 0 n) as G.
  destruct (round_scaled 0 n) as [[] | [] | | [] m e]; cbn [good] in G; try tauto;
    intros [= <-]; split; try reflexivity; exact G.
Qed.

Lemma round_scaled_0_pow1023 :
  round_scaled 0 (2 ^ 1023) = S754_finite false (2 ^ 52) 971.
Proof. vm_compute. reflexivity. Qed.

Lemma float_of_int_total (n : Z) :
  0 <= n <= 2 ^ 1023 -> exists f, float_of_int n = Some f.
Proof.
  intros Hn. unfold float_of_int. rewrite binary_normalize_nonneg by lia.
  pose proof (round_scaled_good 0 n) as G.
  pose proof (round_scaled_mono 0 n (2 ^ 1023) ltac:(lia)) as M.
  rewrite round_scaled_0_pow1023 in M.
  assert (B : bounded prec emax (2 ^ 52) 971 = true) by reflexivity.
  pose proof (ord_finite_lt_top _ _ B) as T.
  destruct (round_scaled 0 n) as [[] | [] | | [] m e]; cbn [good] in G; try tauto;
    try (eexists; reflexivity).
  cbn [ord] in M, T. lia.
Qed.

Lemma float_of_int_mono (n1 n2 : Z) (f1 f2 : spec_float) :
  0 <= n1 <= n2 -> float_of_int n1 = Some f1 -> float_of_int n2 = Some f2 ->
  ord f1 <= ord f2.
Proof.
  intros Hn H1 H2.
  apply float_of_int_spec in H1; [| lia]. apply float_of_int_spec in H2; [| lia].
  destruct H1 as [-> _], H2 as [-> _]. apply round_scaled_mono. lia.
Qed.

(** ** The slabs grow with the income *)

Lemma int_mul_mono (n1 n2 : Z) (m : positive) (e : Z) (r1 r2 : spec_float) :
  bounded prec emax m e = true -> 0 <= n1 <= n2 ->
  int_mul n1 (S754_finite false m e) = Some r1 ->
  int_mul n2 (S754_finite false m e) = Some r2 ->
  good r1 /\ good r2 /\ ord r1 <= ord r2.
Proof.
  intros Hc Hn. unfold int_mul.
  destruct (float_of_int n1) as [f1 |] eqn:E1; [| discriminate].
  destruct (float_of_int n2) as [f2 |] eqn:E2; [| discriminate].
  intros [= <-] [= <-].
  pose proof (float_of_int_mono _ _ _ _ Hn E1 E2) as M.
  apply float_of_int_spec in E1; [| lia]. apply float_of_int_spec in E2; [| lia].
  destruct E1 as [_ F1], E2 as [_ F2].
  apply finite_nonneg_good in F1, F2.
  repeat split; try (now apply fmul_good). now apply fmul_mono.
Qed.

Lemma int_add_mono (k : Z) (f1 f2 : option spec_float) (r1 r2 : spec_float) :
  0 <= k ->
  (forall a1 a2, f1 = Some a1 -> f2 = Some a2 -> good a1 /\ good a2 /\ ord a1 <= ord a2) ->
  int_add k f1 = Some r1 -> int_add k f2 = Some r2 ->
  good r1 /\ good r2 /\ ord r1 <= ord r2.
Proof.
  intros Hk Hf. unfold int_add.
  destruct f1 as [a1 |]; [| discriminate]. destruct f2 as [a2 |]; [| discriminate].
  destruct (Hf a1 a2 eq_refl eq_refl) as (G1 & G2 & M).
  destruct (float_of_int k) as [c |] eqn:Ek; [| discriminate].
  intros [= <-] [= <-].
  apply float_of_int_spec in Ek; [| lia]. destruct Ek as [_ Fc].
  apply finite_nonneg_good in Fc.
  repeat split; try (now apply fadd_good). apply fadd_mono; try assumption. lia.
Qed.

Lemma lit_0_04_bounded : bounded prec emax 5764607523034235 (-57) = true.
Proof. reflexivity. Qed.

Lemma breakdown_of_mono (t1 t2 : option spec_float) (b1 b2 : TaxBreakdown) :
  (forall a1 a2, t1 = Some a1 -> t2 = Some a2 -> good a1 /\ good a2 /\ ord a1 <= ord a2) ->
  breakdown_of t1 = Some b1 -> breakdown_of t2 = Some b2 ->
  good (total_tax b1) /\ good (total_tax b2) /\
  ord (total_tax b1) <= ord (total_tax b2).
Proof.
  intros Ht. unfold breakdown_of.
  destruct t1 as [a1 |]; [| discriminate]. destruct t2 as [a2 |]; [| discriminate].
  destruct (Ht a1 a2 eq_refl eq_refl) as (G1 & G2 & M).
  intros [= <-] [= <-]. cbn [total_tax]. unfold lit_0_04.
  pose proof (fmul_good a1 _ _ G1 lit_0_04_bounded).
  pose proof (fmul_good a2 _ _ G2 lit_0_04_bounded).
  repeat split; try (now apply fadd_good).
  apply fadd_mono; try assumption. now apply fmul_mono.
Qed.

(** ** Chains of slabs *)

Lemma le_opt_trans (a m b : option spec_float) (tm : spec_float) :
  m = Some tm -> le_opt a m -> le_opt m b -> le_opt a b.
Proof.
  intros Hm Ham Hmb ta tb Ha Hb.
  destruct (Ham ta tm Ha Hm) as (Ga & _ & L1).
  destruct (Hmb tm tb Hm Hb) as (_ & Gb & L2).
  repeat split; try assumption. lia.
Qed.

(** A chain whose pieces grow and join continuously grows as a whole: by
    induction on the list of slabs. *)
Theorem piecewise_mono (tiers : list (Z * (Z -> option spec_float)))
    (last : Z -> option spec_float) :
  forall lo, continuous_growing lo tiers last ->
  forall x y, lo <= x <= y -> le_opt (piecewise tiers last x) (piecewise tiers last y).
Proof.
  induction tiers as [| [b f] rest IH]; intros lo H x y Hxy.
  - cbn [piecewise]. now apply H.
  - cbn [continuous_growing] in H. destruct H as (Hf & (t & Ht) & Hc & Hrest).
    cbn [piecewise].
    destruct (Z.leb_spec x b) as [Hx | Hx]; destruct (Z.leb_spec y b) as [Hy | Hy].
    + apply Hf. lia.
    + apply (le_opt_trans _ (f b) _ t Ht).
      * apply Hf. lia.
      * rewrite <- Hc. apply (IH b Hrest). lia.
    + lia.
    + apply (IH b Hrest). lia.
Qed.

Lemma constant_zero_mono (x y : Z) : le_opt (float_of_int 0) (float_of_int 0).
Proof. intros ta tb [= <-] [= <-]. cbn. repeat split; lia. Qed.

Lemma scaled_mono (b : Z) (m : positive) (e : Z) :
  bounded prec emax m e = true ->
  forall x y, b <= x <= y ->
  le_opt (int_mul (x - b) (S754_finite false m e)) (int_mul (y - b) (S754_finite false m e)).
Proof.
  intros Hc x y Hxy ta tb Ha Hb.
  apply (int_mul_mono (x - b) (y - b) m e); try assumption. lia.
Qed.

Lemma affine_mono (k b : Z) (m : positive) (e : Z) :
  0 <= k -> bounded prec emax m e = true ->
  forall x y, b <= x <= y ->
  le_opt (int_add k (int_mul (x - b) (S754_finite false m e)))
         (int_add k (int_mul (y - b) (S754_finite false m e))).
Proof.
  intros Hk Hc x y Hxy ta tb Ha Hb.
  apply (int_add_mono k _ _ ta tb Hk (scaled_mono b m e Hc x y Hxy)); assumption.
Qed.

Lemma old_regime_slab_piecewise (x : Z) :
  old_regime_slab x
  = piecewise ((250000, old_slab_1) :: (500000, old_slab_2) :: (1000000, old_slab_3) :: nil)
              old_slab_4 x.
Proof. reflexivity. Qed.

Lemma new_regime_slab_piecewise (x : Z) :
  new_regime_slab x
  = piecewise ((300000, new_slab_1) :: (600000, new_slab_2) :: (900000, new_slab_3)
               :: (1200000, new_slab_4) :: (1500000, new_slab_5) :: nil)
              new_slab_6 x.
Proof. reflexivity. Qed.

Ltac next_tier :=
  split; [| split; [eexists; vm_compute; reflexivity
                   | split; [vm_compute; reflexivity |]]].

Theorem old_regime_slab_float_mono (x y : Z) :
  x <= y -> le_opt (old_regime_slab x) (old_regime_slab y).
Proof.
  intros Hxy.
  rewrite (old_regime_slab_piecewise x), (old_regime_slab_piecewise y).
  apply piecewise_mono with (lo := x); [| lia].
  cbn [continuous_growing].
  next_tier; [intros; apply constant_zero_mono; assumption |].
  next_tier; [apply scaled_mono; reflexivity |].
  next_tier; [apply affine_mono; [lia | reflexivity] |].
  apply affine_mono; [lia | reflexivity].
Qed.

Theorem new_regime_slab_float_mono (x y : Z) :
  x <= y -> le_opt (new_regime_slab x) (new_regime_slab y).
Proof.
  intros Hxy.
  rewrite (new_regime_slab_piecewise x), (new_regime_slab_piecewise y).
  apply piecewise_mono with (lo := x); [| lia].
  cbn [continuous_growing].
  next_tier; [intros; apply constant_zero_mono; assumption |].
  next_tier; [apply scaled_mono; reflexivity |].
  next_tier; [apply affine_mono; [lia | reflexivity] |].
  next_tier; [apply affine_mono; [lia | reflexivity] |].
  next_tier; [apply affine_mono; [lia | reflexivity] |].
  apply affine_mono; [lia | reflexivity].
Qed.

(** ** The calculators return, and the total grows with the income *)

Lemma int_mul_total (n : Z) (c : spec_float) :
  0 <= n <= 2 ^ 1023 -> exists r, int_mul n c = Some r.
Proof.
  intros H. unfold int_mul. destruct (float_of_int_total n H) as [f ->]. now eexists.
Qed.

Lemma int_add_total (k : Z) (f : option spec_float) :
  0 <= k <= 2 ^ 1023 -> (exists r, f = Some r) -> exists r, int_add k f = Some r.
Proof.
  intros H [r ->]. unfold int_add. destruct (float_of_int_total k H) as [c ->]. now eexists.
Qed.

Lemma pow1023_large : 2000000 <= 2 ^ 1023.
Proof. apply Z.le_trans with (2 ^ 21); [vm_compute; discriminate | apply pow2_le; lia]. Qed.

Lemma old_regime_slab_total (x : Z) :
  x <= 2 ^ 1023 -> exists t, old_regime_slab x = Some t.
Proof.
  intros H. pose proof pow1023_large. unfold old_regime_slab.
  destruct (Z.leb_spec x 250000); [eexists; reflexivity |].
  destruct (Z.leb_spec x 500000); [apply int_mul_total; lia |].
  destruct (Z.leb_spec x 1000000);
    apply int_add_total; try lia; apply int_mul_total; lia.
Qed.

Lemma new_regime_slab_total (x : Z) :
  x <= 2 ^ 1023 -> exists t, new_regime_slab x = Some t.
Proof.
  intros H. pose proof pow1023_large. unfold new_regime_slab.
  destruct (Z.leb_spec x 300000); [eexists; reflexivity |].
  destruct (Z.leb_spec x 600000); [apply int_mul_total; lia |].
  destruct (Z.leb_spec x 900000);
    [apply int_add_total; try lia; apply int_mul_total; lia |].
  destruct (Z.leb_spec x 1200000);
    [apply int_add_total; try lia; apply int_mul_total; lia |].
  destruct (Z.leb_spec x 1500000);
    apply int_add_total; try lia; apply int_mul_total; lia.
Qed.

(** Up to [2^1023] every conversion succeeds, so both calculators return a
    breakdown. *)
Theorem calculators_return (x : Z) :
  x <= 2 ^ 1023 ->
  (exists b, calculate_old_regime_tax x = Some b) /\
  (exists b, calculate_new_regime_tax x = Some b).
Proof.
  intros H. unfold calculate_old_regime_tax, calculate_new_regime_tax.
  destruct (old_regime_slab_total x H) as [t ->].
  destruct (new_regime_slab_total x H) as [u ->].
  split; eexists; reflexivity.
Qed.

(** Monotonicity of the total in binary64, for all integer incomes. *)
Theorem total_tax_float_monotone (x y : Z) :
  x <= y ->
  (forall bx bY, calculate_old_regime_tax x = Some bx ->
                 calculate_old_regime_tax y = Some bY ->
                 SFleb (total_tax bx) (total_tax bY) = true) /\
  (forall bx bY, calculate_new_regime_tax x = Some bx ->
                 calculate_new_regime_tax y = Some bY ->
                 SFleb (total_tax bx) (total_tax bY) = true).
Proof.
  intros Hxy. split; intros bx bY Hx Hy.
  - destruct (breakdown_of_mono _ _ bx bY (old_regime_slab_float_mono x y Hxy) Hx Hy)
      as (G1 & G2 & L).
    rewrite SFleb_ord by assumption. now apply Z.leb_le.
  - destruct (breakdown_of_mono _ _ bx bY (new_regime_slab_float_mono x y Hxy) Hx Hy)
      as (G1 & G2 & L).
    rewrite SFleb_ord by assumption. now apply Z.leb_le.
Qed.

(** ** Accuracy of rounding in the normal range *)

Lemma rne_error (m k : Z) :
  0 <= k -> m - 2 ^ k <= rne m k * 2 ^ k <= m + 2 ^ k.
Proof.
  intros Hk. pose proof (pow2_pos k Hk) as Hp.
  pose proof (rne_bounds m k) as B.
  pose proof (Z.div_mod m (2 ^ k) ltac:(lia)) as D.
  pose proof (Z.mod_pos_bound m (2 ^ k) Hp) as R.
  nia.
Qed.

(** A value of at least [2^53] units of [2^-1074], given in units of
    [2^-(1074+j)], is rounded with a relative error of at most [2^-52]. *)
Theorem round_scaled_error (j V : Z) :
  0 <= j -> 2 ^ (53 + j) <= V ->
  ord (round_scaled (1074 + j) V) < top ->
  (2 ^ 52 - 1) * V <= 2 ^ 52 * (ord (round_scaled (1074 + j) V) * 2 ^ j)
                   <= (2 ^ 52 + 1) * V.
Proof.
  intros Hj HV Ht.
  pose proof (pow2_pos (53 + j) ltac:(lia)) as HV0.
  destruct V as [| p | p]; try lia. cbn [round_scaled] in *.
  set (e0 := - (1074 + j)) in *.
  destruct (round_dyadic_as_round_pos p e0) as (m' & e' & Hr & Hp & Hle & Hm).
  rewrite Hr in *. rewrite round_pos_ord in * by assumption.
  pose proof (digits2_pos_bounds m') as Bd.
  set (d := Zpos (digits2_pos m')) in *.
  assert (Hd : 0 < d) by (unfold d; lia).
  set (E := fexp prec emax (d + e')) in *.
  assert (HE : E = Z.max (d + e' - 53) emin) by (unfold E; now rewrite fexp_eq).
  unfold emin in HE.
  set (s := e0 - e') in *.
  assert (Hs : 0 <= s) by (unfold s; lia).
  pose proof (pow2_pos s Hs) as Hps.
  (* the value is in the normal range *)
  assert (Hn : -1074 <= d + e' - 53).
  { assert (2 ^ (53 + j + s) < 2 ^ d); [| apply pow2_lt_inv in H; lia].
    apply Z.le_lt_trans with (Zpos m'); [| lia].
    rewrite Hm, Z.pow_add_r by lia.
    apply Z.mul_le_mono_nonneg_r; lia. }
  assert (Hk : E - e' = d - 53) by lia.
  rewrite Hk in *.
  set (q := rne (Zpos m') (d - 53)) in *.
  assert (Hk0 : 0 <= d - 53) by (unfold s, e0 in *; lia).
  pose proof (rne_error (Zpos m') (d - 53) Hk0) as Er. fold q in Er.
  pose proof (pow2_pos (d - 53) Hk0) as Hpk.
  assert (Hlow : 2 ^ 52 * 2 ^ (d - 53) <= Zpos m').
  { rewrite <- Z.pow_add_r by lia. replace (52 + (d - 53)) with (d - 1) by lia. lia. }
  (* no overflow: the minimum is its left argument *)
  assert (Ho : Z.min (q * 2 ^ (E + 1074)) top = q * 2 ^ (E + 1074)) by lia.
  rewrite Ho in *.
  assert (Hu : q * 2 ^ (E + 1074) * 2 ^ j * 2 ^ s = q * 2 ^ (d - 53)).
  { rewrite <- !Z.mul_assoc, <- !Z.pow_add_r by (unfold s, e0 in *; lia).
    f_equal. f_equal. unfold s, e0. lia. }
  split.
  - apply Z.mul_le_mono_pos_r with (p := 2 ^ s); [lia |].
    replace (2 ^ 52 * (q * 2 ^ (E + 1074) * 2 ^ j) * 2 ^ s)
      with (2 ^ 52 * (q * 2 ^ (E + 1074) * 2 ^ j * 2 ^ s)) by ring.
    rewrite Hu. replace ((2 ^ 52 - 1) * Zpos p * 2 ^ s) with ((2 ^ 52 - 1) * Zpos m')
      by (rewrite Hm; ring).
    lia.
  - apply Z.mul_le_mono_pos_r with (p := 2 ^ s); [lia |].
    replace (2 ^ 52 * (q * 2 ^ (E + 1074) * 2 ^ j) * 2 ^ s)
      with (2 ^ 52 * (q * 2 ^ (E + 1074) * 2 ^ j * 2 ^ s)) by ring.
    rewrite Hu. replace ((2 ^ 52 + 1) * Zpos p * 2 ^ s) with ((2 ^ 52 + 1) * Zpos m')
      by (rewrite Hm; ring).
    lia.
Qed.

(** ** Integers below [2^53] convert exactly *)

Lemma float_of_int_exact (n : Z) :
  0 <= n < 2 ^ 53 ->
  exists f, float_of_int n = Some f /\ finite_nonneg f /\ ord f = n * 2 ^ 1074.
Proof.
  intros Hn. destruct n as [| p | p]; [| | lia].
  - exists (S754_zero false). repeat split; reflexivity.
  - pose proof (digits2_pos_bounds p) as Bd.
    set (d := Zpos (digits2_pos p)) in *.
    assert (Hd : 0 < d <= 53).
    { split; [unfold d; lia |].
      destruct (Z_le_gt_dec d 53) as [L | G]; [exact L |].
      assert (2 ^ 53 <= 2 ^ (d - 1)) by (apply pow2_le; lia). lia. }
    pose proof (pow2_pos (53 - d) ltac:(lia)) as Hp.
    set (m := Z.to_pos (Zpos p * 2 ^ (53 - d))).
    assert (Hm : Zpos m = Zpos p * 2 ^ (53 - d)) by (unfold m; rewrite Z2Pos.id; lia).
    assert (Hdm : Zpos (digits2_pos m) = 53).
    { rewrite (digits2_pos_shift p m (53 - d)) by (lia || assumption). fold d. lia. }
    assert (Hb : bounded prec emax m (d - 53) = true).
    { apply bounded_iff. rewrite Hdm. unfold emin. lia. }
    assert (Hf : round_scaled 0 (Zpos p) = S754_finite false m (d - 53)).
    { cbn [round_scaled]. rewrite <- (round_dyadic_canonical m (d - 53) Hb).
      apply (round_dyadic_value _ _ _ _ (d - 53)); try lia.
      rewrite Hm, Z.sub_diag. change (- 0 - (d - 53)) with (0 - (d - 53)).
      replace (0 - (d - 53)) with (53 - d) by lia. change (2 ^ 0) with 1. lia. }
    exists (S754_finite false m (d - 53)). split; [| split].
    + unfold float_of_int. rewrite binary_normalize_nonneg by lia. now rewrite Hf.
    + exact Hb.
    + cbn [ord]. rewrite Hm, <- Z.mul_assoc, <- Z.pow_add_r by lia.
      f_equal. f_equal. lia.
Qed.

(** For [n] below [2^53] the product [n * c] is computed with a relative
    error of at most [2^-52]. *)
Lemma int_mul_accurate (n : Z) (m : positive) (e : Z) (r : spec_float) :
  bounded prec emax m e = true -> 2 ^ 53 <= ord (S754_finite false m e) ->
  1 <= n < 2 ^ 53 ->
  int_mul n (S754_finite false m e) = Some r -> ord r < top ->
  finite_nonneg r /\
  (2 ^ 52 - 1) * (n * ord (S754_finite false m e)) <= 2 ^ 52 * ord r
    <= (2 ^ 52 + 1) * (n * ord (S754_finite false m e)).
Proof.
  intros Hb HC Hn Hr Ht. unfold int_mul in Hr.
  destruct (float_of_int_exact n ltac:(lia)) as (f & Ef & Ff & Of).
  rewrite Ef in Hr. injection Hr as <-.
  assert (G : good (fmul f (S754_finite false m e)))
    by (apply fmul_good; [now apply finite_nonneg_good | assumption]).
  split; [now apply good_lt_top_finite |].
  rewrite fmul_finite in * by assumption.
  set (C := ord (S754_finite false m e)) in *.
  rewrite Of in *.
  pose proof (pow2_pos 1074 ltac:(lia)) as HT.
  change 2148 with (1074 + 1074) in *.
  assert (HV : 2 ^ (53 + 1074) <= n * 2 ^ 1074 * C).
  { rewrite Z.pow_add_r by lia.
    replace (n * 2 ^ 1074 * C) with (C * (n * 2 ^ 1074)) by ring.
    apply Z.mul_le_mono_nonneg; lia. }
  pose proof (round_scaled_error 1074 (n * 2 ^ 1074 * C) ltac:(lia) HV Ht) as [L U].
  set (P := ord (round_scaled (1074 + 1074) (n * 2 ^ 1074 * C))) in *.
  split.
  - apply Z.mul_le_mono_pos_r with (p := 2 ^ 1074); [lia |].
    replace ((2 ^ 52 - 1) * (n * C) * 2 ^ 1074) with ((2 ^ 52 - 1) * (n * 2 ^ 1074 * C)) by ring.
    replace (2 ^ 52 * P * 2 ^ 1074) with (2 ^ 52 * (P * 2 ^ 1074)) by ring. exact L.
  - apply Z.mul_le_mono_pos_r with (p := 2 ^ 1074); [lia |].
    replace ((2 ^ 52 + 1) * (n * C) * 2 ^ 1074) with ((2 ^ 52 + 1) * (n * 2 ^ 1074 * C)) by ring.
    replace (2 ^ 52 * P * 2 ^ 1074) with (2 ^ 52 * (P * 2 ^ 1074)) by ring. exact U.
Qed.

(** ** New regime against old regime, slab by slab *)

Lemma lit_0_3_ord : ord lit_0_3 = 5404319552844595 * 2 ^ 1020.
Proof. reflexivity. Qed.

Lemma int_mul_lit_0_3_finite (n : Z) (r : spec_float) :
  0 <= n <= 2 ^ 53 -> int_mul n lit_0_3 = Some r -> ord r < top.
Proof.
  intros Hn Hr.
  assert (Hb : bounded prec emax 5404319552844595 (-54) = true) by reflexivity.
  assert (exists R, int_mul (2 ^ 53) lit_0_3 = Some R /\ finite_nonneg R) as (R & HR & FR).
  { eexists. split; [vm_compute; reflexivity | reflexivity]. }
  destruct (int_mul_mono n (2 ^ 53) _ _ r R Hb Hn Hr HR) as (_ & _ & L).
  pose proof (finite_nonneg_ord R FR). lia.
Qed.

(** On the top slab both regimes charge 30% of the excess; the bases differ
    by 500,000, worth 150,000 of tax, against constant terms 37,500 apart.
    Below [2^53] the two rounding errors cannot make up the difference. *)
Lemma top_slab_new_le_old (x : Z) :
  1500000 < x < 2 ^ 53 -> le_opt (new_slab_6 x) (old_slab_4 x).
Proof.
  intros Hx ta tb Ha Hb. unfold new_slab_6, old_slab_4, int_add in *.
  destruct (int_mul (x - 1500000) lit_0_3) as [P2 |] eqn:E2; [| discriminate].
  destruct (int_mul (x - 1000000) lit_0_3) as [P1 |] eqn:E1; [| discriminate].
  destruct (float_of_int_exact 150000 ltac:(lia)) as (c2 & Ec2 & Fc2 & Oc2).
  destruct (float_of_int_exact 112500 ltac:(lia)) as (c1 & Ec1 & Fc1 & Oc1).
  rewrite Ec2 in Ha. rewrite Ec1 in Hb. injection Ha as <-. injection Hb as <-.
  assert (Hb3 : bounded prec emax 5404319552844595 (-54) = true) by reflexivity.
  assert (HC : 2 ^ 53 <= ord lit_0_3).
  { rewrite lit_0_3_ord. pose proof (pow2_le 53 1020 ltac:(lia)). lia. }
  pose proof (int_mul_lit_0_3_finite (x - 1500000) P2 ltac:(lia) E2) as T2.
  pose proof (int_mul_lit_0_3_finite (x - 1000000) P1 ltac:(lia) E1) as T1.
  destruct (int_mul_accurate (x - 1500000) _ _ P2 Hb3 HC ltac:(lia) E2 T2)
    as (F2 & _ & U2).
  destruct (int_mul_accurate (x - 1000000) _ _ P1 Hb3 HC ltac:(lia) E1 T1)
    as (F1 & L1 & _).
  fold lit_0_3 in U2, L1. rewrite lit_0_3_ord in U2, L1.
  rewrite !fadd_finite by assumption.
  split; [apply round_scaled_good |]. split; [apply round_scaled_good |].
  apply round_scaled_mono. rewrite Oc1, Oc2.
  replace (2 ^ 1074) with (2 ^ 54 * 2 ^ 1020) by (rewrite <- Z.pow_add_r by lia; reflexivity).
  pose proof (pow2_pos 1020 ltac:(lia)) as HU.
  set (U := 2 ^ 1020) in *.
  set (a := (x - 1500000) * U).
  assert (Ha0 : 0 <= a) by (unfold a; nia).
  assert (Ha1 : a + 1500000 * U < 2 ^ 53 * U) by (unfold a; nia).
  replace ((x - 1500000) * (5404319552844595 * U)) with (5404319552844595 * a) in U2
    by (unfold a; ring).
  replace ((x - 1000000) * (5404319552844595 * U))
    with (5404319552844595 * (a + 500000 * U)) in L1 by (unfold a; ring).
  lia.
Qed.

(** On a bounded range it is enough that the new-regime formula at the upper
    end does not exceed the old-regime formula at the lower end. *)
Lemma squeeze (g f : Z -> option spec_float) (lo hi : Z) (N O : spec_float) :
  (forall x y, lo <= x <= y -> le_opt (g x) (g y)) ->
  (forall x y, lo <= x <= y -> le_opt (f x) (f y)) ->
  g hi = Some N -> f lo = Some O -> ord N <= ord O ->
  forall x, lo <= x <= hi -> le_opt (g x) (f x).
Proof.
  intros Hg Hf HN HO HNO x Hx ta tb Ha Hb.
  destruct (Hg x hi ltac:(lia) ta N Ha HN) as (Ga & _ & L1).
  destruct (Hf lo x ltac:(lia) O tb HO Hb) as (_ & Gb & L2).
  repeat split; try assumption. lia.
Qed.

Ltac anchors := first [vm_compute; reflexivity | vm_compute; discriminate].

Lemma widen (f : Z -> option spec_float) (b lo : Z) :
  b <= lo ->
  (forall x y, b <= x <= y -> le_opt (f x) (f y)) ->
  forall x y, lo <= x <= y -> le_opt (f x) (f y).
Proof. intros Hb Hf x y Hxy. apply Hf. lia. Qed.

Lemma old_slab_2_mono : forall x y, 250000 <= x <= y -> le_opt (old_slab_2 x) (old_slab_2 y).
Proof. apply scaled_mono. reflexivity. Qed.

Lemma old_slab_3_mono : forall x y, 500000 <= x <= y -> le_opt (old_slab_3 x) (old_slab_3 y).
Proof. apply affine_mono; [lia | reflexivity]. Qed.

Lemma old_slab_4_mono : forall x y, 1000000 <= x <= y -> le_opt (old_slab_4 x) (old_slab_4 y).
Proof. apply affine_mono; [lia | reflexivity]. Qed.

Lemma new_slab_2_mono : forall x y, 300000 <= x <= y -> le_opt (new_slab_2 x) (new_slab_2 y).
Proof. apply scaled_mono. reflexivity. Qed.

Lemma new_slab_3_mono : forall x y, 600000 <= x <= y -> le_opt (new_slab_3 x) (new_slab_3 y).
Proof. apply affine_mono; [lia | reflexivity]. Qed.

Lemma new_slab_4_mono : forall x y, 900000 <= x <= y -> le_opt (new_slab_4 x) (new_slab_4 y).
Proof. apply affine_mono; [lia | reflexivity]. Qed.

Lemma new_slab_5_mono : forall x y, 1200000 <= x <= y -> le_opt (new_slab_5 x) (new_slab_5 y).
Proof. apply affine_mono; [lia | reflexivity]. Qed.

Ltac pick_slabs :=
  unfold new_regime_slab, old_regime_slab;
  repeat match goal with
  | |- context [?a <=? ?b] => destruct (Z.leb_spec a b); try (exfalso; lia)
  end.

(** New-regime base tax against old-regime base tax, range by range. *)
Theorem new_slab_le_old_slab_float (x : Z) :
  x < 2 ^ 53 -> le_opt (new_regime_slab x) (old_regime_slab x).
Proof.
  intros Hx.
  destruct (Z_le_gt_dec x 250000);
    [pick_slabs; apply constant_zero_mono; exact 0 |].
  destruct (Z_le_gt_dec x 300000).
  { pick_slabs. intros ta tb [= <-] Hb.
    destruct (old_slab_2_mono x x ltac:(lia) tb tb Hb Hb) as (G & _ & _).
    pose proof (good_ord_nonneg tb G). cbn. repeat split; try assumption; lia. }
  destruct (Z_le_gt_dec x 500000).
  { (* same rate, larger base *)
    pick_slabs. intros ta tb Ha Hb. unfold new_slab_2, old_slab_2 in *.
    apply (int_mul_mono (x - 300000) (x - 250000) 7205759403792794 (-57) ta tb);
      try assumption; [reflexivity | lia]. }
  destruct (Z_le_gt_dec x 550000).
  { pick_slabs.
    apply (squeeze new_slab_2 old_slab_3 500000 550000 _ _
             (widen _ 300000 500000 ltac:(lia) new_slab_2_mono) old_slab_3_mono
             ltac:(anchors) ltac:(anchors) ltac:(anchors)). lia. }
  destruct (Z_le_gt_dec x 600000).
  { pick_slabs.
    apply (squeeze new_slab_2 old_slab_3 550000 600000 _ _
             (widen _ 300000 550000 ltac:(lia) new_slab_2_mono)
             (widen _ 500000 550000 ltac:(lia) old_slab_3_mono)
             ltac:(anchors) ltac:(anchors) ltac:(anchors)). lia. }
  destruct (Z_le_gt_dec x 750000).
  { pick_slabs.
    apply (squeeze new_slab_3 old_slab_3 600000 750000 _ _
             new_slab_3_mono (widen _ 500000 600000 ltac:(lia) old_slab_3_mono)
             ltac:(anchors) ltac:(anchors) ltac:(anchors)). lia. }
  destruct (Z_le_gt_dec x 900000).
  { pick_slabs.
    apply (squeeze new_slab_3 old_slab_3 750000 900000 _ _
             (widen _ 600000 750000 ltac:(lia) new_slab_3_mono)
             (widen _ 500000 750000 ltac:(lia) old_slab_3_mono)
             ltac:(anchors) ltac:(anchors) ltac:(anchors)). lia. }
  destruct (Z_le_gt_dec x 1000000).
  { pick_slabs.
    apply (squeeze new_slab_4 old_slab_3 900000 1000000 _ _
             new_slab_4_mono (widen _ 500000 900000 ltac:(lia) old_slab_3_mono)
             ltac:(anchors) ltac:(anchors) ltac:(anchors)). lia. }
  destruct (Z_le_gt_dec x 1200000).
  { pick_slabs.
    apply (squeeze new_slab_4 old_slab_4 1000000 1200000 _ _
             (widen _ 900000 1000000 ltac:(lia) new_slab_4_mono) old_slab_4_mono
             ltac:(anchors) ltac:(anchors) ltac:(anchors)). lia. }
  destruct (Z_le_gt_dec x 1500000).
  { pick_slabs.
    apply (squeeze new_slab_5 old_slab_4 1200000 1500000 _ _
             new_slab_5_mono (widen _ 1000000 1200000 ltac:(lia) old_slab_4_mono)
             ltac:(anchors) ltac:(anchors) ltac:(anchors)). lia. }
  pick_slabs. apply top_slab_new_le_old. lia.
Qed.

(** ** The comparison in binary64 *)

(** Below [2^53] the new regime is never dearer, and the comparison says
    so. *)
Theorem new_regime_never_dearer_float (x : Z) :
  x < 2 ^ 53 ->
  exists old_tax new_tax,
    calculate_old_regime_tax x = Some old_tax /\
    calculate_new_regime_tax x = Some new_tax /\
    SFleb (total_tax new_tax) (total_tax old_tax) = true /\
    regime (get_better_regime old_tax new_tax) = "New Regime"%string.
Proof.
  intros Hx.
  assert (Hr : x <= 2 ^ 1023).
  { assert (2 ^ 53 <= 2 ^ 1023) by (apply pow2_le; lia). lia. }
  destruct (calculators_return x Hr) as [[bo Ho] [bn Hn]].
  exists bo, bn. split; [exact Ho |]. split; [exact Hn |].
  destruct (breakdown_of_mono _ _ bn bo (new_slab_le_old_slab_float x Hx) Hn Ho)
    as (Gn & Go & L).
  split.
  - rewrite SFleb_ord by assumption. now apply Z.leb_le.
  - unfold get_better_regime. rewrite SFltb_ord by assumption.
    destruct (Z.ltb_spec (ord (total_tax bo)) (ord (total_tax bn))); [lia | reflexivity].
Qed.

(** ** Continuity in binary64 *)

Theorem slabs_continuous_float :
  (old_slab_1 250000 = old_slab_2 250000 /\
   old_slab_2 500000 = old_slab_3 500000 /\
   old_slab_3 1000000 = old_slab_4 1000000) /\
  (new_slab_1 300000 = new_slab_2 300000 /\
   new_slab_2 600000 = new_slab_3 600000 /\
   new_slab_3 900000 = new_slab_4 900000 /\
   new_slab_4 1200000 = new_slab_5 1200000 /\
   new_slab_5 1500000 = new_slab_6 1500000).
Proof. repeat split; vm_compute; reflexivity. Qed.

(** ** The handler of main.py in binary64 *)

Theorem zero_deductions_new_regime_float
    (income investments health_insurance home_loan edu_loan hra : Z) :
  0 <= income < 2 ^ 53 ->
  investments + health_insurance + home_loan + edu_loan + hra = 0 ->
  exists old_tax new_tax verdict,
    calculate_tax income investments health_insurance home_loan edu_loan hra
      = Some (old_tax, new_tax, verdict) /\
    regime verdict = "New Regime"%string.
Proof.
  intros Hi Hd. unfold calculate_tax.
  rewrite Hd, Z.sub_0_r, Z.max_r by lia.
  destruct (new_regime_never_dearer_float income ltac:(lia))
    as (bo & bn & -> & -> & _ & Hr).
  exists bo, bn, (get_better_regime bo bn). split; [reflexivity | exact Hr].
Qed.

(** ** Shape of the breakdown, and the zero band *)

Lemma breakdown_shape (tax : option spec_float) (b : TaxBreakdown) :
  breakdown_of tax = Some b ->
  tax = Some (base_tax b) /\
  cess b = fmul (base_tax b) lit_0_04 /\
  total_tax b = fadd (base_tax b) (cess b).
Proof.
  unfold breakdown_of. destruct tax as [t |]; [| discriminate].
  intros [= <-]. repeat split.
Qed.

Lemma zero_band_float (x : Z) :
  (x <= 250000 ->
   calculate_old_regime_tax x
   = Some {| base_tax := S754_zero false; cess := S754_zero false;
             total_tax := S754_zero false |}) /\
  (x <= 300000 ->
   calculate_new_regime_tax x
   = Some {| base_tax := S754_zero false; cess := S754_zero false;
             total_tax := S754_zero false |}).
Proof.
  split; intros H.
  - unfold calculate_old_regime_tax, old_regime_slab.
    destruct (Z.leb_spec x 250000); [reflexivity | lia].
  - unfold calculate_new_regime_tax, new_regime_slab.
    destruct (Z.leb_spec x 300000); [reflexivity | lia].
Qed.

(** ** The literals *)

(** Each literal is a canonical float within half a unit in the last place
    of the decimal it stands for: for [m * 2^e] with [e <= 0] and the
    decimal [num/den], [2 * |m * den - num * 2^(-e)| <= den]. *)
Lemma literals_nearest :
  Forall (fun '(f, num, den) =>
            match f with
            | S754_finite false m e =>
                bounded prec emax m e = true /\ e <= 0 /\
                2 * Z.abs (Zpos m * den - num * 2 ^ (- e)) <= den
            | _ => False
            end)
    ((lit_0_04, 4, 100) :: (lit_0_05, 5, 100) :: (lit_0_1, 1, 10)
     :: (lit_0_15, 15, 100) :: (lit_0_2, 2, 10) :: (lit_0_3, 3, 10) :: nil).
Proof.
  repeat constructor; try reflexivity; try (vm_compute; discriminate).
Qed.

(** ** The base tax by slab, and negative incomes *)

Lemma base_tax_of_breakdown (tax : option spec_float) :
  option_map base_tax (breakdown_of tax) = tax.
Proof. destruct tax; reflexivity. Qed.

Lemma old_regime_table_float (x : Z) :
  (x <= 250000 ->
   option_map base_tax (calculate_old_regime_tax x) = Some (S754_zero false)) /\
  (250000 < x <= 500000 ->
   option_map base_tax (calculate_old_regime_tax x)
   = int_mul (x - 250000) lit_0_05) /\
  (500000 < x <= 1000000 ->
   option_map base_tax (calculate_old_regime_tax x)
   = int_add 12500 (int_mul (x - 500000) lit_0_2)) /\
  (1000000 < x ->
   option_map base_tax (calculate_old_regime_tax x)
   = int_add 112500 (int_mul (x - 1000000) lit_0_3)).
Proof.
  unfold calculate_old_regime_tax. rewrite base_tax_of_breakdown.
  repeat split; intros H; pick_slabs; reflexivity.
Qed.

Lemma new_regime_table_float (x : Z) :
  (x <= 300000 ->
   option_map base_tax (calculate_new_regime_tax x) = Some (S754_zero false)) /\
  (300000 < x <= 600000 ->
   option_map base_tax (calculate_new_regime_tax x)
   = int_mul (x - 300000) lit_0_05) /\
  (600000 < x <= 900000 ->
   option_map base_tax (calculate_new_regime_tax x)
   = int_add 15000 (int_mul (x - 600000) lit_0_1)) /\
  (900000 < x <= 1200000 ->
   option_map base_tax (calculate_new_regime_tax x)
   = int_add 45000 (int_mul (x - 900000) lit_0_15)) /\
  (1200000 < x <= 1500000 ->
   option_map base_tax (calculate_new_regime_tax x)
   = int_add 90000 (int_mul (x - 1200000) lit_0_2)) /\
  (1500000 < x ->
   option_map base_tax (calculate_new_regime_tax x)
   = int_add 150000 (int_mul (x - 1500000) lit_0_3)).
Proof.
  unfold calculate_new_regime_tax. rewrite base_tax_of_breakdown.
  repeat split; intros H; pick_slabs; reflexivity.
Qed.

Lemma negative_income_as_zero_float (x : Z) :
  x < 0 ->
  calculate_old_regime_tax x = calculate_old_regime_tax (Z.max 0 x) /\
  calculate_new_regime_tax x = calculate_new_regime_tax (Z.max 0 x) /\
  calculate_old_regime_tax x
  = Some {| base_tax := S754_zero false; cess := S754_zero false;
            total_tax := S754_zero false |} /\
  calculate_new_regime_tax x
  = Some {| base_tax := S754_zero false; cess := S754_zero false;
            total_tax := S754_zero false |}.
Proof.
  intros H. rewrite Z.max_l by lia.
  destruct (zero_band_float x) as [Ho Hn].
  rewrite Ho, Hn by lia. repeat split; reflexivity.
Qed.

(** ** The comparison on finite non-negative totals *)

Lemma fsub_nonneg (a b : spec_float) :
  finite_nonneg a -> finite_nonneg b -> ord b <= ord a ->
  good (fsub a b) /\ (ord a = ord b -> fsub a b = S754_zero false).
Proof.
  destruct a as [[] | [] | | [] ma ea]; cbn [finite_nonneg]; try tauto;
    destruct b as [[] | [] | | [] mb eb]; cbn [finite_nonneg]; try tauto;
    intros Ha Hb Hle;
    try solve [split; [exact I | reflexivity]];
    try solve [pose proof (ord_finite_lt_top _ _ Hb); cbn [ord] in *; lia];
    try solve [pose proof (ord_finite_lt_top _ _ Ha); split; [exact Ha |];
               cbn [ord] in *; lia].
  - unfold fsub. cbn [SFsub cond_Zopp].
    pose proof (good_finite_bounds ma ea Ha) as (Hea & _).
    pose proof (good_finite_bounds mb eb Hb) as (Heb & _). unfold emin in *.
    pose proof (shl_align_spec ma ea (Z.min ea eb)) as Aa.
    pose proof (shl_align_spec mb eb (Z.min ea eb)) as Ab.
    destruct (shl_align ma ea (Z.min ea eb)) as [ma' ea'].
    destruct (shl_align mb eb (Z.min ea eb)) as [mb' eb'].
    destruct Aa as [Ea Ma], Ab as [Eb Mb]. cbn [fst].
    set (ez := Z.min ea eb) in *.
    replace ea' with ez in Ma by lia. replace eb' with ez in Mb by lia.
    pose proof (pow2_pos (ez + 1074) ltac:(unfold ez; lia)) as Hp.
    assert (Va : ord (S754_finite false ma ea) = Zpos ma' * 2 ^ (ez + 1074)).
    { cbn [ord]. rewrite Ma, <- Z.mul_assoc, <- Z.pow_add_r by (unfold ez; lia).
      f_equal. f_equal. lia. }
    assert (Vb : ord (S754_finite false mb eb) = Zpos mb' * 2 ^ (ez + 1074)).
    { cbn [ord]. rewrite Mb, <- Z.mul_assoc, <- Z.pow_add_r by (unfold ez; lia).
      f_equal. f_equal. lia. }
    rewrite Va, Vb in *.
    assert (Hm : Zpos mb' <= Zpos ma') by nia.
    destruct (Zpos ma' - Zpos mb') as [| d | d] eqn:Ed; [| | lia].
    + split; [exact I | reflexivity].
    + split; [apply (round_dyadic_good d ez) |]. intros He.
      apply Z.mul_cancel_r in He; lia.
Qed.

Lemma better_regime_verdict_float (old_tax new_tax : TaxBreakdown) :
  finite_nonneg (total_tax old_tax) -> finite_nonneg (total_tax new_tax) ->
  (SFltb (total_tax old_tax) (total_tax new_tax) = true ->
   get_better_regime old_tax new_tax
   = {| regime := "Old Regime";
        savings := fsub (total_tax new_tax) (total_tax old_tax) |}) /\
  (SFltb (total_tax old_tax) (total_tax new_tax) = false ->
   get_better_regime old_tax new_tax
   = {| regime := "New Regime";
        savings := fsub (total_tax old_tax) (total_tax new_tax) |}) /\
  (total_tax old_tax = total_tax new_tax ->
   get_better_regime old_tax new_tax
   = {| regime := "New Regime"; savings := S754_zero false |}) /\
  SFleb (S754_zero false) (savings (get_better_regime old_tax new_tax)) = true.
Proof.
  intros Fo Fn. unfold get_better_regime.
  pose proof (finite_nonneg_good _ Fo) as Go.
  pose proof (finite_nonneg_good _ Fn) as Gn.
  rewrite SFltb_ord by assumption.
  destruct (Z.ltb_spec (ord (total_tax old_tax)) (ord (total_tax new_tax))) as [L | L].
  - destruct (fsub_nonneg _ _ Fn Fo ltac:(lia)) as [G _].
    repeat split; try reflexivity; try discriminate.
    + intros E. rewrite E in L. lia.
    + cbn [savings]. rewrite SFleb_ord by (exact I || assumption).
      pose proof (good_ord_nonneg _ G). apply Z.leb_le. cbn [ord]. lia.
  - destruct (fsub_nonneg _ _ Fo Fn L) as [G Z0].
    repeat split; try reflexivity; try discriminate.
    + intros E. f_equal. apply Z0. now rewrite E.
    + cbn [savings]. rewrite SFleb_ord by (exact I || assumption).
      pose proof (good_ord_nonneg _ G). apply Z.leb_le. cbn [ord]. lia.
Qed.

(** The totals the calculators return are of that kind up to the largest
    integer that converts exactly. *)
Lemma totals_finite (x : Z) (b : TaxBreakdown) :
  x < 2 ^ 53 ->
  calculate_old_regime_tax x = Some b \/ calculate_new_regime_tax x = Some b ->
  good (total_tax b).
Proof.
  intros Hx [H | H].
  - now destruct (breakdown_of_mono _ _ b b (old_regime_slab_float_mono x x ltac:(lia)) H H).
  - now destruct (breakdown_of_mono _ _ b b (new_regime_slab_float_mono x x ltac:(lia)) H H).
Qed.

End Binary64Facts.

(** * The claims about amounts, in both readings *)

(** ** The slab tables *)

(** C1.  The old-regime calculator follows the four-tier table, each upper
    bound included in its tier: base tax is 0 up to 250,000, 5% of the
    excess over 250,000 up to 500,000, 12,500 plus 20% of the excess over
    500,000 up to 1,000,000, and 112,500 plus 30% of the excess over
    1,000,000 beyond; up to 250,000 base tax, cess and total tax are all 0.
    In binary64 the percentages are the products with the literals. *)
Theorem old_regime_table :
  (forall x : Q,
     (x <= 250000 ->
        base_tax (calculate_old_regime_tax x) == 0 /\
        cess (calculate_old_regime_tax x) == 0 /\
        total_tax (calculate_old_regime_tax x) == 0) /\
     (250000 < x <= 500000 ->
        base_tax (calculate_old_regime_tax x) == (5 # 100) * (x - 250000)) /\
     (500000 < x <= 1000000 ->
        base_tax (calculate_old_regime_tax x)
          == 12500 + (20 # 100) * (x - 500000)) /\
     (1000000 < x ->
        base_tax (calculate_old_regime_tax x)
          == 112500 + (30 # 100) * (x - 1000000))) /\
  (forall x : Z,
     (x <= 250000 ->
        Binary64.calculate_old_regime_tax x
        = Some {| Binary64.base_tax := S754_zero false;
                  Binary64.cess := S754_zero false;
                  Binary64.total_tax := S754_zero false |}) /\
     (250000 < x <= 500000 ->
        option_map Binary64.base_tax (Binary64.calculate_old_regime_tax x)
        = Binary64.int_mul (x - 250000) Binary64.lit_0_05) /\
     (500000 < x <= 1000000 ->
        option_map Binary64.base_tax (Binary64.calculate_old_regime_tax x)
        = Binary64.int_add 12500 (Binary64.int_mul (x - 500000) Binary64.lit_0_2)) /\
     (1000000 < x ->
        option_map Binary64.base_tax (Binary64.calculate_old_regime_tax x)
        = Binary64.int_add 112500
            (Binary64.int_mul (x - 1000000) Binary64.lit_0_3)))%Z.
Proof.
  split; [exact old_regime_exact_table |]. intros x.
  destruct (Binary64Facts.old_regime_table_float x) as (_ & H2 & H3 & H4).
  destruct (Binary64Facts.zero_band_float x) as [H1 _].
  repeat split; assumption.
Qed.

Lemma old_regime_table_witness :
  ((base_tax (calculate_old_regime_tax 250000) == 0 /\
    cess (calculate_old_regime_tax 250000) == 0 /\
    total_tax (calculate_old_regime_tax 250000) == 0) /\
   base_tax (calculate_old_regime_tax 500000) == (5 # 100) * (500000 - 250000) /\
   base_tax (calculate_old_regime_tax 1000000)
     == 12500 + (20 # 100) * (1000000 - 500000) /\
   base_tax (calculate_old_regime_tax 1000001)
     == 112500 + (30 # 100) * (1000001 - 1000000)) /\
  (Binary64.calculate_old_regime_tax 250000
   = Some {| Binary64.base_tax := S754_zero false;
             Binary64.cess := S754_zero false;
             Binary64.total_tax := S754_zero false |} /\
   option_map Binary64.base_tax (Binary64.calculate_old_regime_tax 500000)
   = Binary64.int_mul (500000 - 250000) Binary64.lit_0_05 /\
   option_map Binary64.base_tax (Binary64.calculate_old_regime_tax 1000000)
   = Binary64.int_add 12500 (Binary64.int_mul (1000000 - 500000) Binary64.lit_0_2) /\
   option_map Binary64.base_tax (Binary64.calculate_old_regime_tax 1000001)
   = Binary64.int_add 112500
       (Binary64.int_mul (1000001 - 1000000) Binary64.lit_0_3))%Z.
Proof.
  destruct old_regime_table as [Hq Hf].
  split; [split; [| split; [| split]] | split; [| split; [| split]]].
  - apply (proj1 (Hq 250000)). lra.
  - apply (proj1 (proj2 (Hq 500000))). lra.
  - apply (proj1 (proj2 (proj2 (Hq 1000000)))). lra.
  - apply (proj2 (proj2 (proj2 (Hq 1000001)))). lra.
  - apply (proj1 (Hf 250000%Z)). lia.
  - apply (proj1 (proj2 (Hf 500000%Z))). lia.
  - apply (proj1 (proj2 (proj2 (Hf 1000000%Z)))). lia.
  - apply (proj2 (proj2 (proj2 (Hf 1000001%Z)))). lia.
Defined.

(** C2.  The new-regime calculator follows the six-tier table, each upper
    bound included in its tier: base tax is 0 up to 300,000, 5% of the excess
    over 300,000 up to 600,000, 15,000 plus 10% of the excess over 600,000
    up to 900,000, 45,000 plus 15% of the excess over 900,000 up to
    1,200,000, 90,000 plus 20% of the excess over 1,200,000 up to 1,500,000,
    and 150,000 plus 30% of the excess over 1,500,000 beyond; up to 300,000
    base tax, cess and total tax are all 0.  In binary64 the percentages are
    the products with the literals. *)
Theorem new_regime_table :
  (forall x : Q,
     (x <= 300000 ->
        base_tax (calculate_new_regime_tax x) == 0 /\
        cess (calculate_new_regime_tax x) == 0 /\
        total_tax (calculate_new_regime_tax x) == 0) /\
     (300000 < x <= 600000 ->
        base_tax (calculate_new_regime_tax x) == (5 # 100) * (x - 300000)) /\
     (600000 < x <= 900000 ->
        base_tax (calculate_new_regime_tax x)
          == 15000 + (10 # 100) * (x - 600000)) /\
     (900000 < x <= 1200000 ->
        base_tax (calculate_new_regime_tax x)
          == 45000 + (15 # 100) * (x - 900000)) /\
     (1200000 < x <= 1500000 ->
        base_tax (calculate_new_regime_tax x)
          == 90000 + (20 # 100) * (x - 1200000)) /\
     (1500000 < x ->
        base_tax (calculate_new_regime_tax x)
          == 150000 + (30 # 100) * (x - 1500000))) /\
  (forall x : Z,
     (x <= 300000 ->
        Binary64.calculate_new_regime_tax x
        = Some {| Binary64.base_tax := S754_zero false;
                  Binary64.cess := S754_zero false;
                  Binary64.total_tax := S754_zero false |}) /\
     (300000 < x <= 600000 ->
        option_map Binary64.base_tax (Binary64.calculate_new_regime_tax x)
        = Binary64.int_mul (x - 300000) Binary64.lit_0_05) /\
     (600000 < x <= 900000 ->
        option_map Binary64.base_tax (Binary64.calculate_new_regime_tax x)
        = Binary64.int_add 15000 (Binary64.int_mul (x - 600000) Binary64.lit_0_1)) /\
     (900000 < x <= 1200000 ->
        option_map Binary64.base_tax (Binary64.calculate_new_regime_tax x)
        = Binary64.int_add 45000 (Binary64.int_mul (x - 900000) Binary64.lit_0_15)) /\
     (1200000 < x <= 1500000 ->
        option_map Binary64.base_tax (Binary64.calculate_new_regime_tax x)
        = Binary64.int_add 90000 (Binary64.int_mul (x - 1200000) Binary64.lit_0_2)) /\
     (1500000 < x ->
        option_map Binary64.base_tax (Binary64.calculate_new_regime_tax x)
        = Binary64.int_add 150000
            (Binary64.int_mul (x - 1500000) Binary64.lit_0_3)))%Z.
Proof.
  split; [exact new_regime_exact_table |]. intros x.
  destruct (Binary64Facts.new_regime_table_float x) as (_ & H2 & H3 & H4 & H5 & H6).
  destruct (Binary64Facts.zero_band_float x) as [_ H1].
  repeat split; assumption.
Qed.

Lemma new_regime_table_witness :
  ((base_tax (calculate_new_regime_tax 300000) == 0 /\
    cess (calculate_new_regime_tax 300000) == 0 /\
    total_tax (calculate_new_regime_tax 300000) == 0) /\
   base_tax (calculate_new_regime_tax 600000) == (5 # 100) * (600000 - 300000) /\
   base_tax (calculate_new_regime_tax 900000)
     == 15000 + (10 # 100) * (900000 - 600000) /\
   base_tax (calculate_new_regime_tax 1200000)
     == 45000 + (15 # 100) * (1200000 - 900000) /\
   base_tax (calculate_new_regime_tax 1500000)
     == 90000 + (20 # 100) * (1500000 - 1200000) /\
   base_tax (calculate_new_regime_tax 2000000)
     == 150000 + (30 # 100) * (2000000 - 1500000)) /\
  (Binary64.calculate_new_regime_tax 300000
   = Some {| Binary64.base_tax := S754_zero false;
             Binary64.cess := S754_zero false;
             Binary64.total_tax := S754_zero false |} /\
   option_map Binary64.base_tax (Binary64.calculate_new_regime_tax 600000)
   = Binary64.int_mul (600000 - 300000) Binary64.lit_0_05 /\
   option_map Binary64.base_tax (Binary64.calculate_new_regime_tax 900000)
   = Binary64.int_add 15000 (Binary64.int_mul (900000 - 600000) Binary64.lit_0_1) /\
   option_map Binary64.base_tax (Binary64.calculate_new_regime_tax 1200000)
   = Binary64.int_add 45000 (Binary64.int_mul (1200000 - 900000) Binary64.lit_0_15) /\
   option_map Binary64.base_tax (Binary64.calculate_new_regime_tax 1500000)
   = Binary64.int_add 90000 (Binary64.int_mul (1500000 - 1200000) Binary64.lit_0_2) /\
   option_map Binary64.base_tax (Binary64.calculate_new_regime_tax 2000000)
   = Binary64.int_add 150000
       (Binary64.int_mul (2000000 - 1500000) Binary64.lit_0_3))%Z.
Proof.
  destruct new_regime_table as [Hq Hf].
  split; [split; [| split; [| split; [| split; [| split]]]]
         | split; [| split; [| split; [| split; [| split]]]]].
  - apply (proj1 (Hq 300000)). lra.
  - apply (proj1 (proj2 (Hq 600000))). lra.
  - apply (proj1 (proj2 (proj2 (Hq 900000)))). lra.
  - apply (proj1 (proj2 (proj2 (proj2 (Hq 1200000))))). lra.
  - apply (proj1 (proj2 (proj2 (proj2 (proj2 (Hq 1500000)))))). lra.
  - apply (proj2 (proj2 (proj2 (proj2 (proj2 (Hq 2000000)))))). lra.
  - apply (proj1 (Hf 300000%Z)). lia.
  - apply (proj1 (proj2 (Hf 600000%Z))). lia.
  - apply (proj1 (proj2 (proj2 (Hf 900000%Z)))). lia.
  - apply (proj1 (proj2 (proj2 (proj2 (Hf 1200000%Z))))). lia.
  - apply (proj1 (proj2 (proj2 (proj2 (proj2 (Hf 1500000%Z)))))). lia.
  - apply (proj2 (proj2 (proj2 (proj2 (proj2 (Hf 2000000%Z)))))). lia.
Defined.

(** ** Cess and total *)

(** C3.  Whatever the input, both calculators return a breakdown whose cess
    is the base tax times 0.04 and whose total is the base tax plus the
    cess, with no rounding step of their own in between.  In binary64 the
    product and the sum are the float operations, and the calculators
    return for every integer up to [2^1023]. *)
Theorem cess_and_total_exact :
  (forall x : Q,
     (cess (calculate_old_regime_tax x)
        = base_tax (calculate_old_regime_tax x) * 0.04 /\
      total_tax (calculate_old_regime_tax x)
        = base_tax (calculate_old_regime_tax x) + cess (calculate_old_regime_tax x)) /\
     (cess (calculate_new_regime_tax x)
        = base_tax (calculate_new_regime_tax x) * 0.04 /\
      total_tax (calculate_new_regime_tax x)
        = base_tax (calculate_new_regime_tax x) + cess (calculate_new_regime_tax x))) /\
  (forall (x : Z) (b : Binary64.TaxBreakdown),
     Binary64.calculate_old_regime_tax x = Some b \/
     Binary64.calculate_new_regime_tax x = Some b ->
     Binary64.cess b = Binary64.fmul (Binary64.base_tax b) Binary64.lit_0_04 /\
     Binary64.total_tax b = Binary64.fadd (Binary64.base_tax b) (Binary64.cess b)) /\
  (forall x : Z, (x <= 2 ^ 1023)%Z ->
     (exists b, Binary64.calculate_old_regime_tax x = Some b) /\
     (exists b, Binary64.calculate_new_regime_tax x = Some b)).
Proof.
  split; [exact cess_and_total_exact_arith |]. split.
  - intros x b [H | H]; now apply Binary64Facts.breakdown_shape in H.
  - exact Binary64Facts.calculators_return.
Qed.

Lemma cess_and_total_exact_witness :
  (exists b,
     Binary64.calculate_old_regime_tax 600000 = Some b /\
     Binary64.cess b = Binary64.fmul (Binary64.base_tax b) Binary64.lit_0_04 /\
     Binary64.total_tax b = Binary64.fadd (Binary64.base_tax b) (Binary64.cess b)) /\
  (exists b, Binary64.calculate_new_regime_tax 600000 = Some b).
Proof.
  destruct cess_and_total_exact as (_ & Hs & Hr).
  split.
  - eexists. split; [vm_compute; reflexivity |].
    apply (Hs 600000%Z). left. vm_compute. reflexivity.
  - apply (Hr 600000%Z). vm_compute. discriminate.
Defined.

(** ** Negative incomes *)

(** C4.  A negative income is taxed as income 0 would be: each calculator
    returns the breakdown it returns for the income clamped at 0, that is
    for 0, and that breakdown is 0 throughout. *)
Theorem negative_income_as_zero :
  (forall x : Q, x < 0 ->
     (calculate_old_regime_tax x = calculate_old_regime_tax (Qmax 0 x) /\
      calculate_old_regime_tax x = calculate_old_regime_tax 0 /\
      base_tax (calculate_old_regime_tax x) == 0 /\
      cess (calculate_old_regime_tax x) == 0 /\
      total_tax (calculate_old_regime_tax x) == 0) /\
     (calculate_new_regime_tax x = calculate_new_regime_tax (Qmax 0 x) /\
      calculate_new_regime_tax x = calculate_new_regime_tax 0 /\
      base_tax (calculate_new_regime_tax x) == 0 /\
      cess (calculate_new_regime_tax x) == 0 /\
      total_tax (calculate_new_regime_tax x) == 0)) /\
  (forall x : Z, (x < 0)%Z ->
     Binary64.calculate_old_regime_tax x
       = Binary64.calculate_old_regime_tax (Z.max 0 x) /\
     Binary64.calculate_new_regime_tax x
       = Binary64.calculate_new_regime_tax (Z.max 0 x) /\
     Binary64.calculate_old_regime_tax x
       = Some {| Binary64.base_tax := S754_zero false;
                 Binary64.cess := S754_zero false;
                 Binary64.total_tax := S754_zero false |} /\
     Binary64.calculate_new_regime_tax x
       = Some {| Binary64.base_tax := S754_zero false;
                 Binary64.cess := S754_zero false;
                 Binary64.total_tax := S754_zero false |}).
Proof.
  split; [exact negative_income_exact_as_zero |].
  exact Binary64Facts.negative_income_as_zero_float.
Qed.

Lemma negative_income_as_zero_witness :
  (calculate_old_regime_tax (-5000) = calculate_old_regime_tax 0 /\
   calculate_new_regime_tax (-5000) = calculate_new_regime_tax 0) /\
  (Binary64.calculate_old_regime_tax (-5000)
     = Binary64.calculate_old_regime_tax (Z.max 0 (-5000)) /\
   Binary64.calculate_new_regime_tax (-5000)
     = Some {| Binary64.base_tax := S754_zero false;
               Binary64.cess := S754_zero false;
               Binary64.total_tax := S754_zero false |}).
Proof.
  destruct negative_income_as_zero as [Hq Hf].
  split.
  - destruct (Hq (-5000) ltac:(reflexivity)) as ((_ & Ho & _) & (_ & Hn & _)).
    split; assumption.
  - destruct (Hf (-5000)%Z ltac:(lia)) as (Ho & _ & _ & Hn). split; assumption.
Defined.

(** ** The comparison *)

(** C5.  [get_better_regime] answers Old Regime, with the new total minus
    the old one as savings, exactly when the old total is strictly below the
    new one; otherwise, a tie included, it answers New Regime with the old
    total minus the new one.  A tie therefore gives New Regime and savings 0,
    and savings are never negative.  In binary64 the totals are finite
    non-negative floats. *)
Theorem better_regime_verdict :
  (forall old_tax new_tax : TaxBreakdown,
     (total_tax old_tax < total_tax new_tax ->
        regime (get_better_regime old_tax new_tax) = "Old Regime"%string /\
        savings (get_better_regime old_tax new_tax)
          = total_tax new_tax - total_tax old_tax) /\
     (total_tax new_tax <= total_tax old_tax ->
        regime (get_better_regime old_tax new_tax) = "New Regime"%string /\
        savings (get_better_regime old_tax new_tax)
          = total_tax old_tax - total_tax new_tax) /\
     (total_tax old_tax == total_tax new_tax ->
        regime (get_better_regime old_tax new_tax) = "New Regime"%string /\
        savings (get_better_regime old_tax new_tax) == 0) /\
     0 <= savings (get_better_regime old_tax new_tax)) /\
  (forall old_tax new_tax : Binary64.TaxBreakdown,
     Rounding.finite_nonneg (Binary64.total_tax old_tax) ->
     Rounding.finite_nonneg (Binary64.total_tax new_tax) ->
     (SFltb (Binary64.total_tax old_tax) (Binary64.total_tax new_tax) = true ->
        Binary64.get_better_regime old_tax new_tax
        = {| Binary64.regime := "Old Regime";
             Binary64.savings :=
               Binary64.fsub (Binary64.total_tax new_tax)
                             (Binary64.total_tax old_tax) |}) /\
     (SFltb (Binary64.total_tax old_tax) (Binary64.total_tax new_tax) = false ->
        Binary64.get_better_regime old_tax new_tax
        = {| Binary64.regime := "New Regime";
             Binary64.savings :=
               Binary64.fsub (Binary64.total_tax old_tax)
                             (Binary64.total_tax new_tax) |}) /\
     (Binary64.total_tax old_tax = Binary64.total_tax new_tax ->
        Binary64.get_better_regime old_tax new_tax
        = {| Binary64.regime := "New Regime";
             Binary64.savings := S754_zero false |}) /\
     SFleb (S754_zero false)
           (Binary64.savings (Binary64.get_better_regime old_tax new_tax)) = true).
Proof.
  split; [exact better_regime_exact_verdict |].
  exact Binary64Facts.better_regime_verdict_float.
Qed.

Lemma better_regime_verdict_witness :
  ((regime (get_better_regime (calculate_old_regime_tax 0)
                              (calculate_new_regime_tax 600000))
      = "Old Regime"%string /\
    savings (get_better_regime (calculate_old_regime_tax 0)
                               (calculate_new_regime_tax 600000))
      = total_tax (calculate_new_regime_tax 600000)
        - total_tax (calculate_old_regime_tax 0)) /\
   (regime (get_better_regime (calculate_old_regime_tax 600000)
                              (calculate_new_regime_tax 600000))
      = "New Regime"%string /\
    savings (get_better_regime (calculate_old_regime_tax 600000)
                               (calculate_new_regime_tax 600000))
      = total_tax (calculate_old_regime_tax 600000)
        - total_tax (calculate_new_regime_tax 600000)) /\
   (regime (get_better_regime (calculate_old_regime_tax 250000)
                              (calculate_new_regime_tax 250000))
      = "New Regime"%string /\
    savings (get_better_regime (calculate_old_regime_tax 250000)
                               (calculate_new_regime_tax 250000)) == 0)) /\
  (let one :=
     {| Binary64.base_tax := S754_finite false 4503599627370496 (-52);
        Binary64.cess := S754_zero false;
        Binary64.total_tax := S754_finite false 4503599627370496 (-52) |} in
   let none :=
     {| Binary64.base_tax := S754_zero false; Binary64.cess := S754_zero false;
        Binary64.total_tax := S754_zero false |} in
   Binary64.regime (Binary64.get_better_regime none one) = "Old Regime"%string /\
   Binary64.regime (Binary64.get_better_regime one none) = "New Regime"%string /\
   Binary64.get_better_regime one one
   = {| Binary64.regime := "New Regime"; Binary64.savings := S754_zero false |}).
Proof.
  destruct better_regime_verdict as [Hq Hf].
  split; [split; [| split] |].
  - apply (proj1 (Hq (calculate_old_regime_tax 0) (calculate_new_regime_tax 600000))).
    reflexivity.
  - apply (proj1 (proj2 (Hq (calculate_old_regime_tax 600000)
                            (calculate_new_regime_tax 600000)))).
    vm_compute. discriminate.
  - apply (proj1 (proj2 (proj2 (Hq (calculate_old_regime_tax 250000)
                                   (calculate_new_regime_tax 250000))))).
    reflexivity.
  - intros one none. split; [| split].
    + rewrite (proj1 (Hf none one I eq_refl) eq_refl). reflexivity.
    + rewrite (proj1 (proj2 (Hf one none eq_refl I)) eq_refl). reflexivity.
    + apply (proj1 (proj2 (proj2 (Hf one one eq_refl eq_refl)))). reflexivity.
Defined.

(** ** Monotonicity *)

(** C6.  Under either regime the total tax never decreases when the income
    increases: in exact arithmetic for all amounts, and in binary64 for all
    integer incomes, where the calculators return for every income up to
    [2^1023]. *)
Theorem total_tax_monotone :
  (forall x y : Q, x <= y ->
     total_tax (calculate_old_regime_tax x) <= total_tax (calculate_old_regime_tax y) /\
     total_tax (calculate_new_regime_tax x) <= total_tax (calculate_new_regime_tax y)) /\
  (forall x y : Z, (x <= y)%Z ->
     (forall bx bY,
        Binary64.calculate_old_regime_tax x = Some bx ->
        Binary64.calculate_old_regime_tax y = Some bY ->
        SFleb (Binary64.total_tax bx) (Binary64.total_tax bY) = true) /\
     (forall bx bY,
        Binary64.calculate_new_regime_tax x = Some bx ->
        Binary64.calculate_new_regime_tax y = Some bY ->
        SFleb (Binary64.total_tax bx) (Binary64.total_tax bY) = true)) /\
  (forall x : Z, (x <= 2 ^ 1023)%Z ->
     (exists b, Binary64.calculate_old_regime_tax x = Some b) /\
     (exists b, Binary64.calculate_new_regime_tax x = Some b)).
Proof.
  split; [exact total_tax_exact_monotone |]. split.
  - exact Binary64Facts.total_tax_float_monotone.
  - exact Binary64Facts.calculators_return.
Qed.

Lemma total_tax_monotone_witness :
  (total_tax (calculate_old_regime_tax 499999)
     <= total_tax (calculate_old_regime_tax 500001) /\
   total_tax (calculate_new_regime_tax 499999)
     <= total_tax (calculate_new_regime_tax 500001)) /\
  (exists bx bY,
     Binary64.calculate_old_regime_tax 499999 = Some bx /\
     Binary64.calculate_old_regime_tax 500001 = Some bY /\
     SFleb (Binary64.total_tax bx) (Binary64.total_tax bY) = true) /\
  (exists bx bY,
     Binary64.calculate_new_regime_tax 499999 = Some bx /\
     Binary64.calculate_new_regime_tax 500001 = Some bY /\
     SFleb (Binary64.total_tax bx) (Binary64.total_tax bY) = true).
Proof.
  destruct total_tax_monotone as (Hq & Hf & _).
  split; [apply (Hq 499999 500001); vm_compute; discriminate |].
  destruct (Hf 499999 500001 ltac:(lia))%Z as [Ho Hn].
  split.
  - eexists _, _. split; [vm_compute; reflexivity |].
    split; [vm_compute; reflexivity |].
    apply Ho; vm_compute; reflexivity.
  - eexists _, _. split; [vm_compute; reflexivity |].
    split; [vm_compute; reflexivity |].
    apply Hn; vm_compute; reflexivity.
Defined.

(** ** Continuity at the slab boundaries *)

(** C7.  At every boundary of either table the formula of the tier below
    and the formula of the tier above give the same tax, which is the tax
    the calculator charges there; the equalities hold in exact arithmetic
    and, bit for bit, in binary64. *)
Theorem slabs_continuous :
  ((old_slab_1 250000 == old_slab_2 250000 /\
    old_slab_2 500000 == old_slab_3 500000 /\
    old_slab_3 1000000 == old_slab_4 1000000) /\
   (new_slab_1 300000 == new_slab_2 300000 /\
    new_slab_2 600000 == new_slab_3 600000 /\
    new_slab_3 900000 == new_slab_4 900000 /\
    new_slab_4 1200000 == new_slab_5 1200000 /\
    new_slab_5 1500000 == new_slab_6 1500000) /\
   (base_tax (calculate_old_regime_tax 250000) == old_slab_2 250000 /\
    base_tax (calculate_old_regime_tax 500000) == old_slab_3 500000 /\
    base_tax (calculate_old_regime_tax 1000000) == old_slab_4 1000000) /\
   (base_tax (calculate_new_regime_tax 300000) == new_slab_2 300000 /\
    base_tax (calculate_new_regime_tax 600000) == new_slab_3 600000 /\
    base_tax (calculate_new_regime_tax 900000) == new_slab_4 900000 /\
    base_tax (calculate_new_regime_tax 1200000) == new_slab_5 1200000 /\
    base_tax (calculate_new_regime_tax 1500000) == new_slab_6 1500000)) /\
  ((Binary64.old_slab_1 250000 = Binary64.old_slab_2 250000 /\
    Binary64.old_slab_2 500000 = Binary64.old_slab_3 500000 /\
    Binary64.old_slab_3 1000000 = Binary64.old_slab_4 1000000) /\
   (Binary64.new_slab_1 300000 = Binary64.new_slab_2 300000 /\
    Binary64.new_slab_2 600000 = Binary64.new_slab_3 600000 /\
    Binary64.new_slab_3 900000 = Binary64.new_slab_4 900000 /\
    Binary64.new_slab_4 1200000 = Binary64.new_slab_5 1200000 /\
    Binary64.new_slab_5 1500000 = Binary64.new_slab_6 1500000))%Z.
Proof.
  split; [exact slabs_exact_continuous | exact Binary64Facts.slabs_continuous_float].
Qed.

(** ** New regime against old regime on the same amount *)

(** In binary64 the claim of C10 fails far out.  At an income of 5 * 10^21
    both calculators return; the floats near the tax are 262,144 apart, so
    adding 112,500 leaves the old-regime product where it is while adding
    150,000 lifts the new-regime product to the next float: the totals are
    5950927734374999 * 2^18 (old) and 5950927734375000 * 2^18 (new).  The
    comparison, also through the handler with all deductions at zero,
    answers Old Regime, with savings 2^18. *)
Lemma new_regime_dearer_in_binary64 :
  option_map Binary64.total_tax (Binary64.calculate_old_regime_tax (5 * 10 ^ 21))
    = Some (S754_finite false 5950927734374999 18) /\
  option_map Binary64.total_tax (Binary64.calculate_new_regime_tax (5 * 10 ^ 21))
    = Some (S754_finite false 5950927734375000 18) /\
  exists old_tax new_tax,
    Binary64.calculate_old_regime_tax (5 * 10 ^ 21) = Some old_tax /\
    Binary64.calculate_new_regime_tax (5 * 10 ^ 21) = Some new_tax /\
    SFleb (Binary64.total_tax new_tax) (Binary64.total_tax old_tax) = false /\
    SFltb (Binary64.total_tax old_tax) (Binary64.total_tax new_tax) = true /\
    Binary64.get_better_regime old_tax new_tax
      = {| Binary64.regime := "Old Regime";
           Binary64.savings := S754_finite false 4503599627370496 (-34) |} /\
    Binary64.calculate_tax (5 * 10 ^ 21) 0 0 0 0 0
      = Some (old_tax, new_tax, Binary64.get_better_regime old_tax new_tax).
Proof.
  split; [vm_compute; reflexivity |]. split; [vm_compute; reflexivity |].
  eexists _, _. split; [vm_compute; reflexivity |].
  split; [vm_compute; reflexivity |]. repeat split; vm_compute; reflexivity.
Qed.

(** C10, amended.  On one and the same non-negative amount the new regime
    never charges more in total than the old one, and [get_better_regime]
    answers New Regime there, also for a taxpayer whose deductions add up
    to zero: in exact arithmetic for every amount, and in binary64 for
    every integer income below [2^53]. *)
Theorem new_regime_never_dearer :
  ((forall x : Q, 0 <= x ->
      total_tax (calculate_new_regime_tax x) <= total_tax (calculate_old_regime_tax x) /\
      regime (get_better_regime (calculate_old_regime_tax x)
                                (calculate_new_regime_tax x))
        = "New Regime"%string) /\
   (forall income investments health_insurance home_loan edu_loan hra : Z,
      (0 <= income)%Z ->
      (investments + health_insurance + home_loan + edu_loan + hra = 0)%Z ->
      regime (Main.better_regime
                (Main.calculate_tax income investments health_insurance
                                    home_loan edu_loan hra))
        = "New Regime"%string)) /\
  ((forall x : Z, (0 <= x < 2 ^ 53)%Z ->
      exists old_tax new_tax,
        Binary64.calculate_old_regime_tax x = Some old_tax /\
        Binary64.calculate_new_regime_tax x = Some new_tax /\
        SFleb (Binary64.total_tax new_tax) (Binary64.total_tax old_tax) = true /\
        Binary64.regime (Binary64.get_better_regime old_tax new_tax)
          = "New Regime"%string) /\
   (forall income investments health_insurance home_loan edu_loan hra : Z,
      (0 <= income < 2 ^ 53)%Z ->
      (investments + health_insurance + home_loan + edu_loan + hra = 0)%Z ->
      exists old_tax new_tax verdict,
        Binary64.calculate_tax income investments health_insurance home_loan
                               edu_loan hra
          = Some (old_tax, new_tax, verdict) /\
        Binary64.regime verdict = "New Regime"%string)).
Proof.
  split; [exact new_regime_exact_never_dearer |]. split.
  - intros x Hx. apply Binary64Facts.new_regime_never_dearer_float. lia.
  - exact Binary64Facts.zero_deductions_new_regime_float.
Qed.

Lemma new_regime_never_dearer_witness :
  ((total_tax (calculate_new_regime_tax 600000)
      <= total_tax (calculate_old_regime_tax 600000) /\
    regime (get_better_regime (calculate_old_regime_tax 600000)
                              (calculate_new_regime_tax 600000))
      = "New Regime"%string) /\
   regime (Main.better_regime (Main.calculate_tax 600000 0 0 0 0 0))
     = "New Regime"%string) /\
  ((exists old_tax new_tax,
      Binary64.calculate_old_regime_tax 600000 = Some old_tax /\
      Binary64.calculate_new_regime_tax 600000 = Some new_tax /\
      SFleb (Binary64.total_tax new_tax) (Binary64.total_tax old_tax) = true /\
      Binary64.regime (Binary64.get_better_regime old_tax new_tax)
        = "New Regime"%string) /\
   (exists old_tax new_tax verdict,
      Binary64.calculate_tax 600000 0 0 0 0 0 = Some (old_tax, new_tax, verdict) /\
      Binary64.regime verdict = "New Regime"%string)).
Proof.
  destruct new_regime_never_dearer as ((Hq1 & Hq2) & Hf1 & Hf2).
  split; [split | split].
  - apply (Hq1 600000). vm_compute. discriminate.
  - apply (Hq2 600000 0 0 0 0 0)%Z; [lia | reflexivity].
  - apply (Hf1 600000%Z). split; [lia | reflexivity].
  - apply (Hf2 600000 0 0 0 0 0)%Z; [split; [lia | reflexivity] | reflexivity].
Defined.

(** * Further properties

    What the code shows beyond the claims above: the number format of the
    tips and of the report, the conditions of the tips, the edges of the
    calculators in binary64 (where conversion overflows, that every amount
    returned is finite), what deductions do in the handler, how far the
    amounts computed in binary64 are from the exact ones, the shape of the
    predictor's answers and of its training table, that both schedules are
    progressive, and that the texts handed to the report are ASCII. *)

Import Qabs Qpower.
Import Reading.

(** ** The format [:,] *)

Lemma group_thousands_cases (P : list ascii -> list ascii -> Prop) :
  (forall l, (List.length l <= 3)%nat -> P l l) ->
  (forall a b c d rest,
     P (d :: rest) (group_thousands (d :: rest)) ->
     P (a :: b :: c :: d :: rest)
       (a :: b :: c :: ","%char :: group_thousands (d :: rest))) ->
  forall l, P l (group_thousands l).
Proof.
  intros Hshort Hstep l.
  assert (H : forall n l, (List.length l <= n)%nat -> P l (group_thousands l)).
  { clear l. induction n as [| n IH]; intros l Hl.
    - destruct l; [apply (Hshort []); simpl; lia | simpl in Hl; lia].
    - destruct l as [| a [| b [| c [| d rest]]]];
        try (apply Hshort; simpl; lia).
      cbn [group_thousands]. apply Hstep. apply IH. simpl in *. lia. }
  apply (H (List.length l)). lia.
Qed.

Lemma filter_group_thousands (l : list ascii) :
  forallb not_comma l = true ->
  filter not_comma (group_thousands l) = l.
Proof.
  apply (group_thousands_cases
    (fun l g => forallb not_comma l = true -> filter not_comma g = l)).
  - intros l0 _ H. clear l. induction l0 as [| a l0 IH]; [reflexivity |].
    cbn [forallb filter] in *. apply andb_true_iff in H as [Ha Hl].
    rewrite Ha. f_equal. auto.
  - intros a b c d rest IH H.
    cbn [forallb] in H.
    apply andb_true_iff in H as [Ha H]. apply andb_true_iff in H as [Hb H].
    apply andb_true_iff in H as [Hc H].
    cbn [filter]. rewrite Ha, Hb, Hc.
    change (not_comma ","%char) with false. cbv iota.
    rewrite IH by exact H. reflexivity.
Qed.

Lemma uint_digits_string (d : Decimal.uint) :
  string_of_list_ascii (uint_digits d) = DecimalString.NilEmpty.string_of_uint d.
Proof. induction d; cbn; congruence. Qed.

Lemma uint_digits_no_comma (d : Decimal.uint) :
  forallb not_comma (uint_digits d) = true.
Proof. induction d; cbn; auto. Qed.

Lemma remove_commas_filter (l : list ascii) :
  Reading.remove_commas (string_of_list_ascii l)
  = string_of_list_ascii (filter not_comma l).
Proof.
  induction l as [| c l IH]; [reflexivity |].
  cbn [string_of_list_ascii Reading.remove_commas filter]. unfold not_comma at 1.
  destruct (c =? ",")%char; cbn [negb]; [exact IH |].
  cbn [string_of_list_ascii]. now rewrite IH.
Qed.

Lemma forallb_rev {A} (f : A -> bool) (l : list A) :
  forallb f (rev l) = forallb f l.
Proof.
  induction l as [| a l IH]; [reflexivity |].
  cbn [rev forallb]. rewrite forallb_app, IH. cbn. rewrite andb_true_r.
  apply andb_comm.
Qed.

Lemma filter_rev' {A} (f : A -> bool) (l : list A) :
  filter f (rev l) = rev (filter f l).
Proof.
  induction l as [| a l IH]; [reflexivity |].
  cbn [rev filter]. rewrite filter_app, IH. cbn [filter].
  destruct (f a); cbn [rev]; [reflexivity | now rewrite app_nil_r].
Qed.

Lemma to_uint_nonnil (p : positive) : Pos.to_uint p <> Decimal.Nil.
Proof. apply DecimalPos.Unsigned.to_uint_nonnil. Qed.

Lemma nonnil_string (d : Decimal.uint) :
  d <> Decimal.Nil -> DecimalString.NilZero.string_of_uint d = DecimalString.NilEmpty.string_of_uint d.
Proof. destruct d; [congruence | reflexivity ..]. Qed.

(** Without its commas, the formatted number is the plain decimal numeral. *)
Lemma remove_commas_format_thousands (n : Z) :
  Reading.remove_commas (format_thousands n) = Reading.str n.
Proof.
  unfold format_thousands, Reading.str.
  set (ds := uint_digits (N.to_uint (Z.abs_N n))).
  assert (Hd : filter not_comma (rev (group_thousands (rev ds))) = ds).
  { rewrite filter_rev', filter_group_thousands, rev_involutive; [reflexivity |].
    rewrite forallb_rev. apply uint_digits_no_comma. }
  destruct n as [| p | p]; cbn [Z.ltb Z.compare Z.to_int DecimalString.NilZero.string_of_int].
  - reflexivity.
  - rewrite remove_commas_filter, Hd. unfold ds. cbn [Z.abs_N Z.abs N.to_uint Z.to_N].
    rewrite uint_digits_string. symmetry. apply nonnil_string, to_uint_nonnil.
  - rewrite remove_commas_filter. cbn [filter]. change (not_comma "-"%char) with true.
    cbv iota. rewrite Hd. unfold ds. cbn [Z.abs_N Z.abs N.to_uint Z.to_N string_of_list_ascii].
    rewrite uint_digits_string. f_equal. symmetry. apply nonnil_string, to_uint_nonnil.
Qed.

Lemma int_of_string_str (n : Z) : Reading.int_of_string (Reading.str n) = Some n.
Proof.
  unfold Reading.int_of_string, Reading.str.
  rewrite DecimalString.NilZero.isi.
  - cbn [option_map]. now rewrite DecimalZ.of_to.
  - destruct n; cbn; try discriminate; intros [= E]; now apply to_uint_nonnil in E.
  - destruct n; cbn; try discriminate; intros [= E]; now apply to_uint_nonnil in E.
Qed.

Lemma format_thousands_inj (a b : Z) :
  format_thousands a = format_thousands b -> a = b.
Proof.
  intros H. apply (f_equal Reading.remove_commas) in H.
  rewrite !remove_commas_format_thousands in H.
  apply (f_equal Reading.int_of_string) in H.
  rewrite !int_of_string_str in H. congruence.
Qed.

(** X1.  The format [:,] loses nothing: with the commas removed, the text
    reads back as the integer that was formatted, whatever its sign. *)
Theorem format_thousands_round_trip (n : Z) :
  Reading.int_of_string (Reading.remove_commas (format_thousands n)) = Some n.
Proof. rewrite remove_commas_format_thousands. apply int_of_string_str. Qed.

Lemma rev_concat {A} (L : list (list A)) :
  rev (List.concat L) = List.concat (map (@rev A) (rev L)).
Proof.
  induction L as [| g L IH]; [reflexivity |].
  cbn [List.concat rev]. rewrite rev_app_distr, IH, map_app, concat_app.
  cbn [map List.concat]. now rewrite app_nil_r.
Qed.

Lemma group_thousands_structure (l : list ascii) :
  l <> [] ->
  exists (gs : list (list ascii)) (last : list ascii),
    group_thousands l = List.concat (map (fun g => g ++ [","%char]) gs) ++ last /\
    l = List.concat gs ++ last /\
    Forall (fun g => List.length g = 3%nat) gs /\
    (1 <= List.length last <= 3)%nat.
Proof.
  apply (group_thousands_cases (fun l g => l <> [] ->
    exists (gs : list (list ascii)) (last : list ascii),
      g = List.concat (map (fun g => g ++ [","%char]) gs) ++ last /\
      l = List.concat gs ++ last /\
      Forall (fun g => List.length g = 3%nat) gs /\
      (1 <= List.length last <= 3)%nat)).
  - intros l0 Hl Hn. exists [], l0. repeat split; auto.
    destruct l0; [congruence | simpl; lia].
  - intros a b c d rest IH _.
    destruct IH as (gs & last & Eg & El & Hgs & Hlast); [discriminate |].
    exists ([a; b; c] :: gs), last. rewrite Eg. repeat split; try lia.
    + cbn [List.concat app]. now rewrite El.
    + constructor; [reflexivity | assumption].
Qed.

(** X2.  A non-negative integer is printed as a first group of one to three
    digits followed by groups of a comma and exactly three digits; without
    the commas the groups spell the decimal numeral of the integer.  (So
    150,000 is printed in thousands, not in the lakh grouping 1,50,000 of
    the fixed texts.) *)
Theorem format_thousands_grouping (n : Z) :
  (0 <= n)%Z ->
  exists (first : list ascii) (rest : list (list ascii)),
    list_ascii_of_string (format_thousands n)
      = first ++ List.concat (map (cons ","%char) rest) /\
    (1 <= List.length first <= 3)%nat /\
    Forall (fun g => List.length g = 3%nat) rest /\
    string_of_list_ascii (first ++ List.concat rest) = Reading.str n.
Proof.
  intros Hn. unfold format_thousands.
  destruct (Z.ltb_spec n 0) as [L | _]; [lia |].
  rewrite list_ascii_of_string_of_list_ascii.
  set (ds := uint_digits (N.to_uint (Z.abs_N n))).
  assert (Hs : string_of_list_ascii ds = Reading.str n).
  { unfold ds, Reading.str. rewrite uint_digits_string.
    destruct n as [| p | p]; [reflexivity | | lia].
    cbn. symmetry. apply nonnil_string, to_uint_nonnil. }
  assert (Hne : rev ds <> []).
  { intros E. apply (f_equal (@rev ascii)) in E. rewrite rev_involutive in E.
    cbn in E. rewrite E in Hs. destruct n as [| p | p]; [discriminate | | lia].
    unfold Reading.str in Hs. cbn in Hs.
    pose proof (to_uint_nonnil p). destruct (Pos.to_uint p); [congruence | discriminate ..]. }
  destruct (group_thousands_structure (rev ds) Hne) as (gs & last & Eg & El & Hgs & Hlast).
  exists (rev last), (map (@rev ascii) (rev gs)). repeat split.
  - rewrite Eg, rev_app_distr, rev_concat. f_equal.
    rewrite <- map_rev, !map_map. f_equal.
    apply map_ext. intros g. now rewrite rev_app_distr.
  - rewrite length_rev. lia.
  - rewrite length_rev. lia.
  - apply Forall_map, Forall_rev. revert Hgs. apply Forall_impl.
    intros g. now rewrite length_rev.
  - rewrite <- rev_concat, <- rev_app_distr, <- El, rev_involutive. exact Hs.
Qed.

Lemma format_thousands_grouping_witness :
  exists (first : list ascii) (rest : list (list ascii)),
    list_ascii_of_string (format_thousands 1234567)
      = first ++ List.concat (map (cons ","%char) rest) /\
    (1 <= List.length first <= 3)%nat /\
    Forall (fun g => List.length g = 3%nat) rest /\
    string_of_list_ascii (first ++ List.concat rest) = Reading.str 1234567.
Proof. apply (format_thousands_grouping 1234567). lia. Defined.

(** ** The tips *)

Section Tips.

Local Open Scope Z_scope.

Lemma string_length_append (s t : string) :
  String.length (s ++ t) = (String.length s + String.length t)%nat.
Proof. induction s as [| c s IH]; cbn; [reflexivity | now rewrite IH]. Qed.

Lemma string_app_inv_tail (s1 s2 t : string) :
  (s1 ++ t = s2 ++ t)%string -> s1 = s2.
Proof.
  revert s2. induction s1 as [| c s1 IH]; intros [| d s2] H.
  - reflexivity.
  - apply (f_equal String.length) in H. cbn in H.
    rewrite string_length_append in H. lia.
  - apply (f_equal String.length) in H. cbn in H.
    rewrite string_length_append in H. lia.
  - cbn in H. injection H as -> H. f_equal. now apply IH.
Qed.

Lemma tip_80c_inj (r r' : Z) : tip_80c r = tip_80c r' -> r = r'.
Proof.
  unfold tip_80c. intros H. cbn in H. injection H as H.
  apply string_app_inv_tail in H. now apply format_thousands_inj.
Qed.

Lemma tip_home_loan_inj (h h' : Z) : tip_home_loan h = tip_home_loan h' -> h = h'.
Proof.
  unfold tip_home_loan. intros H. cbn in H. injection H as H.
  now apply format_thousands_inj.
Qed.

(** The six kinds of tips differ within their first ten characters. *)
Ltac tip_clash H :=
  exfalso; apply (f_equal (substring 0 10)) in H;
  unfold tip_80c, tip_home_loan in H; cbn in H; discriminate H.

Ltac tip_eq H :=
  first [ apply tip_80c_inj in H | apply tip_home_loan_inj in H | tip_clash H ].

(** X3.  Each conditional tip is in the list exactly when its condition
    holds: the 80C tip when investments are below 150,000, quoting the
    remaining 150,000 - investments and no other amount; the 80D tip when
    the premium is below 25,000; the home-loan tip when the interest is
    strictly between 0 and 200,000, quoting that interest; the
    education-loan tip when that interest is 0; the income-splitting tip
    when the income exceeds 1,000,000. *)
Theorem tips_conditions
    (income investments health_insurance home_loan edu_loan : Z) :
  let tips :=
    get_tax_saving_tips income investments health_insurance home_loan edu_loan in
  (forall r, In (tip_80c r) tips <->
             investments < 150000 /\ r = 150000 - investments) /\
  (In tip_80d tips <-> health_insurance < 25000) /\
  (forall h, In (tip_home_loan h) tips <->
             0 < home_loan < 200000 /\ h = home_loan) /\
  (In tip_edu_loan tips <-> edu_loan = 0) /\
  (In tip_income_splitting tips <-> 1000000 < income).
Proof.
  unfold get_tax_saving_tips.
  rewrite !Z.gtb_ltb.
  destruct (Z.ltb_spec investments 150000) as [C1 | C1];
  destruct (Z.ltb_spec health_insurance 25000) as [C2 | C2];
  destruct (Z.ltb_spec 0 home_loan) as [C3 | C3];
  destruct (Z.ltb_spec home_loan 200000) as [C4 | C4];
  destruct (Z.eqb_spec edu_loan 0) as [C5 | C5];
  destruct (Z.ltb_spec 1000000 income) as [C6 | C6];
  cbn [andb append app In];
  (split; [intros r | split; [| split; [intros h | split]]]);
  (split;
   [ intros H;
     repeat match type of H with
            | _ \/ _ => destruct H as [H | H]
            | False => destruct H
            end;
     try (tip_eq H); try lia; try (split; lia)
   | intros H; try lia;
     try match type of H with _ /\ _ = _ => destruct H as [_ ->] end;
     auto 10 ]).
Qed.

Lemma subsequence_refl {A} (l : list A) : subsequence l l.
Proof. induction l; constructor; assumption. Qed.

Lemma subsequence_length {A} (l l' : list A) :
  subsequence l l' -> (List.length l <= List.length l')%nat.
Proof. induction 1; simpl; lia. Qed.

Lemma subsequence_In {A} (l l' : list A) (x : A) :
  subsequence l l' -> In x l -> In x l'.
Proof.
  induction 1; intros Hx; [assumption | right; auto |].
  destruct Hx as [-> | Hx]; [now left | right; auto].
Qed.

Lemma subsequence_NoDup {A} (l l' : list A) :
  subsequence l l' -> NoDup l' -> NoDup l.
Proof.
  induction 1; intros Hn; [assumption | |].
  - inversion Hn; auto.
  - inversion Hn as [| ? ? Hx Hl]; subst. constructor; [| auto].
    intros Hi. apply Hx. eapply subsequence_In; eassumption.
Qed.

Lemma all_tips_NoDup (r h : Z) :
  NoDup [tip_80c r; tip_80d; tip_home_loan h; tip_edu_loan; tip_nps;
         tip_income_splitting].
Proof.
  repeat constructor; cbn [In]; intros H;
    repeat match type of H with
           | _ \/ _ => destruct H as [H | H]
           | False => destruct H
           end;
    tip_clash H.
Qed.

Lemma tips_subsequence
    (income investments health_insurance home_loan edu_loan : Z) :
  subsequence
    (get_tax_saving_tips income investments health_insurance home_loan edu_loan)
    [tip_80c (150000 - investments); tip_80d; tip_home_loan home_loan;
     tip_edu_loan; tip_nps; tip_income_splitting].
Proof.
  unfold get_tax_saving_tips.
  destruct (investments <? 150000), (health_insurance <? 25000),
    ((home_loan >? 0) && (home_loan <? 200000))%bool, (edu_loan =? 0),
    (income >? 1000000);
    cbn [append app];
    repeat first [ apply subsequence_take | apply subsequence_skip
                 | apply subsequence_nil ].
Qed.

(** X4.  The tips always come in the same order (80C, 80D, home loan,
    education loan, NPS, income splitting), none of them twice, and there
    are between one and six of them. *)
Theorem tips_fixed_order
    (income investments health_insurance home_loan edu_loan : Z) :
  let tips :=
    get_tax_saving_tips income investments health_insurance home_loan edu_loan in
  subsequence tips
    [tip_80c (150000 - investments); tip_80d; tip_home_loan home_loan;
     tip_edu_loan; tip_nps; tip_income_splitting] /\
  NoDup tips /\
  (1 <= List.length tips <= 6)%nat.
Proof.
  intros tips.
  pose proof (tips_subsequence income investments health_insurance home_loan
                edu_loan) as S.
  fold tips in S.
  split; [exact S |]. split.
  - eapply subsequence_NoDup; [exact S | apply all_tips_NoDup].
  - split.
    + unfold tips, get_tax_saving_tips, TaxCalculator.append.
      destruct (income >? 1000000); rewrite !length_app; cbn [List.length]; lia.
    + apply subsequence_length in S. exact S.
Qed.

End Tips.

(** ** Edges of the calculators in binary64 *)

Module Binary64Edges.

Import Binary64 Rounding Binary64Facts Bounds.
Local Open Scope Z_scope.

Lemma round_below_limit :
  round_scaled 0 (int_limit - 1) = S754_finite false (2 ^ 53 - 1) 971.
Proof. vm_compute. reflexivity. Qed.

Lemma round_at_limit : round_scaled 0 int_limit = S754_infinity false.
Proof. vm_compute. reflexivity. Qed.

Lemma good_top_infinity (f : spec_float) : good f -> top <= ord f -> f = S754_infinity false.
Proof.
  intros G H. apply good_cases in G. destruct G as [F | E]; [| exact E].
  apply finite_nonneg_ord in F. lia.
Qed.

Lemma float_of_int_overflow (n : Z) :
  0 <= n -> (float_of_int n = None <-> int_limit <= n).
Proof.
  intros Hn. unfold float_of_int. rewrite binary_normalize_nonneg by assumption.
  pose proof (round_scaled_good 0 n) as G.
  destruct (Z_lt_le_dec n int_limit) as [L | L].
  - pose proof (round_scaled_mono 0 n (int_limit - 1) ltac:(lia)) as M.
    rewrite round_below_limit in M.
    assert (B : bounded prec emax (2 ^ 53 - 1) 971 = true) by reflexivity.
    pose proof (ord_finite_lt_top _ _ B) as T.
    assert (F : finite_nonneg (round_scaled 0 n)) by (apply good_lt_top_finite; [assumption | lia]).
    destruct (round_scaled 0 n) as [[] | [] | | [] m e]; cbn [finite_nonneg] in F;
      try tauto; split; (discriminate || lia).
  - pose proof (round_scaled_mono 0 int_limit n L) as M.
    rewrite round_at_limit in M. cbn [ord] in M.
    rewrite (good_top_infinity _ G M). split; [intros _; exact L | reflexivity].
Qed.

Lemma int_mul_overflow (n : Z) (c : spec_float) :
  0 <= n -> (int_mul n c = None <-> int_limit <= n).
Proof.
  intros Hn. rewrite <- float_of_int_overflow by assumption.
  unfold int_mul. destruct (float_of_int n); split; (discriminate || reflexivity).
Qed.

Lemma int_add_overflow (k : Z) (f : option spec_float) :
  0 <= k < 2 ^ 53 -> (int_add k f = None <-> f = None).
Proof.
  intros Hk. unfold int_add. destruct f as [t |]; [| tauto].
  destruct (float_of_int_exact k Hk) as (c & -> & _). split; discriminate.
Qed.

Lemma int_limit_large : 2 ^ 53 <= int_limit.
Proof. vm_compute. discriminate. Qed.

Lemma old_regime_slab_overflow (x : Z) :
  old_regime_slab x = None <-> int_limit + 1000000 <= x.
Proof.
  pose proof int_limit_large as HL. change (2 ^ 53) with 9007199254740992 in HL.
  unfold old_regime_slab, old_slab_1, old_slab_2, old_slab_3, old_slab_4.
  destruct (Z.leb_spec x 250000); [split; [discriminate | lia] |].
  destruct (Z.leb_spec x 500000).
  { rewrite int_mul_overflow by lia. lia. }
  destruct (Z.leb_spec x 1000000).
  { rewrite int_add_overflow, int_mul_overflow by lia. lia. }
  rewrite int_add_overflow, int_mul_overflow by lia. lia.
Qed.

Lemma new_regime_slab_overflow (x : Z) :
  new_regime_slab x = None <-> int_limit + 1500000 <= x.
Proof.
  pose proof int_limit_large as HL. change (2 ^ 53) with 9007199254740992 in HL.
  unfold new_regime_slab, new_slab_1, new_slab_2, new_slab_3, new_slab_4,
    new_slab_5, new_slab_6.
  destruct (Z.leb_spec x 300000); [split; [discriminate | lia] |].
  destruct (Z.leb_spec x 600000).
  { rewrite int_mul_overflow by lia. lia. }
  destruct (Z.leb_spec x 900000).
  { rewrite int_add_overflow, int_mul_overflow by lia. lia. }
  destruct (Z.leb_spec x 1200000).
  { rewrite int_add_overflow, int_mul_overflow by lia. lia. }
  destruct (Z.leb_spec x 1500000).
  { rewrite int_add_overflow, int_mul_overflow by lia. lia. }
  rewrite int_add_overflow, int_mul_overflow by lia. lia.
Qed.

Lemma breakdown_of_none (t : option spec_float) :
  breakdown_of t = None <-> t = None.
Proof. destruct t; cbn; split; (discriminate || reflexivity). Qed.

Lemma calculators_overflow (x : Z) :
  (calculate_old_regime_tax x = None <-> int_limit + 1000000 <= x) /\
  (calculate_new_regime_tax x = None <-> int_limit + 1500000 <= x).
Proof.
  unfold calculate_old_regime_tax, calculate_new_regime_tax.
  rewrite !breakdown_of_none. split;
    [apply old_regime_slab_overflow | apply new_regime_slab_overflow].
Qed.

(** ** No amount is ever infinite *)

Lemma round_scaled_self (f : spec_float) :
  finite_nonneg f -> round_scaled 1074 (ord f) = f.
Proof.
  destruct f as [[] | [] | | [] m e]; cbn [finite_nonneg]; try tauto; intros H;
    try reflexivity.
  pose proof (good_finite_bounds m e H) as (He & _). unfold emin in He.
  cbn [ord]. rewrite round_scaled_dyadic by lia. now apply round_dyadic_canonical.
Qed.

Lemma round_scaled_cross (k j v1 v2 : Z) :
  0 <= j -> v1 <= v2 * 2 ^ j ->
  ord (round_scaled (k + j) v1) <= ord (round_scaled k v2).
Proof.
  intros Hj H. pose proof (pow2_pos j Hj) as Hp.
  pose proof (good_ord_nonneg _ (round_scaled_good k v2)) as G2.
  destruct v1 as [| p1 | p1];
    [change (ord (round_scaled (k + j) 0)) with 0; lia | |
     change (ord (round_scaled (k + j) (Zneg p1))) with 0; lia].
  destruct v2 as [| p2 | p2]; try lia. cbn [round_scaled].
  apply (round_dyadic_mono p1 p2 (- (k + j)) (- k) (- (k + j))); try lia.
  rewrite Z.sub_diag. change (2 ^ 0) with 1.
  replace (- k - - (k + j)) with j by lia. lia.
Qed.

Lemma lit_0_04_ord : ord lit_0_04 = 5764607523034235 * 2 ^ 1017.
Proof. reflexivity. Qed.

Lemma breakdown_bounded (a A : spec_float) (b : TaxBreakdown) :
  good a -> finite_nonneg A -> ord a <= ord A ->
  ord (fmul A lit_0_04) < top ->
  ord (fadd A (fmul A lit_0_04)) < top ->
  breakdown_of (Some a) = Some b ->
  finite_nonneg (base_tax b) /\ finite_nonneg (cess b) /\
  finite_nonneg (total_tax b) /\
  ord (cess b) <= ord (base_tax b) <= ord (total_tax b).
Proof.
  intros Ga FA Ha Tc Tt [= <-]. cbn [base_tax cess total_tax].
  pose proof (finite_nonneg_good _ FA) as GA.
  pose proof (finite_nonneg_ord _ FA) as BA.
  assert (Fa : finite_nonneg a) by (apply good_lt_top_finite; [assumption | lia]).
  pose proof (finite_nonneg_ord _ Fa) as Ba.
  pose proof (fmul_good a _ _ Ga lit_0_04_bounded) as Gc.
  pose proof (fmul_good A _ _ GA lit_0_04_bounded) as GC.
  pose proof (fmul_mono a A _ _ Ga GA lit_0_04_bounded Ha) as Mc.
  fold lit_0_04 in Gc, GC, Mc.
  assert (Fc : finite_nonneg (fmul a lit_0_04))
    by (apply good_lt_top_finite; [assumption | lia]).
  pose proof (fadd_good _ _ Ga Gc) as Gt.
  pose proof (fadd_mono _ _ _ _ Ga GA Gc GC Ha Mc) as Mt.
  assert (Ft : finite_nonneg (fadd a (fmul a lit_0_04)))
    by (apply good_lt_top_finite; [assumption | lia]).
  repeat split; try assumption.
  - rewrite <- (round_scaled_self a Fa) at 2.
    rewrite (fmul_finite a lit_0_04 Fa) by reflexivity.
    change 2148 with (1074 + 1074). apply round_scaled_cross; [lia |].
    rewrite lit_0_04_ord.
    assert (5764607523034235 * 2 ^ 1017 <= 2 ^ 1074).
    { replace 1074 with (57 + 1017) by lia. rewrite (Z.pow_add_r 2 57 1017) by lia.
      pose proof (pow2_pos 1017 ltac:(lia)).
      apply Z.mul_le_mono_nonneg_r; [lia | vm_compute; discriminate]. }
    apply Z.mul_le_mono_nonneg_l; lia.
  - rewrite <- (round_scaled_self a Fa) at 1.
    rewrite (fadd_finite _ _ Fa Fc). apply round_scaled_mono.
    pose proof (finite_nonneg_ord _ Fc). lia.
Qed.

Lemma old_anchor :
  exists A, old_regime_slab (int_limit + 999999) = Some A /\ finite_nonneg A /\
            ord (fmul A lit_0_04) < top /\ ord (fadd A (fmul A lit_0_04)) < top.
Proof.
  eexists. split; [vm_compute; reflexivity |].
  split; [vm_compute; reflexivity |]. split; vm_compute; reflexivity.
Qed.

Lemma new_anchor :
  exists A, new_regime_slab (int_limit + 1499999) = Some A /\ finite_nonneg A /\
            ord (fmul A lit_0_04) < top /\ ord (fadd A (fmul A lit_0_04)) < top.
Proof.
  eexists. split; [vm_compute; reflexivity |].
  split; [vm_compute; reflexivity |]. split; vm_compute; reflexivity.
Qed.

Lemma breakdown_finite (x : Z) (b : TaxBreakdown) :
  calculate_old_regime_tax x = Some b \/ calculate_new_regime_tax x = Some b ->
  finite_nonneg (base_tax b) /\ finite_nonneg (cess b) /\
  finite_nonneg (total_tax b) /\
  ord (cess b) <= ord (base_tax b) <= ord (total_tax b).
Proof.
  intros [H | H].
  - assert (Hx : x < int_limit + 1000000).
    { destruct (Z_lt_le_dec x (int_limit + 1000000)) as [L | L]; [exact L |].
      apply (proj1 (calculators_overflow x)) in L. congruence. }
    unfold calculate_old_regime_tax in H.
    destruct (old_regime_slab x) as [a |] eqn:Ea; [| discriminate].
    destruct old_anchor as (A & EA & FA & Tc & Tt).
    destruct (old_regime_slab_float_mono x (int_limit + 999999) ltac:(lia) a A Ea EA)
      as (Ga & _ & L).
    now apply (breakdown_bounded a A).
  - assert (Hx : x < int_limit + 1500000).
    { destruct (Z_lt_le_dec x (int_limit + 1500000)) as [L | L]; [exact L |].
      apply (proj2 (calculators_overflow x)) in L. congruence. }
    unfold calculate_new_regime_tax in H.
    destruct (new_regime_slab x) as [a |] eqn:Ea; [| discriminate].
    destruct new_anchor as (A & EA & FA & Tc & Tt).
    destruct (new_regime_slab_float_mono x (int_limit + 1499999) ltac:(lia) a A Ea EA)
      as (Ga & _ & L).
    now apply (breakdown_bounded a A).
Qed.

(** ** Tax is charged from the first rupee above the threshold *)

Lemma breakdown_lower (a A : spec_float) (b : TaxBreakdown) :
  good a -> good A -> ord A <= ord a ->
  0 < ord A -> 0 < ord (fmul A lit_0_04) -> 0 < ord (fadd A (fmul A lit_0_04)) ->
  breakdown_of (Some a) = Some b ->
  0 < ord (base_tax b) /\ 0 < ord (cess b) /\ 0 < ord (total_tax b).
Proof.
  intros Ga GA Ha PA Pc Pt [= <-]. cbn [base_tax cess total_tax].
  pose proof (fmul_good a _ _ Ga lit_0_04_bounded) as Gc.
  pose proof (fmul_good A _ _ GA lit_0_04_bounded) as GC.
  pose proof (fmul_mono A a _ _ GA Ga lit_0_04_bounded Ha) as Mc.
  fold lit_0_04 in Gc, GC, Mc.
  pose proof (fadd_mono _ _ _ _ GA Ga GC Gc Ha Mc) as Mt.
  repeat split; lia.
Qed.

Lemma old_first_rupee :
  exists A, old_regime_slab 250001 = Some A /\ good A /\ 0 < ord A /\
            0 < ord (fmul A lit_0_04) /\ 0 < ord (fadd A (fmul A lit_0_04)).
Proof.
  eexists. split; [vm_compute; reflexivity |].
  split; [vm_compute; reflexivity |]. repeat split; vm_compute; reflexivity.
Qed.

Lemma new_first_rupee :
  exists A, new_regime_slab 300001 = Some A /\ good A /\ 0 < ord A /\
            0 < ord (fmul A lit_0_04) /\ 0 < ord (fadd A (fmul A lit_0_04)).
Proof.
  eexists. split; [vm_compute; reflexivity |].
  split; [vm_compute; reflexivity |]. repeat split; vm_compute; reflexivity.
Qed.

Lemma breakdown_positive (x : Z) (b : TaxBreakdown) :
  (250000 < x -> calculate_old_regime_tax x = Some b ->
   0 < ord (base_tax b) /\ 0 < ord (cess b) /\ 0 < ord (total_tax b)) /\
  (300000 < x -> calculate_new_regime_tax x = Some b ->
   0 < ord (base_tax b) /\ 0 < ord (cess b) /\ 0 < ord (total_tax b)).
Proof.
  split; intros Hx H.
  - unfold calculate_old_regime_tax in H.
    destruct (old_regime_slab x) as [a |] eqn:Ea; [| discriminate].
    destruct old_first_rupee as (A & EA & GA & PA & Pc & Pt).
    destruct (old_regime_slab_float_mono 250001 x ltac:(lia) A a EA Ea)
      as (_ & Ga & L).
    now apply (breakdown_lower a A).
  - unfold calculate_new_regime_tax in H.
    destruct (new_regime_slab x) as [a |] eqn:Ea; [| discriminate].
    destruct new_first_rupee as (A & EA & GA & PA & Pc & Pt).
    destruct (new_regime_slab_float_mono 300001 x ltac:(lia) A a EA Ea)
      as (_ & Ga & L).
    now apply (breakdown_lower a A).
Qed.

Lemma ord_zero_iff (f : spec_float) :
  finite_nonneg f -> (f = S754_zero false <-> ord f = 0).
Proof.
  destruct f as [[] | [] | | [] m e]; cbn [finite_nonneg]; try tauto; intros H;
    try (split; reflexivity).
  pose proof (ord_finite_lt_top m e H). split; [discriminate | lia].
Qed.

(** ** The handler *)

Lemma calculate_tax_some
    (income investments health_insurance home_loan edu_loan hra : Z)
    (o n : TaxBreakdown) (v : RegimeVerdict) :
  calculate_tax income investments health_insurance home_loan edu_loan hra
    = Some (o, n, v) <->
  calculate_old_regime_tax
    (Z.max 0 (income - (investments + health_insurance + home_loan + edu_loan + hra)))
    = Some o /\
  calculate_new_regime_tax income = Some n /\
  v = get_better_regime o n.
Proof.
  unfold calculate_tax.
  destruct (calculate_old_regime_tax _) as [o' |];
    destruct (calculate_new_regime_tax income) as [n' |]; split;
    try (intros [= <- <- <-]; repeat split);
    try (intros (H1 & H2 & H3); congruence); try discriminate.
Qed.

Lemma fsub_zero_r (a : spec_float) :
  finite_nonneg a -> fsub a (S754_zero false) = a.
Proof.
  destruct a as [[] | [] | | [] m e]; cbn [finite_nonneg]; try tauto; reflexivity.
Qed.

End Binary64Edges.

(** ** The calculators and the handler, in both readings *)

Lemma old_regime_slab_zero_iff (x : Q) : old_regime_slab x == 0 <-> x <= 250000.
Proof.
  unfold old_regime_slab, old_slab_1, old_slab_2, old_slab_3, old_slab_4.
  slab_cases x; split; intros; lra.
Qed.

Lemma new_regime_slab_zero_iff (x : Q) : new_regime_slab x == 0 <-> x <= 300000.
Proof.
  unfold new_regime_slab, new_slab_1, new_slab_2, new_slab_3, new_slab_4,
    new_slab_5, new_slab_6.
  slab_cases x; split; intros; lra.
Qed.

Lemma old_regime_slab_nonneg (x : Q) : 0 <= old_regime_slab x.
Proof.
  unfold old_regime_slab, old_slab_1, old_slab_2, old_slab_3, old_slab_4.
  slab_cases x; lra.
Qed.

Lemma new_regime_slab_nonneg (x : Q) : 0 <= new_regime_slab x.
Proof.
  unfold new_regime_slab, new_slab_1, new_slab_2, new_slab_3, new_slab_4,
    new_slab_5, new_slab_6.
  slab_cases x; lra.
Qed.

(** X5.  The total tax is zero exactly up to the exemption limit: 250,000
    under the old regime, 300,000 under the new one.  In binary64 the first
    rupee above the limit already gives a total that is not [0.0]. *)
Theorem tax_free_exactly_up_to_limit :
  (forall x : Q,
     (total_tax (calculate_old_regime_tax x) == 0 <-> x <= 250000) /\
     (total_tax (calculate_new_regime_tax x) == 0 <-> x <= 300000)) /\
  (forall (x : Z) (b : Binary64.TaxBreakdown),
     (Binary64.calculate_old_regime_tax x = Some b ->
      (Binary64.total_tax b = S754_zero false <-> (x <= 250000)%Z)) /\
     (Binary64.calculate_new_regime_tax x = Some b ->
      (Binary64.total_tax b = S754_zero false <-> (x <= 300000)%Z))).
Proof.
  split.
  - intros x. rewrite total_tax_old, total_tax_new.
    rewrite <- old_regime_slab_zero_iff, <- new_regime_slab_zero_iff.
    split; split; intros; lra.
  - intros x b. split; intros H.
    + destruct (Binary64Edges.breakdown_finite x b (or_introl H)) as (_ & _ & Ft & _).
      rewrite (Binary64Edges.ord_zero_iff _ Ft).
      destruct (Z_le_gt_dec x 250000) as [L | G].
      * rewrite (proj1 (Binary64Facts.zero_band_float x) L) in H.
        injection H as <-. cbn. split; [intros _; exact L | reflexivity].
      * pose proof (proj1 (Binary64Edges.breakdown_positive x b) ltac:(lia) H)
          as (_ & _ & P).
        split; intros; lia.
    + destruct (Binary64Edges.breakdown_finite x b (or_intror H)) as (_ & _ & Ft & _).
      rewrite (Binary64Edges.ord_zero_iff _ Ft).
      destruct (Z_le_gt_dec x 300000) as [L | G].
      * rewrite (proj2 (Binary64Facts.zero_band_float x) L) in H.
        injection H as <-. cbn. split; [intros _; exact L | reflexivity].
      * pose proof (proj2 (Binary64Edges.breakdown_positive x b) ltac:(lia) H)
          as (_ & _ & P).
        split; intros; lia.
Qed.

Lemma tax_free_exactly_up_to_limit_witness :
  total_tax (calculate_old_regime_tax 250000) == 0 /\
  total_tax (calculate_new_regime_tax 300000) == 0 /\
  (exists b, Binary64.calculate_old_regime_tax 250000 = Some b /\
             Binary64.total_tax b = S754_zero false) /\
  (exists b, Binary64.calculate_new_regime_tax 300001 = Some b /\
             Binary64.total_tax b <> S754_zero false).
Proof.
  destruct tax_free_exactly_up_to_limit as [Hq Hf].
  split; [apply (proj2 (proj1 (Hq 250000))); vm_compute; discriminate |].
  split; [apply (proj2 (proj2 (Hq 300000))); vm_compute; discriminate |].
  split.
  - eexists. split; [vm_compute; reflexivity |].
    apply (proj1 (Hf 250000%Z _)); [vm_compute; reflexivity | lia].
  - eexists. split; [vm_compute; reflexivity |].
    intros E. apply (proj2 (Hf 300001%Z _)) in E; [lia | vm_compute; reflexivity].
Defined.

(** X6.  In a breakdown, cess <= base tax <= total tax, and nothing is
    negative.  In binary64 every breakdown a calculator returns holds three
    finite non-negative floats (never an infinity, never a NaN), in that
    order. *)
Theorem amounts_finite_and_ordered :
  (forall x : Q,
     (0 <= cess (calculate_old_regime_tax x)
        <= base_tax (calculate_old_regime_tax x) /\
      base_tax (calculate_old_regime_tax x)
        <= total_tax (calculate_old_regime_tax x)) /\
     (0 <= cess (calculate_new_regime_tax x)
        <= base_tax (calculate_new_regime_tax x) /\
      base_tax (calculate_new_regime_tax x)
        <= total_tax (calculate_new_regime_tax x))) /\
  (forall (x : Z) (b : Binary64.TaxBreakdown),
     Binary64.calculate_old_regime_tax x = Some b \/
     Binary64.calculate_new_regime_tax x = Some b ->
     Rounding.finite_nonneg (Binary64.base_tax b) /\
     Rounding.finite_nonneg (Binary64.cess b) /\
     Rounding.finite_nonneg (Binary64.total_tax b) /\
     SFleb (Binary64.cess b) (Binary64.base_tax b) = true /\
     SFleb (Binary64.base_tax b) (Binary64.total_tax b) = true).
Proof.
  split.
  - intros x. unfold calculate_old_regime_tax, calculate_new_regime_tax.
    cbn [base_tax cess total_tax].
    pose proof (old_regime_slab_nonneg x). pose proof (new_regime_slab_nonneg x).
    repeat split; lra.
  - intros x b H.
    destruct (Binary64Edges.breakdown_finite x b H) as (Fb & Fc & Ft & L1 & L2).
    repeat split; try assumption.
    + rewrite Binary64Facts.SFleb_ord by now apply Binary64Facts.finite_nonneg_good.
      now apply Z.leb_le.
    + rewrite Binary64Facts.SFleb_ord by now apply Binary64Facts.finite_nonneg_good.
      now apply Z.leb_le.
Qed.

Lemma amounts_finite_and_ordered_witness :
  exists b, Binary64.calculate_old_regime_tax 600000 = Some b /\
    Rounding.finite_nonneg (Binary64.base_tax b) /\
    Rounding.finite_nonneg (Binary64.cess b) /\
    Rounding.finite_nonneg (Binary64.total_tax b) /\
    SFleb (Binary64.cess b) (Binary64.base_tax b) = true /\
    SFleb (Binary64.base_tax b) (Binary64.total_tax b) = true.
Proof.
  eexists. split; [vm_compute; reflexivity |].
  apply (proj2 amounts_finite_and_ordered 600000%Z). left. vm_compute. reflexivity.
Defined.

(** X7.  In binary64 the calculators fail (OverflowError on converting the
    excess over the top slab's base to a float) exactly from
    [2^1024 - 2^970] above that base on: 1,000,000 for the old regime,
    1,500,000 for the new one.  The handler fails exactly when one of the
    two does. *)
Theorem overflow_error_threshold :
  (forall x : Z,
     Binary64.calculate_old_regime_tax x = None
     <-> (2 ^ 1024 - 2 ^ 970 + 1000000 <= x)%Z) /\
  (forall x : Z,
     Binary64.calculate_new_regime_tax x = None
     <-> (2 ^ 1024 - 2 ^ 970 + 1500000 <= x)%Z) /\
  (forall income investments health_insurance home_loan edu_loan hra : Z,
     Binary64.calculate_tax income investments health_insurance home_loan
                            edu_loan hra = None
     <-> (2 ^ 1024 - 2 ^ 970 + 1000000
            <= income - (investments + health_insurance + home_loan + edu_loan + hra)
          \/ 2 ^ 1024 - 2 ^ 970 + 1500000 <= income)%Z).
Proof.
  split; [intros x; apply Binary64Edges.calculators_overflow |].
  split; [intros x; apply Binary64Edges.calculators_overflow |].
  intros income investments health_insurance home_loan edu_loan hra.
  unfold Binary64.calculate_tax.
  set (d := (investments + health_insurance + home_loan + edu_loan + hra)%Z).
  pose proof (proj1 (Binary64Edges.calculators_overflow (Z.max 0 (income - d)))) as Ho.
  pose proof (proj2 (Binary64Edges.calculators_overflow income)) as Hn.
  fold Bounds.int_limit.
  pose proof Binary64Edges.int_limit_large as HL.
  change (2 ^ 53)%Z with 9007199254740992%Z in HL.
  destruct (Binary64.calculate_old_regime_tax (Z.max 0 (income - d))) as [o |];
    destruct (Binary64.calculate_new_regime_tax income) as [n |].
  - split; [discriminate |]. intros [H | H].
    + assert (Some o = None) by (apply Ho; lia). discriminate.
    + assert (Some n = None) by (apply Hn; lia). discriminate.
  - split; [intros _ | reflexivity]. right. now apply Hn.
  - split; [intros _ | reflexivity]. left.
    assert (Bounds.int_limit + 1000000 <= Z.max 0 (income - d))%Z by now apply Ho.
    lia.
  - split; [intros _ | reflexivity]. right. now apply Hn.
Qed.

(** ** The handler: what deductions do *)

Lemma taxable_antitone (income d d' : Z) :
  (d <= d')%Z ->
  inject_Z (Z.max 0 (income - d')) <= inject_Z (Z.max 0 (income - d)).
Proof. intros H. rewrite <- Zle_Qle. lia. Qed.

(** X8.  In the handler, a larger sum of deductions never gives a larger
    old-regime total, and it leaves the new-regime breakdown as it is. *)
Theorem deductions_never_raise_old_tax :
  (forall income i h l e r i' h' l' e' r' : Z,
     (i + h + l + e + r <= i' + h' + l' + e' + r')%Z ->
     total_tax (Main.old_regime_tax (Main.calculate_tax income i' h' l' e' r'))
       <= total_tax (Main.old_regime_tax (Main.calculate_tax income i h l e r)) /\
     Main.new_regime_tax (Main.calculate_tax income i' h' l' e' r')
       = Main.new_regime_tax (Main.calculate_tax income i h l e r)) /\
  (forall income i h l e r i' h' l' e' r' : Z,
     (i + h + l + e + r <= i' + h' + l' + e' + r')%Z ->
     forall o n v o' n' v',
       Binary64.calculate_tax income i h l e r = Some (o, n, v) ->
       Binary64.calculate_tax income i' h' l' e' r' = Some (o', n', v') ->
       SFleb (Binary64.total_tax o') (Binary64.total_tax o) = true /\ n' = n).
Proof.
  split.
  - intros income i h l e r i' h' l' e' r' Hd.
    unfold Main.calculate_tax. cbn [Main.old_regime_tax Main.new_regime_tax].
    split; [| reflexivity].
    apply total_tax_exact_monotone. now apply taxable_antitone.
  - intros income i h l e r i' h' l' e' r' Hd o n v o' n' v' H H'.
    apply Binary64Edges.calculate_tax_some in H, H'.
    destruct H as (Ho & Hn & _), H' as (Ho' & Hn' & _).
    split; [| congruence].
    refine (proj1 (Binary64Facts.total_tax_float_monotone _ _ _) o' o Ho' Ho). lia.
Qed.

Lemma deductions_never_raise_old_tax_witness :
  total_tax (Main.old_regime_tax (Main.calculate_tax 1200000 150000 25000 200000 0 0))
    <= total_tax (Main.old_regime_tax (Main.calculate_tax 1200000 150000 0 0 0 0)) /\
  (exists o n v o' n' v',
     Binary64.calculate_tax 1200000 150000 0 0 0 0 = Some (o, n, v) /\
     Binary64.calculate_tax 1200000 150000 25000 200000 0 0 = Some (o', n', v') /\
     SFleb (Binary64.total_tax o') (Binary64.total_tax o) = true /\ n' = n).
Proof.
  destruct deductions_never_raise_old_tax as [Hq Hf].
  split.
  - apply (Hq 1200000 150000 0 0 0 0 150000 25000 200000 0 0)%Z. lia.
  - eexists _, _, _, _, _, _.
    split; [vm_compute; reflexivity |]. split; [vm_compute; reflexivity |].
    apply (Hf 1200000 150000 0 0 0 0 150000 25000 200000 0 0 ltac:(lia)
              _ _ _ _ _ _ eq_refl eq_refl)%Z.
Defined.

(** X9.  Once the handler recommends the old regime, it still does with any
    larger sum of deductions on the same income. *)
Theorem more_deductions_keep_old_regime :
  (forall income i h l e r i' h' l' e' r' : Z,
     (i + h + l + e + r <= i' + h' + l' + e' + r')%Z ->
     regime (Main.better_regime (Main.calculate_tax income i h l e r))
       = "Old Regime"%string ->
     regime (Main.better_regime (Main.calculate_tax income i' h' l' e' r'))
       = "Old Regime"%string) /\
  (forall income i h l e r i' h' l' e' r' : Z,
     (i + h + l + e + r <= i' + h' + l' + e' + r')%Z ->
     forall o n v o' n' v',
       Binary64.calculate_tax income i h l e r = Some (o, n, v) ->
       Binary64.calculate_tax income i' h' l' e' r' = Some (o', n', v') ->
       Binary64.regime v = "Old Regime"%string ->
       Binary64.regime v' = "Old Regime"%string).
Proof.
  split.
  - intros income i h l e r i' h' l' e' r' Hd.
    unfold Main.calculate_tax. cbn [Main.better_regime].
    set (d := (i + h + l + e + r)%Z) in *. set (d' := (i' + h' + l' + e' + r')%Z) in *.
    pose proof (proj1 (total_tax_exact_monotone _ _ (taxable_antitone income d d' Hd))) as M.
    unfold get_better_regime.
    destruct (Qlt_bool_spec
      (total_tax (calculate_old_regime_tax (inject_Z (Z.max 0 (income - d)))))
      (total_tax (calculate_new_regime_tax (inject_Z income)))) as [L | L];
      cbn [regime]; [intros _ | discriminate].
    destruct (Qlt_bool_spec
      (total_tax (calculate_old_regime_tax (inject_Z (Z.max 0 (income - d')))))
      (total_tax (calculate_new_regime_tax (inject_Z income)))) as [L' | L'];
      cbn [regime]; [reflexivity | lra].
  - intros income i h l e r i' h' l' e' r' Hd o n v o' n' v' H H'.
    apply Binary64Edges.calculate_tax_some in H, H'.
    destruct H as (Ho & Hn & ->), H' as (Ho' & Hn' & ->).
    assert (n' = n) by congruence. subst n'.
    destruct (Binary64Edges.breakdown_finite _ o (or_introl Ho)) as (_ & _ & Fo & _).
    destruct (Binary64Edges.breakdown_finite _ o' (or_introl Ho')) as (_ & _ & Fo' & _).
    destruct (Binary64Edges.breakdown_finite _ n (or_intror Hn)) as (_ & _ & Fn & _).
    apply Binary64Facts.finite_nonneg_good in Fo, Fo', Fn.
    pose proof (proj1 (Binary64Facts.total_tax_float_monotone
      (Z.max 0 (income - (i' + h' + l' + e' + r')))
      (Z.max 0 (income - (i + h + l + e + r))) ltac:(lia)) o' o Ho' Ho) as M.
    rewrite Binary64Facts.SFleb_ord in M by assumption. apply Z.leb_le in M.
    unfold Binary64.get_better_regime.
    rewrite !Binary64Facts.SFltb_ord by assumption.
    destruct (Z.ltb_spec (Rounding.ord (Binary64.total_tax o))
                         (Rounding.ord (Binary64.total_tax n))) as [L | L];
      cbn [Binary64.regime]; [intros _ | discriminate].
    destruct (Z.ltb_spec (Rounding.ord (Binary64.total_tax o'))
                         (Rounding.ord (Binary64.total_tax n))) as [L' | L'];
      cbn [Binary64.regime]; [reflexivity | lia].
Qed.

Lemma more_deductions_keep_old_regime_witness :
  regime (Main.better_regime (Main.calculate_tax 1200000 150000 25000 200000 0 100000))
    = "Old Regime"%string /\
  (exists o' n' v',
     Binary64.calculate_tax 1200000 150000 25000 200000 0 100000 = Some (o', n', v') /\
     Binary64.regime v' = "Old Regime"%string).
Proof.
  destruct more_deductions_keep_old_regime as [Hq Hf].
  split.
  - apply (Hq 1200000 150000 25000 200000 0 0 150000 25000 200000 0 100000)%Z;
      [lia | vm_compute; reflexivity].
  - eexists _, _, _. split; [vm_compute; reflexivity |].
    apply (Hf 1200000 150000 25000 200000 0 0 150000 25000 200000 0 100000 ltac:(lia)
              _ _ _ _ _ _ eq_refl eq_refl)%Z.
    vm_compute. reflexivity.
Defined.

(** X10.  When the deductions reach the income (they are not capped), the
    old-regime breakdown is zero throughout; the handler then recommends
    the old regime exactly when the income exceeds 300,000, and the savings
    are the whole new-regime total. *)
Theorem deductions_covering_income :
  (forall income i h l e r : Z,
     (income <= i + h + l + e + r)%Z ->
     let res := Main.calculate_tax income i h l e r in
     base_tax (Main.old_regime_tax res) == 0 /\
     cess (Main.old_regime_tax res) == 0 /\
     total_tax (Main.old_regime_tax res) == 0 /\
     (regime (Main.better_regime res) = "Old Regime"%string
      <-> (300000 < income)%Z) /\
     (regime (Main.better_regime res) = "New Regime"%string
      <-> (income <= 300000)%Z) /\
     savings (Main.better_regime res) == total_tax (Main.new_regime_tax res)) /\
  (forall income i h l e r : Z,
     (income <= i + h + l + e + r)%Z ->
     forall o n v,
       Binary64.calculate_tax income i h l e r = Some (o, n, v) ->
       o = {| Binary64.base_tax := S754_zero false;
              Binary64.cess := S754_zero false;
              Binary64.total_tax := S754_zero false |} /\
       (Binary64.regime v = "Old Regime"%string <-> (300000 < income)%Z) /\
       (Binary64.regime v = "New Regime"%string <-> (income <= 300000)%Z) /\
       Binary64.savings v = Binary64.total_tax n).
Proof.
  split.
  - intros income i h l e r Hd res. unfold res, Main.calculate_tax.
    cbn [Main.old_regime_tax Main.new_regime_tax Main.better_regime].
    rewrite Z.max_l by lia.
    assert (Ho : old_regime_slab (inject_Z 0) == 0)
      by (apply old_regime_slab_zero_iff; unfold inject_Z; lra).
    unfold calculate_old_regime_tax at 1 2 3. cbn [base_tax cess total_tax].
    split; [exact Ho |]. split; [lra |]. split; [lra |].
    assert (Hz : total_tax (calculate_old_regime_tax (inject_Z 0)) == 0)
      by (rewrite total_tax_old; lra).
    pose proof (new_regime_slab_nonneg (inject_Z income)) as Hn0.
    pose proof (new_regime_slab_zero_iff (inject_Z income)) as Hn.
    assert (Hi : inject_Z income <= 300000 <-> (income <= 300000)%Z).
    { change 300000 with (inject_Z 300000). rewrite <- Zle_Qle. reflexivity. }
    unfold get_better_regime.
    destruct (Qlt_bool_spec (total_tax (calculate_old_regime_tax (inject_Z 0)))
                            (total_tax (calculate_new_regime_tax (inject_Z income))))
      as [L | L]; cbn [regime savings];
      rewrite total_tax_new in L; rewrite Hz in L.
    + assert (~ (income <= 300000)%Z) by (intros C; apply Hi, Hn in C; lra).
      repeat split; intros; try reflexivity; try discriminate; try lia.
      rewrite Hz. lra.
    + assert (new_regime_slab (inject_Z income) == 0) as E by lra.
      assert (income <= 300000)%Z by (apply Hi, Hn; exact E).
      repeat split; intros; try reflexivity; try discriminate; try lia.
      rewrite Hz, total_tax_new. lra.
  - intros income i h l e r Hd o n v H.
    apply Binary64Edges.calculate_tax_some in H. destruct H as (Ho & Hn & ->).
    rewrite Z.max_l in Ho by lia.
    rewrite (proj1 (Binary64Facts.zero_band_float 0) ltac:(lia)) in Ho.
    injection Ho as <-. split; [reflexivity |].
    destruct (Binary64Edges.breakdown_finite _ n (or_intror Hn)) as (_ & _ & Fn & _).
    pose proof (Binary64Facts.finite_nonneg_good _ Fn) as Gn.
    unfold Binary64.get_better_regime. cbn [Binary64.total_tax].
    rewrite Binary64Facts.SFltb_ord by (exact I || assumption).
    change (Rounding.ord (S754_zero false)) with 0%Z.
    destruct (Z_le_gt_dec income 300000) as [L | G].
    + rewrite (proj2 (Binary64Facts.zero_band_float income) L) in Hn.
      injection Hn as <-. cbn.
      repeat split; intros; try reflexivity; try discriminate; lia.
    + pose proof (proj2 (Binary64Edges.breakdown_positive income n) ltac:(lia) Hn)
        as (_ & _ & P).
      destruct (Z.ltb_spec 0 (Rounding.ord (Binary64.total_tax n))); [| lia].
      cbn [Binary64.regime Binary64.savings].
      repeat split; intros; try reflexivity; try discriminate; try lia.
      now apply Binary64Edges.fsub_zero_r.
Qed.

Lemma deductions_covering_income_witness :
  (let res := Main.calculate_tax 400000 400000 0 0 0 0 in
   total_tax (Main.old_regime_tax res) == 0 /\
   regime (Main.better_regime res) = "Old Regime"%string) /\
  (exists o n v,
     Binary64.calculate_tax 400000 400000 0 0 0 0 = Some (o, n, v) /\
     Binary64.regime v = "Old Regime"%string /\
     Binary64.savings v = Binary64.total_tax n).
Proof.
  destruct deductions_covering_income as [Hq Hf].
  split.
  - destruct (Hq 400000 400000 0 0 0 0 ltac:(lia))%Z as (_ & _ & Ht & Hr & _).
    split; [exact Ht | apply Hr; lia].
  - eexists _, _, _. split; [vm_compute; reflexivity |].
    destruct (Hf 400000 400000 0 0 0 0 ltac:(lia) _ _ _ eq_refl)%Z
      as (_ & Hr & _ & Hs).
    split; [apply Hr; lia | exact Hs].
Defined.

(** X11.  For an income of at most 300,000 the handler recommends the new
    regime whatever the deductions, with the old-regime total as
    savings. *)
Theorem low_income_new_regime :
  (forall income i h l e r : Z,
     (income <= 300000)%Z ->
     let res := Main.calculate_tax income i h l e r in
     regime (Main.better_regime res) = "New Regime"%string /\
     savings (Main.better_regime res) == total_tax (Main.old_regime_tax res)) /\
  (forall income i h l e r : Z,
     (income <= 300000)%Z ->
     forall o n v,
       Binary64.calculate_tax income i h l e r = Some (o, n, v) ->
       Binary64.regime v = "New Regime"%string /\
       Binary64.savings v = Binary64.total_tax o).
Proof.
  split.
  - intros income i h l e r Hi res. unfold res, Main.calculate_tax.
    cbn [Main.old_regime_tax Main.new_regime_tax Main.better_regime].
    set (taxable := inject_Z (Z.max 0 (income - (i + h + l + e + r)))).
    assert (Hn : total_tax (calculate_new_regime_tax (inject_Z income)) == 0).
    { rewrite total_tax_new.
      assert (new_regime_slab (inject_Z income) == 0); [| lra].
      apply new_regime_slab_zero_iff. change 300000 with (inject_Z 300000).
      rewrite <- Zle_Qle. exact Hi. }
    pose proof (old_regime_slab_nonneg taxable) as Ho.
    pose proof (total_tax_old taxable) as To.
    unfold get_better_regime.
    destruct (Qlt_bool_spec (total_tax (calculate_old_regime_tax taxable))
                            (total_tax (calculate_new_regime_tax (inject_Z income))))
      as [L | L]; cbn [regime savings]; [lra |].
    split; [reflexivity | lra].
  - intros income i h l e r Hi o n v H.
    apply Binary64Edges.calculate_tax_some in H. destruct H as (Ho & Hn & ->).
    rewrite (proj2 (Binary64Facts.zero_band_float income) Hi) in Hn.
    injection Hn as <-.
    destruct (Binary64Edges.breakdown_finite _ o (or_introl Ho)) as (_ & _ & Fo & _).
    pose proof (Binary64Facts.finite_nonneg_good _ Fo) as Go.
    pose proof (Binary64Facts.finite_nonneg_ord _ Fo) as Bo.
    unfold Binary64.get_better_regime. cbn [Binary64.total_tax].
    rewrite Binary64Facts.SFltb_ord by (exact I || assumption).
    change (Rounding.ord (S754_zero false)) with 0%Z.
    destruct (Z.ltb_spec (Rounding.ord (Binary64.total_tax o)) 0); [lia |].
    cbn [Binary64.regime Binary64.savings]. split; [reflexivity |].
    now apply Binary64Edges.fsub_zero_r.
Qed.

Lemma low_income_new_regime_witness :
  regime (Main.better_regime (Main.calculate_tax 280000 0 0 0 0 0))
    = "New Regime"%string /\
  (exists o n v,
     Binary64.calculate_tax 280000 0 0 0 0 0 = Some (o, n, v) /\
     Binary64.regime v = "New Regime"%string /\
     Binary64.savings v = Binary64.total_tax o).
Proof.
  destruct low_income_new_regime as [Hq Hf].
  split.
  - apply (Hq 280000 0 0 0 0 0)%Z. lia.
  - eexists _, _, _. split; [vm_compute; reflexivity |].
    apply (Hf 280000 0 0 0 0 0 ltac:(lia) _ _ _ eq_refl)%Z.
Defined.

(** ** The predictor *)

Lemma py_index_none {A : Type} (l : list A) (i : Z) :
  TaxPredictor.py_index l i = None
  <-> (i < - Z.of_nat (List.length l) \/ Z.of_nat (List.length l) <= i)%Z.
Proof.
  unfold TaxPredictor.py_index.
  destruct (Z.leb_spec 0 i) as [P | N].
  - rewrite nth_error_None. lia.
  - destruct (Z.leb_spec 0 (Z.of_nat (List.length l) + i)) as [P' | N'].
    + rewrite nth_error_None. lia.
    + split; [lia | reflexivity].
Qed.

Lemma zip_with_length {A B C : Type} (f : A -> B -> C) (xs : list A) (ys : list B) :
  List.length (TaxPredictor.zip_with f xs ys)
  = Nat.min (List.length xs) (List.length ys).
Proof.
  revert ys. induction xs as [| x xs IH]; intros [| y ys]; cbn; auto.
Qed.

Lemma Forall_zip_with {A B C : Type} (f : A -> B -> C)
    (P : A -> Prop) (Q : B -> Prop) (R : C -> Prop) (xs : list A) (ys : list B) :
  (forall a b, P a -> Q b -> R (f a b)) ->
  Forall P xs -> Forall Q ys -> Forall R (TaxPredictor.zip_with f xs ys).
Proof.
  intros Hf Hx. revert ys. induction Hx as [| x xs Px Hx IH]; intros ys Hy.
  - constructor.
  - destruct Hy as [| y ys Qy Hy]; cbn; constructor; auto.
Qed.

Section PredictorFacts.

Import TaxPredictor.

Variable RandomState : Type.
Variable mt19937_seeded : Z -> RandomState.
Variable randint : Z -> Z -> nat -> RandomState -> list Z * RandomState.
Variable uniform : Q -> Q -> nat -> RandomState -> list Q * RandomState.
Variable DecisionTreeClassifier : Type.
Variable fit :
  nat -> list (list Q) -> list Z -> RandomState -> DecisionTreeClassifier * RandomState.
Variable predict : DecisionTreeClassifier -> list Q -> Z.
Variable predict_proba : DecisionTreeClassifier -> list Q -> list Q.

(** X12.  [predict_regime] fails (IndexError at [probability[prediction]])
    exactly when the predicted label is not an index of the probability
    row: at least its length, or below minus its length. *)
Theorem predict_regime_index_error
    (self : TaxRegimePredictor DecisionTreeClassifier)
    (income investments_80c health_insurance hra home_loan edu_loan age : Z) :
  let row :=
    map inject_Z
      [income; investments_80c; health_insurance; hra; home_loan; edu_loan; age;
       (investments_80c + health_insurance + hra + home_loan + edu_loan)%Z] in
  let prediction := predict (model _ self) row in
  let classes := Z.of_nat (List.length (predict_proba (model _ self) row)) in
  predict_regime _ predict predict_proba self
    income investments_80c health_insurance hra home_loan edu_loan age = None
  <-> (prediction < - classes \/ classes <= prediction)%Z.
Proof.
  intros row prediction classes. unfold predict_regime.
  fold row. fold prediction. unfold classes. rewrite <- py_index_none.
  destruct (py_index (predict_proba (model _ self) row) prediction);
    split; (discriminate || reflexivity).
Qed.


(** What is assumed of numpy: a draw of [n] values has [n] entries, and
    [randint(low, high, n)] stays within [low <= v < high]. *)
Hypothesis randint_length :
  forall low high n g, List.length (fst (randint low high n g)) = n.
Hypothesis randint_range :
  forall low high n g, (low < high)%Z ->
    Forall (fun v => (low <= v < high)%Z) (fst (randint low high n g)).
Hypothesis uniform_length :
  forall low high n g, List.length (fst (uniform low high n g)) = n.

Lemma np_clip_range (a : list Q) (a_min a_max : Q) :
  a_min <= a_max -> Forall (fun v => a_min <= v <= a_max) (np_clip a a_min a_max).
Proof.
  intros H. unfold np_clip. apply Forall_map, Forall_forall. intros v _.
  split.
  - apply Q.min_glb; [apply Q.le_max_r | exact H].
  - apply Q.le_min_r.
Qed.

Lemma np_where_binary (cond : list bool) :
  Forall (fun v => v = 0%Z \/ v = 1%Z) (np_where cond 1 0).
Proof.
  unfold np_where. apply Forall_map, Forall_forall. intros [] _; auto.
Qed.

(** X14.  The training table, for a generator that draws as many values as
    asked and keeps [randint] within its bounds: nine columns of 100 rows;
    incomes in [300000, 2500000), ages in [22, 70); 80C deductions clipped
    to [0, 150000]; total deductions not negative; every label 0 or 1. *)
Theorem training_data_shape (g : RandomState) :
  let td := fst (_generate_training_data _ mt19937_seeded randint uniform g) in
  (List.length (Income td) = 100%nat /\
   List.length (Investments_80C td) = 100%nat /\
   List.length (Health_Insurance td) = 100%nat /\
   List.length (HRA td) = 100%nat /\
   List.length (Home_Loan td) = 100%nat /\
   List.length (Edu_Loan td) = 100%nat /\
   List.length (Age td) = 100%nat /\
   List.length (Total_Deductions td) = 100%nat /\
   List.length (Best_Regime td) = 100%nat) /\
  Forall (fun v => (300000 <= v < 2500000)%Z) (Income td) /\
  Forall (fun v => 0 <= v <= 150000) (Investments_80C td) /\
  Forall (fun v => (22 <= v < 70)%Z) (Age td) /\
  Forall (fun v => 0 <= v) (Total_Deductions td) /\
  Forall (fun v => v = 0%Z \/ v = 1%Z) (Best_Regime td).
Proof.
  unfold _generate_training_data, bind, ret, np_random_seed.
  set (g0 := mt19937_seeded 42).
  pose proof (randint_length 300000 2500000 100 g0) as L1.
  pose proof (randint_range 300000 2500000 100 g0 ltac:(lia)) as R1.
  destruct (randint 300000 2500000 100 g0) as [income g1].
  pose proof (uniform_length 0.05 0.15 100 g1) as L2.
  destruct (uniform 0.05 0.15 100 g1) as [u g2].
  pose proof (randint_length 0 50000 100 g2) as L3.
  pose proof (randint_range 0 50000 100 g2 ltac:(lia)) as R3.
  destruct (randint 0 50000 100 g2) as [ded_80d g3].
  pose proof (randint_length 0 200000 100 g3) as L4.
  pose proof (randint_range 0 200000 100 g3 ltac:(lia)) as R4.
  destruct (randint 0 200000 100 g3) as [hra g4].
  pose proof (randint_length 0 300000 100 g4) as L5.
  pose proof (randint_range 0 300000 100 g4 ltac:(lia)) as R5.
  destruct (randint 0 300000 100 g4) as [home_loan g5].
  pose proof (randint_length 0 100000 100 g5) as L6.
  pose proof (randint_range 0 100000 100 g5 ltac:(lia)) as R6.
  destruct (randint 0 100000 100 g5) as [edu_loan g6].
  pose proof (randint_length 22 70 100 g6) as L7.
  pose proof (randint_range 22 70 100 g6 ltac:(lia)) as R7.
  destruct (randint 22 70 100 g6) as [age g7].
  cbn [fst] in *.
  cbn [Income Investments_80C Health_Insurance HRA Home_Loan Edu_Loan Age
       Total_Deductions Best_Regime].
  set (ded_80c := np_clip (zip_with (fun i f => inject_Z i * f) income u) 0 150000).
  assert (Lc : List.length ded_80c = 100%nat).
  { unfold ded_80c, np_clip. rewrite length_map, zip_with_length. lia. }
  assert (Rc : Forall (fun v => 0 <= v <= 150000) ded_80c)
    by (apply np_clip_range; lra).
  assert (Hadd : forall (xs : list Q) (ys : list Z) lo,
            Forall (fun v => 0 <= v) xs -> (Forall (fun v => (0 <= v < lo)%Z) ys) ->
            Forall (fun v => 0 <= v) (zip_with (fun a b => a + inject_Z b) xs ys)).
  { intros xs ys lo Hx Hy.
    apply (Forall_zip_with _ (fun v => 0 <= v) (fun v => (0 <= v < lo)%Z)); try assumption.
    intros a b Ha Hb. assert (inject_Z 0 <= inject_Z b) by (rewrite <- Zle_Qle; lia).
    unfold inject_Z at 1 in H. lra. }
  repeat split; try assumption.
  - rewrite !zip_with_length. lia.
  - unfold np_where. rewrite !length_map, !zip_with_length. lia.
  - apply (Hadd _ _ 100000%Z); [| assumption].
    apply (Hadd _ _ 300000%Z); [| assumption].
    apply (Hadd _ _ 200000%Z); [| assumption].
    apply (Hadd _ _ 50000%Z); [| assumption].
    revert Rc. apply Forall_impl. intros v Hv. lra.
  - apply np_where_binary.
Qed.

End PredictorFacts.


Lemma training_data_shape_witness :
  List.length
    (TaxPredictor.Income
       (fst (TaxPredictor._generate_training_data unit (fun _ => tt)
               (fun low _ n _ => (repeat low n, tt))
               (fun low _ n _ => (repeat low n, tt)) tt))) = 100%nat /\
  Forall (fun v => 0 <= v <= 150000)
    (TaxPredictor.Investments_80C
       (fst (TaxPredictor._generate_training_data unit (fun _ => tt)
               (fun low _ n _ => (repeat low n, tt))
               (fun low _ n _ => (repeat low n, tt)) tt))) /\
  Forall (fun v => v = 0%Z \/ v = 1%Z)
    (TaxPredictor.Best_Regime
       (fst (TaxPredictor._generate_training_data unit (fun _ => tt)
               (fun low _ n _ => (repeat low n, tt))
               (fun low _ n _ => (repeat low n, tt)) tt))).
Proof.
  destruct (training_data_shape unit (fun _ => tt)
              (fun low _ n _ => (repeat low n, tt))
              (fun low _ n _ => (repeat low n, tt))) with (g := tt)
    as ((L & _) & _ & R & _ & _ & B).
  - intros low high n g. cbn [fst]. apply repeat_length.
  - intros low high n g H. cbn [fst]. apply Forall_forall. intros v Hv.
    apply repeat_spec in Hv. lia.
  - intros low high n g. cbn [fst]. apply repeat_length.
  - split; [exact L |]. split; [exact R | exact B].
Defined.

(** ** Accuracy of the amounts computed in binary64 *)

Module Binary64Accuracy.

Import Binary64 Rounding Binary64Facts Binary64Edges Reading Bounds.
Local Open Scope Z_scope.

Lemma fmul_accurate (a c : spec_float) :
  finite_nonneg a -> finite_nonneg c ->
  2 ^ (53 + 1074) <= ord a * ord c -> ord (fmul a c) < top ->
  (2 ^ 52 - 1) * (ord a * ord c) <= 2 ^ 52 * (ord (fmul a c) * 2 ^ 1074)
    <= (2 ^ 52 + 1) * (ord a * ord c).
Proof.
  intros Fa Fc HV Ht. rewrite fmul_finite in * by assumption.
  change 2148 with (1074 + 1074) in *.
  now apply round_scaled_error.
Qed.

Lemma fadd_accurate (a b : spec_float) :
  finite_nonneg a -> finite_nonneg b ->
  2 ^ 53 <= ord a + ord b -> ord (fadd a b) < top ->
  (2 ^ 52 - 1) * (ord a + ord b) <= 2 ^ 52 * ord (fadd a b)
    <= (2 ^ 52 + 1) * (ord a + ord b).
Proof.
  intros Fa Fb HV Ht. rewrite fadd_finite in * by assumption.
  pose proof (round_scaled_error 0 (ord a + ord b) ltac:(lia) HV) as E.
  change (1074 + 0) with 1074 in E. change (2 ^ 0) with 1 in E.
  rewrite Z.mul_1_r in E. now apply E.
Qed.

Local Open Scope Q_scope.

Lemma scale_pos : 0 < scale.
Proof.
  unfold scale. change 0 with (inject_Z 0). rewrite <- Zlt_Qlt.
  apply pow2_pos. lia.
Qed.

Lemma float_value_ord (f : spec_float) :
  finite_nonneg f -> float_value f == inject_Z (ord f) / scale.
Proof.
  destruct f as [[] | [] | | [] m e]; cbn [finite_nonneg]; try tauto; intros H;
    try (cbn [float_value ord]; unfold Qdiv; rewrite Qmult_0_l; reflexivity).
  pose proof (good_finite_bounds m e H) as (He & _). unfold emin in He.
  cbn [float_value ord]. unfold scale.
  rewrite inject_Z_mult, !Zpower_Qpower by lia.
  rewrite Qpower_plus by discriminate.
  change (inject_Z 2) with 2.
  field.
Qed.

Lemma lo_bounds (k : nat) : 0 < lo k <= 1.
Proof. induction k as [| k IH]; cbn [lo]; unfold delta; lra. Qed.

Lemma hi_bounds (k : nat) : 1 <= hi k.
Proof. induction k as [| k IH]; cbn [hi]; unfold delta; lra. Qed.

Lemma lo_add (j k : nat) : lo (j + k) == lo j * lo k.
Proof. induction j as [| j IH]; cbn [lo Nat.add]; [ring | rewrite IH; ring]. Qed.

Lemma hi_add (j k : nat) : hi (j + k) == hi j * hi k.
Proof. induction j as [| j IH]; cbn [hi Nat.add]; [ring | rewrite IH; ring]. Qed.

Lemma near_exact (e : Q) : near 0 e e.
Proof. unfold near. cbn [lo hi]. lra. Qed.

Lemma near_nonneg (k : nat) (v e : Q) : 0 <= e -> near k v e -> 0 <= v.
Proof.
  intros He [L _]. pose proof (lo_bounds k).
  pose proof (Qmult_le_0_compat (lo k) e ltac:(lra) He). lra.
Qed.

Lemma near_weaken (k : nat) (v e : Q) : 0 <= e -> near k v e -> near (S k) v e.
Proof.
  intros He [L U]. unfold near. cbn [lo hi].
  pose proof (lo_bounds k). pose proof (hi_bounds k).
  pose proof (Qmult_le_0_compat (lo k) e ltac:(lra) He).
  pose proof (Qmult_le_0_compat (hi k) e ltac:(lra) He).
  unfold delta. split; lra.
Qed.

Lemma near_weaken_to (j k : nat) (v e : Q) :
  (j <= k)%nat -> 0 <= e -> near j v e -> near k v e.
Proof.
  intros Hjk He H. induction Hjk as [| k Hjk IH]; [exact H |].
  now apply near_weaken.
Qed.

Lemma near_round (k : nat) (v r e : Q) :
  near k v e -> (1 - delta) * v <= r <= (1 + delta) * v -> near (S k) r e.
Proof. intros [L U] [Lr Ur]. unfold near. cbn [lo hi]. unfold delta in *. split; lra. Qed.

Lemma near_add (k : nat) (a b e1 e2 : Q) :
  near k a e1 -> near k b e2 -> near k (a + b) (e1 + e2).
Proof. intros [La Ua] [Lb Ub]. unfold near. split; lra. Qed.

Lemma near_mul (j k : nat) (a b e1 e2 : Q) :
  0 <= e1 -> 0 <= e2 -> near j a e1 -> near k b e2 ->
  near (j + k) (a * b) (e1 * e2).
Proof.
  intros H1 H2 Na Nb.
  pose proof (near_nonneg _ _ _ H1 Na) as Pa.
  pose proof (near_nonneg _ _ _ H2 Nb) as Pb.
  destruct Na as [La Ua], Nb as [Lb Ub].
  pose proof (lo_bounds j). pose proof (lo_bounds k).
  pose proof (Qmult_le_0_compat (lo j) e1 ltac:(lra) H1) as Xa.
  pose proof (Qmult_le_0_compat (lo k) e2 ltac:(lra) H2) as Xb.
  pose proof (Qmult_le_compat_nonneg _ _ _ _ (conj Xa La) (conj Xb Lb)) as L.
  pose proof (Qmult_le_compat_nonneg _ _ _ _ (conj Pa Ua) (conj Pb Ub)) as U.
  unfold near. rewrite lo_add, hi_add. split; lra.
Qed.

Lemma near_eq (k : nat) (v e e' : Q) : e == e' -> near k v e -> near k v e'.
Proof. intros E [L U]. unfold near. rewrite <- E. now split. Qed.

(** From the integer form of the error bound to the rational one. *)
Lemma relative_Q (A R : Z) (d : Q) :
  0 < d ->
  ((2 ^ 52 - 1) * A <= 2 ^ 52 * R <= (2 ^ 52 + 1) * A)%Z ->
  (1 - delta) * (inject_Z A / d) <= inject_Z R / d <= (1 + delta) * (inject_Z A / d).
Proof.
  intros Hd [L U].
  rewrite Zle_Qle in L, U. rewrite !inject_Z_mult in L, U.
  change (inject_Z (2 ^ 52 - 1)) with 4503599627370495 in L.
  change (inject_Z (2 ^ 52 + 1)) with 4503599627370497 in U.
  change (inject_Z (2 ^ 52)) with 4503599627370496 in L, U.
  assert (Hi : 0 < / d) by now apply Qinv_lt_0_compat.
  unfold Qdiv. unfold delta.
  assert (L' : (1 - (1 # 4503599627370496)) * inject_Z A <= inject_Z R) by lra.
  assert (U' : inject_Z R <= (1 + (1 # 4503599627370496)) * inject_Z A) by lra.
  pose proof (Qmult_le_compat_r _ _ (/ d) L' ltac:(lra)) as L''.
  pose proof (Qmult_le_compat_r _ _ (/ d) U' ltac:(lra)) as U''.
  split; lra.
Qed.

Lemma fadd_near (a b : spec_float) :
  finite_nonneg a -> finite_nonneg b ->
  (2 ^ 53 <= ord a + ord b)%Z -> finite_nonneg (fadd a b) ->
  (1 - delta) * (float_value a + float_value b) <= float_value (fadd a b)
    <= (1 + delta) * (float_value a + float_value b).
Proof.
  intros Fa Fb HV Fr. pose proof (finite_nonneg_ord _ Fr) as Br.
  pose proof (fadd_accurate a b Fa Fb HV ltac:(lia)) as E.
  apply (relative_Q _ _ scale scale_pos) in E.
  rewrite !float_value_ord by assumption.
  rewrite inject_Z_plus in E. unfold Qdiv in *. split; lra.
Qed.

Lemma fmul_near (a c : spec_float) :
  finite_nonneg a -> finite_nonneg c ->
  (2 ^ (53 + 1074) <= ord a * ord c)%Z -> finite_nonneg (fmul a c) ->
  (1 - delta) * (float_value a * float_value c) <= float_value (fmul a c)
    <= (1 + delta) * (float_value a * float_value c).
Proof.
  intros Fa Fc HV Fr. pose proof (finite_nonneg_ord _ Fr) as Br.
  pose proof (fmul_accurate a c Fa Fc HV ltac:(lia)) as E.
  pose proof scale_pos as Hu.
  assert (Hu2 : 0 < scale * scale) by (apply Qmult_lt_0_compat; assumption).
  apply (relative_Q _ _ (scale * scale) Hu2) in E.
  rewrite !float_value_ord by assumption.
  rewrite !inject_Z_mult in E. fold scale in E.
  assert (E1 : inject_Z (ord a) * inject_Z (ord c) / (scale * scale)
               == inject_Z (ord a) / scale * (inject_Z (ord c) / scale))
    by (field; lra).
  assert (E2 : inject_Z (ord (fmul a c)) * scale / (scale * scale)
               == inject_Z (ord (fmul a c)) / scale)
    by (field; lra).
  rewrite E1, E2 in E. exact E.
Qed.

(** ** The literals *)

Lemma literals_near :
  near 1 (float_value lit_0_04) (4 # 100) /\
  near 1 (float_value lit_0_05) (5 # 100) /\
  near 1 (float_value lit_0_1) (1 # 10) /\
  near 1 (float_value lit_0_15) (15 # 100) /\
  near 1 (float_value lit_0_2) (2 # 10) /\
  near 1 (float_value lit_0_3) (3 # 10).
Proof. repeat split; vm_compute; discriminate. Qed.

Lemma float_of_int_value (n : Z) :
  (0 <= n < 2 ^ 53)%Z ->
  exists f, float_of_int n = Some f /\ finite_nonneg f /\
            ord f = (n * 2 ^ 1074)%Z /\ float_value f == inject_Z n.
Proof.
  intros Hn. destruct (float_of_int_exact n Hn) as (f & Ef & Ff & Of).
  exists f. repeat split; try assumption.
  rewrite float_value_ord, Of, inject_Z_mult by assumption. fold scale.
  pose proof scale_pos. field. lra.
Qed.

(** ** A slab [(x - b) * c] and a slab [k + (x - b) * c] *)

Lemma int_mul_near (n : Z) (m : positive) (e : Z) (c' : Q) (r : spec_float) :
  bounded prec emax m e = true ->
  (2 ^ 1001 <= ord (S754_finite false m e))%Z ->
  0 <= c' -> near 1 (float_value (S754_finite false m e)) c' ->
  (1 <= n < 2 ^ 53)%Z ->
  int_mul n (S754_finite false m e) = Some r -> finite_nonneg r ->
  near 2 (float_value r) (inject_Z n * c') /\ (2 ^ 1000 <= ord r)%Z.
Proof.
  intros Hb HC Hc' Nc Hn Hr Fr.
  pose proof (finite_nonneg_ord _ Fr) as Br.
  assert (H53 : (2 ^ 53 <= 2 ^ 1001)%Z) by (apply pow2_le; lia).
  destruct (int_mul_accurate n m e r Hb ltac:(lia) Hn Hr ltac:(lia)) as (_ & L & U).
  unfold int_mul in Hr.
  destruct (float_of_int_value n ltac:(lia)) as (f & Ef & Ff & Of & Vf).
  rewrite Ef in Hr. injection Hr as <-.
  set (c := S754_finite false m e) in *.
  assert (HV : (2 ^ (53 + 1074) <= ord f * ord c)%Z).
  { rewrite Of, Z.pow_add_r by lia.
    pose proof (pow2_pos 1074 ltac:(lia)).
    replace (n * 2 ^ 1074 * ord c)%Z with (ord c * (n * 2 ^ 1074))%Z by ring.
    apply Z.mul_le_mono_nonneg; lia. }
  split.
  - apply (near_round 1 (float_value f * float_value c)).
    + apply (near_mul 0 1); try assumption.
      * change 0 with (inject_Z 0). rewrite <- Zle_Qle. lia.
      * apply (near_eq 0 _ (float_value f)); [exact Vf | apply near_exact].
    + now apply fmul_near.
  - replace (2 ^ 1001)%Z with (2 * 2 ^ 1000)%Z in HC
      by (rewrite <- (Z.pow_succ_r 2 1000) by lia; reflexivity).
    pose proof (pow2_pos 1000 ltac:(lia)) as HP.
    set (P := (2 ^ 1000)%Z) in *.
    assert (ord c <= n * ord c)%Z by nia.
    change (2 ^ 52)%Z with 4503599627370496%Z in L. lia.
Qed.

Lemma int_add_near (k : Z) (p : option spec_float) (e' : Q) (r : spec_float) :
  (1 <= k < 2 ^ 53)%Z -> 0 <= e' ->
  (forall t, p = Some t -> good t /\ (finite_nonneg t -> near 2 (float_value t) e')) ->
  int_add k p = Some r -> finite_nonneg r ->
  near 3 (float_value r) (inject_Z k + e') /\ (2 ^ 1000 <= ord r)%Z.
Proof.
  intros Hk He' Hp Hr Fr. unfold int_add in Hr.
  destruct p as [t |]; [| discriminate].
  destruct (Hp t eq_refl) as [Gt Nt].
  destruct (float_of_int_value k ltac:(lia)) as (c & Ec & Fc & Oc & Vc).
  rewrite Ec in Hr. injection Hr as <-.
  assert (Ft : finite_nonneg t).
  { apply good_cases in Gt. destruct Gt as [F | ->]; [exact F |].
    rewrite fadd_infinity_r in Fr by now apply finite_nonneg_good.
    destruct Fr. }
  specialize (Nt Ft). pose proof (finite_nonneg_ord _ Ft) as Bt.
  assert (H1 : (2 * 2 ^ 1000 <= ord c)%Z).
  { rewrite Oc. replace 1074%Z with (74 + 1000)%Z by lia.
    rewrite (Z.pow_add_r 2 74 1000) by lia.
    pose proof (pow2_pos 1000 ltac:(lia)).
    change (2 ^ 74)%Z with 18889465931478580854784%Z. nia. }
  assert (H53 : (2 ^ 53 <= 2 ^ 1000)%Z) by (apply pow2_le; lia).
  pose proof (pow2_pos 1000 ltac:(lia)) as HP.
  assert (HV : (2 ^ 53 <= ord c + ord t)%Z) by lia.
  split.
  - apply (near_round 2 (float_value c + float_value t)).
    + apply near_add; [| exact Nt].
      apply (near_weaken_to 0 2); [lia | |].
      * change 0 with (inject_Z 0). rewrite <- Zle_Qle. lia.
      * apply (near_eq 0 _ (float_value c)); [exact Vc | apply near_exact].
    + now apply fadd_near.
  - pose proof (finite_nonneg_ord _ Fr) as Br.
    pose proof (fadd_accurate c t Fc Ft HV ltac:(lia)) as [L _].
    set (P := (2 ^ 1000)%Z) in *.
    change (2 ^ 52)%Z with 4503599627370496%Z in L. lia.
Qed.

(** ** Cess and total *)

Lemma lit_0_04_large : (2 ^ 1001 <= ord lit_0_04)%Z.
Proof.
  rewrite lit_0_04_ord. replace 1017%Z with (16 + 1001)%Z by lia.
  rewrite (Z.pow_add_r 2 16 1001) by lia.
  pose proof (pow2_pos 1001 ltac:(lia)). change (2 ^ 16)%Z with 65536%Z. nia.
Qed.

Lemma breakdown_of_near (a : spec_float) (b : TaxBreakdown) (e' : Q) :
  breakdown_of (Some a) = Some b ->
  finite_nonneg (base_tax b) -> finite_nonneg (cess b) -> finite_nonneg (total_tax b) ->
  (2 ^ 1000 <= ord a)%Z -> 0 <= e' -> near 3 (float_value a) e' ->
  near 6 (float_value (total_tax b)) ((104 # 100) * e').
Proof.
  intros [= <-]. cbn [base_tax cess total_tax]. intros Fa Fc Ft Ha He' Na.
  pose proof (finite_nonneg_ord _ Fa) as Ba.
  pose proof (finite_nonneg_ord _ Fc) as Bc.
  destruct literals_near as (N04 & _).
  assert (F04 : finite_nonneg lit_0_04) by reflexivity.
  pose proof lit_0_04_large as H04.
  assert (HV : (2 ^ (53 + 1074) <= ord a * ord lit_0_04)%Z).
  { apply Z.le_trans with (2 ^ 1000 * 2 ^ 1001)%Z.
    - rewrite <- Z.pow_add_r by lia. apply pow2_le. lia.
    - pose proof (pow2_pos 1000 ltac:(lia)). pose proof (pow2_pos 1001 ltac:(lia)).
      apply Z.mul_le_mono_nonneg; lia. }
  assert (H53 : (2 ^ 53 <= 2 ^ 1000)%Z) by (apply pow2_le; lia).
  assert (Nc : near 5 (float_value (fmul a lit_0_04)) (e' * (4 # 100))).
  { apply (near_round 4 (float_value a * float_value lit_0_04)).
    - apply (near_mul 3 1); try assumption; try lra.
    - now apply fmul_near. }
  apply (near_eq 6 _ (e' + e' * (4 # 100))); [ring |].
  apply (near_round 5 (float_value a + float_value (fmul a lit_0_04))).
  - apply near_add; [| exact Nc].
    apply (near_weaken_to 3 5); [lia | assumption | assumption].
  - apply fadd_near; try assumption. lia.
Qed.

Lemma int_mul_good (n : Z) (m : positive) (e : Z) (t : spec_float) :
  bounded prec emax m e = true -> (0 <= n)%Z ->
  int_mul n (S754_finite false m e) = Some t -> good t.
Proof.
  intros Hb Hn H.
  now destruct (int_mul_mono n n m e t t Hb ltac:(lia) H H).
Qed.

Lemma scaled_total_near (B : Z) (m : positive) (e : Z) (c' : Q) (x : Z)
    (b : TaxBreakdown) :
  breakdown_of (int_mul (x - B) (S754_finite false m e)) = Some b ->
  bounded prec emax m e = true ->
  (2 ^ 1001 <= ord (S754_finite false m e))%Z ->
  0 <= c' -> near 1 (float_value (S754_finite false m e)) c' ->
  (B < x)%Z -> (x - B < 2 ^ 53)%Z ->
  finite_nonneg (base_tax b) -> finite_nonneg (cess b) -> finite_nonneg (total_tax b) ->
  near 6 (float_value (total_tax b)) ((104 # 100) * (inject_Z (x - B) * c')).
Proof.
  intros H Hb HC Hc' Nc HB Hx Fb Fc Ft.
  destruct (breakdown_shape _ _ H) as (Ea & _). rewrite Ea in H.
  destruct (int_mul_near (x - B) m e c' (base_tax b) Hb HC Hc' Nc ltac:(lia) Ea Fb)
    as [N L].
  assert (P : 0 <= inject_Z (x - B) * c').
  { apply Qmult_le_0_compat; [| assumption].
    change 0 with (inject_Z 0). rewrite <- Zle_Qle. lia. }
  apply (breakdown_of_near (base_tax b)); try assumption.
  now apply near_weaken.
Qed.

Lemma affine_total_near (K B : Z) (m : positive) (e : Z) (c' : Q) (x : Z)
    (b : TaxBreakdown) :
  breakdown_of (int_add K (int_mul (x - B) (S754_finite false m e))) = Some b ->
  bounded prec emax m e = true ->
  (2 ^ 1001 <= ord (S754_finite false m e))%Z ->
  0 <= c' -> near 1 (float_value (S754_finite false m e)) c' ->
  (1 <= K < 2 ^ 53)%Z -> (B < x)%Z -> (x - B < 2 ^ 53)%Z ->
  finite_nonneg (base_tax b) -> finite_nonneg (cess b) -> finite_nonneg (total_tax b) ->
  near 6 (float_value (total_tax b))
         ((104 # 100) * (inject_Z K + inject_Z (x - B) * c')).
Proof.
  intros H Hb HC Hc' Nc HK HB Hx Fb Fc Ft.
  destruct (breakdown_shape _ _ H) as (Ea & _). rewrite Ea in H.
  assert (P : 0 <= inject_Z (x - B) * c').
  { apply Qmult_le_0_compat; [| assumption].
    change 0 with (inject_Z 0). rewrite <- Zle_Qle. lia. }
  assert (PK : 0 <= inject_Z K)
    by (change 0 with (inject_Z 0); rewrite <- Zle_Qle; lia).
  assert (Hp : forall t, int_mul (x - B) (S754_finite false m e) = Some t ->
            good t /\ (finite_nonneg t ->
                       near 2 (float_value t) (inject_Z (x - B) * c'))).
  { intros t Et. split; [apply (int_mul_good (x - B) m e t Hb ltac:(lia) Et) |].
    intros F. now apply (int_mul_near (x - B) m e c' t Hb HC Hc' Nc ltac:(lia) Et F). }
  destruct (int_add_near K (int_mul (x - B) (S754_finite false m e))
              (inject_Z (x - B) * c') (base_tax b) HK P Hp Ea Fb) as [N L].
  apply (breakdown_of_near (base_tax b)); try assumption. lra.
Qed.

Lemma inject_Z_sub (x y : Z) : inject_Z (x - y) = inject_Z x - inject_Z y.
Proof. unfold Z.sub, Qminus. now rewrite inject_Z_plus, inject_Z_opp. Qed.

Ltac literal_facts :=
  first [ reflexivity
        | lra
        | apply literals_near
        | (vm_compute; discriminate) ].

Theorem total_near_old (x : Z) (b : TaxBreakdown) :
  (x < 2 ^ 53)%Z -> calculate_old_regime_tax x = Some b ->
  near 6 (float_value (total_tax b))
    (TaxCalculator.total_tax (TaxCalculator.calculate_old_regime_tax (inject_Z x))).
Proof.
  intros Hx H.
  destruct (breakdown_finite x b (or_introl H)) as (Fb & Fc & Ft & _).
  destruct literals_near as (_ & N05 & _ & _ & N2 & N3).
  eapply near_eq; [symmetry; apply total_tax_old |].
  unfold calculate_old_regime_tax, old_regime_slab in H.
  destruct (Z.leb_spec x 250000) as [L1 | L1].
  { injection H as <-. rewrite old_regime_slab_1
      by (change 250000 with (inject_Z 250000); rewrite <- Zle_Qle; exact L1).
    unfold near, TaxCalculator.old_slab_1. cbn [float_value total_tax]. lra. }
  destruct (Z.leb_spec x 500000) as [L2 | L2].
  { rewrite old_regime_slab_2
      by (change 250000 with (inject_Z 250000); change 500000 with (inject_Z 500000);
          rewrite <- Zlt_Qlt, <- Zle_Qle; lia).
    unfold TaxCalculator.old_slab_2. change 250000 with (inject_Z 250000).
    rewrite <- inject_Z_sub.
    apply (scaled_total_near 250000 _ _ _ x b H); try assumption; try lia; literal_facts. }
  destruct (Z.leb_spec x 1000000) as [L3 | L3].
  { rewrite old_regime_slab_3
      by (change 500000 with (inject_Z 500000); change 1000000 with (inject_Z 1000000);
          rewrite <- Zlt_Qlt, <- Zle_Qle; lia).
    unfold TaxCalculator.old_slab_3. change 500000 with (inject_Z 500000).
    rewrite <- inject_Z_sub. change 12500 with (inject_Z 12500).
    apply (affine_total_near 12500 500000 _ _ _ x b H); try assumption; try lia;
      literal_facts. }
  rewrite old_regime_slab_4
    by (change 1000000 with (inject_Z 1000000); rewrite <- Zlt_Qlt; lia).
  unfold TaxCalculator.old_slab_4. change 1000000 with (inject_Z 1000000).
  rewrite <- inject_Z_sub. change 112500 with (inject_Z 112500).
  apply (affine_total_near 112500 1000000 _ _ _ x b H); try assumption; try lia;
    literal_facts.
Qed.

Theorem total_near_new (x : Z) (b : TaxBreakdown) :
  (x < 2 ^ 53)%Z -> calculate_new_regime_tax x = Some b ->
  near 6 (float_value (total_tax b))
    (TaxCalculator.total_tax (TaxCalculator.calculate_new_regime_tax (inject_Z x))).
Proof.
  intros Hx H.
  destruct (breakdown_finite x b (or_intror H)) as (Fb & Fc & Ft & _).
  destruct literals_near as (_ & N05 & N1 & N15 & N2 & N3).
  eapply near_eq; [symmetry; apply total_tax_new |].
  unfold calculate_new_regime_tax, new_regime_slab in H.
  destruct (Z.leb_spec x 300000) as [L1 | L1].
  { injection H as <-. rewrite new_regime_slab_1
      by (change 300000 with (inject_Z 300000); rewrite <- Zle_Qle; exact L1).
    unfold near, TaxCalculator.new_slab_1. cbn [float_value total_tax]. lra. }
  destruct (Z.leb_spec x 600000) as [L2 | L2].
  { rewrite new_regime_slab_2
      by (change 300000 with (inject_Z 300000); change 600000 with (inject_Z 600000);
          rewrite <- Zlt_Qlt, <- Zle_Qle; lia).
    unfold TaxCalculator.new_slab_2. change 300000 with (inject_Z 300000).
    rewrite <- inject_Z_sub.
    apply (scaled_total_near 300000 _ _ _ x b H); try assumption; try lia; literal_facts. }
  destruct (Z.leb_spec x 900000) as [L3 | L3].
  { rewrite new_regime_slab_3
      by (change 600000 with (inject_Z 600000); change 900000 with (inject_Z 900000);
          rewrite <- Zlt_Qlt, <- Zle_Qle; lia).
    unfold TaxCalculator.new_slab_3. change 600000 with (inject_Z 600000).
    rewrite <- inject_Z_sub. change 15000 with (inject_Z 15000).
    apply (affine_total_near 15000 600000 _ _ _ x b H); try assumption; try lia;
      literal_facts. }
  destruct (Z.leb_spec x 1200000) as [L4 | L4].
  { rewrite new_regime_slab_4
      by (change 900000 with (inject_Z 900000); change 1200000 with (inject_Z 1200000);
          rewrite <- Zlt_Qlt, <- Zle_Qle; lia).
    unfold TaxCalculator.new_slab_4. change 900000 with (inject_Z 900000).
    rewrite <- inject_Z_sub. change 45000 with (inject_Z 45000).
    apply (affine_total_near 45000 900000 _ _ _ x b H); try assumption; try lia;
      literal_facts. }
  destruct (Z.leb_spec x 1500000) as [L5 | L5].
  { rewrite new_regime_slab_5
      by (change 1200000 with (inject_Z 1200000); change 1500000 with (inject_Z 1500000);
          rewrite <- Zlt_Qlt, <- Zle_Qle; lia).
    unfold TaxCalculator.new_slab_5. change 1200000 with (inject_Z 1200000).
    rewrite <- inject_Z_sub. change 90000 with (inject_Z 90000).
    apply (affine_total_near 90000 1200000 _ _ _ x b H); try assumption; try lia;
      literal_facts. }
  rewrite new_regime_slab_6
    by (change 1500000 with (inject_Z 1500000); rewrite <- Zlt_Qlt; lia).
  unfold TaxCalculator.new_slab_6. change 1500000 with (inject_Z 1500000).
  rewrite <- inject_Z_sub. change 150000 with (inject_Z 150000).
  apply (affine_total_near 150000 1500000 _ _ _ x b H); try assumption; try lia;
    literal_facts.
Qed.

(** Six steps are less than one part in [2^49]. *)
Lemma six_steps : 1 - (1 # 562949953421312) <= lo 6 /\ hi 6 <= 1 + (1 # 562949953421312).
Proof. split; vm_compute; discriminate. Qed.

Lemma near_6_abs (v e : Q) :
  0 <= e -> near 6 v e -> Qabs (v - e) <= e * (1 # 562949953421312).
Proof.
  intros He [L U]. destruct six_steps as [SL SU].
  pose proof (Qmult_le_compat_r _ _ e SL He) as L'.
  pose proof (Qmult_le_compat_r _ _ e SU He) as U'.
  apply Qabs_Qle_condition. split; lra.
Qed.

End Binary64Accuracy.


Lemma old_regime_slab_share (x : Q) : 0 <= x -> old_regime_slab x <= (3 # 10) * x.
Proof.
  intros H. unfold old_regime_slab, old_slab_1, old_slab_2, old_slab_3, old_slab_4.
  slab_cases x; lra.
Qed.

Lemma new_regime_slab_share (x : Q) : 0 <= x -> new_regime_slab x <= (3 # 10) * x.
Proof.
  intros H.
  unfold new_regime_slab, new_slab_1, new_slab_2, new_slab_3, new_slab_4,
    new_slab_5, new_slab_6.
  slab_cases x; lra.
Qed.

(** X15.  For every integer income below [2^53] both calculators return in
    binary64, and each total is within one part in [2^49] of the total of
    exact arithmetic; up to an income of [10^10] that is less than a
    hundred-thousandth of a rupee. *)
Theorem binary64_total_accurate (x : Z) :
  (x < 2 ^ 53)%Z ->
  exists old_tax new_tax,
    Binary64.calculate_old_regime_tax x = Some old_tax /\
    Binary64.calculate_new_regime_tax x = Some new_tax /\
    Qabs (float_value (Binary64.total_tax old_tax)
          - total_tax (calculate_old_regime_tax (inject_Z x)))
      <= total_tax (calculate_old_regime_tax (inject_Z x)) * (1 # 2 ^ 49) /\
    Qabs (float_value (Binary64.total_tax new_tax)
          - total_tax (calculate_new_regime_tax (inject_Z x)))
      <= total_tax (calculate_new_regime_tax (inject_Z x)) * (1 # 2 ^ 49) /\
    ((x <= 10 ^ 10)%Z ->
     Qabs (float_value (Binary64.total_tax old_tax)
           - total_tax (calculate_old_regime_tax (inject_Z x))) <= 1 # 100000 /\
     Qabs (float_value (Binary64.total_tax new_tax)
           - total_tax (calculate_new_regime_tax (inject_Z x))) <= 1 # 100000).
Proof.
  intros Hx.
  assert (H1023 : (x <= 2 ^ 1023)%Z).
  { assert (2 ^ 53 <= 2 ^ 1023)%Z by (apply Binary64Facts.pow2_le; lia). lia. }
  destruct (Binary64Facts.calculators_return x H1023) as [[bo Eo] [bn En]].
  exists bo, bn. split; [exact Eo |]. split; [exact En |].
  pose proof (Binary64Accuracy.total_near_old x bo Hx Eo) as No.
  pose proof (Binary64Accuracy.total_near_new x bn Hx En) as Nn.
  pose proof (total_tax_old (inject_Z x)) as To.
  pose proof (total_tax_new (inject_Z x)) as Tn.
  pose proof (old_regime_slab_nonneg (inject_Z x)) as Po.
  pose proof (new_regime_slab_nonneg (inject_Z x)) as Pn.
  assert (PEo : 0 <= total_tax (calculate_old_regime_tax (inject_Z x))) by lra.
  assert (PEn : 0 <= total_tax (calculate_new_regime_tax (inject_Z x))) by lra.
  pose proof (Binary64Accuracy.near_6_abs _ _ PEo No) as Ao.
  pose proof (Binary64Accuracy.near_6_abs _ _ PEn Nn) as An.
  change (1 # 2 ^ 49) with (1 # 562949953421312).
  split; [exact Ao |]. split; [exact An |].
  intros Hs.
  destruct (Z_le_gt_dec x 0) as [Neg | Pos].
  - assert (Hq : inject_Z x <= 0)
      by (change 0 with (inject_Z 0); rewrite <- Zle_Qle; exact Neg).
    assert (old_regime_slab (inject_Z x) == 0)
      by (rewrite old_regime_slab_1 by lra; reflexivity).
    assert (new_regime_slab (inject_Z x) == 0)
      by (rewrite new_regime_slab_1 by lra; reflexivity).
    split; lra.
  - assert (Hq0 : 0 <= inject_Z x)
      by (change 0 with (inject_Z 0); rewrite <- Zle_Qle; lia).
    assert (Hq1 : inject_Z x <= 10000000000)
      by (change 10000000000 with (inject_Z (10 ^ 10)); rewrite <- Zle_Qle; exact Hs).
    pose proof (old_regime_slab_share _ Hq0).
    pose proof (new_regime_slab_share _ Hq0).
    split; lra.
Qed.

Lemma binary64_total_accurate_witness :
  exists old_tax new_tax,
    Binary64.calculate_old_regime_tax 600000 = Some old_tax /\
    Binary64.calculate_new_regime_tax 600000 = Some new_tax /\
    Qabs (float_value (Binary64.total_tax old_tax) - 33800) <= 1 # 100000 /\
    Qabs (float_value (Binary64.total_tax new_tax) - 15600) <= 1 # 100000.
Proof.
  destruct (binary64_total_accurate 600000 ltac:(lia))%Z
    as (bo & bn & Eo & En & _ & _ & Ha).
  exists bo, bn. split; [exact Eo |]. split; [exact En |].
  destruct (Ha ltac:(lia))%Z as [Ao An].
  assert (To : total_tax (calculate_old_regime_tax (inject_Z 600000)) == 33800)
    by (vm_compute; reflexivity).
  assert (Tn : total_tax (calculate_new_regime_tax (inject_Z 600000)) == 15600)
    by (vm_compute; reflexivity).
  rewrite To in Ao. rewrite Tn in An. split; assumption.
Defined.

Lemma near_6_bounds (v e : Q) :
  0 <= e -> Bounds.near 6 v e ->
  e - e * (1 # 562949953421312) <= v <= e + e * (1 # 562949953421312).
Proof.
  intros He N. pose proof (Binary64Accuracy.near_6_abs v e He N) as A.
  apply Qabs_Qle_condition in A. lra.
Qed.

(** X16.  The total tax is at most 31.2% of a non-negative income; in
    binary64, for incomes below [2^53], it stays below a third of the
    income. *)
Theorem tax_share_bounded :
  (forall x : Q, 0 <= x ->
     total_tax (calculate_old_regime_tax x) <= (312 # 1000) * x /\
     total_tax (calculate_new_regime_tax x) <= (312 # 1000) * x) /\
  (forall x : Z, (0 <= x < 2 ^ 53)%Z ->
     exists old_tax new_tax,
       Binary64.calculate_old_regime_tax x = Some old_tax /\
       Binary64.calculate_new_regime_tax x = Some new_tax /\
       float_value (Binary64.total_tax old_tax) <= (1 # 3) * inject_Z x /\
       float_value (Binary64.total_tax new_tax) <= (1 # 3) * inject_Z x).
Proof.
  split.
  - intros x Hx. rewrite total_tax_old, total_tax_new.
    pose proof (old_regime_slab_share x Hx). pose proof (new_regime_slab_share x Hx).
    split; lra.
  - intros x Hx.
    assert (H1023 : (x <= 2 ^ 1023)%Z).
    { assert (2 ^ 53 <= 2 ^ 1023)%Z by (apply Binary64Facts.pow2_le; lia). lia. }
    destruct (Binary64Facts.calculators_return x H1023) as [[bo Eo] [bn En]].
    exists bo, bn. split; [exact Eo |]. split; [exact En |].
    assert (Hq : 0 <= inject_Z x)
      by (change 0 with (inject_Z 0); rewrite <- Zle_Qle; lia).
    pose proof (total_tax_old (inject_Z x)) as To.
    pose proof (total_tax_new (inject_Z x)) as Tn.
    pose proof (old_regime_slab_nonneg (inject_Z x)) as Po.
    pose proof (new_regime_slab_nonneg (inject_Z x)) as Pn.
    pose proof (old_regime_slab_share _ Hq) as So.
    pose proof (new_regime_slab_share _ Hq) as Sn.
    pose proof (Binary64Accuracy.total_near_old x bo ltac:(lia) Eo) as Bo.
    apply near_6_bounds in Bo; [| lra].
    pose proof (Binary64Accuracy.total_near_new x bn ltac:(lia) En) as Bn.
    apply near_6_bounds in Bn; [| lra].
    split; lra.
Qed.

Lemma tax_share_bounded_witness :
  total_tax (calculate_old_regime_tax 600000) <= (312 # 1000) * 600000 /\
  (exists old_tax,
     Binary64.calculate_old_regime_tax 600000 = Some old_tax /\
     float_value (Binary64.total_tax old_tax) <= (1 # 3) * inject_Z 600000).
Proof.
  destruct tax_share_bounded as [Hq Hf].
  split.
  - apply (Hq 600000). vm_compute. discriminate.
  - destruct (Hf 600000 ltac:(lia))%Z as (bo & bn & Eo & _ & Ho & _).
    exists bo. split; assumption.
Defined.

(** X17.  What is left after tax never falls when the income rises: there
    is no income at which earning more leaves less.  In binary64 this holds
    for the incomes below [2^49]. *)
Theorem take_home_never_falls :
  (forall x y : Q, x <= y ->
     x - total_tax (calculate_old_regime_tax x)
       <= y - total_tax (calculate_old_regime_tax y) /\
     x - total_tax (calculate_new_regime_tax x)
       <= y - total_tax (calculate_new_regime_tax y)) /\
  (forall x y : Z, (x <= y < 2 ^ 49)%Z ->
     (forall bx bY,
        Binary64.calculate_old_regime_tax x = Some bx ->
        Binary64.calculate_old_regime_tax y = Some bY ->
        inject_Z x - float_value (Binary64.total_tax bx)
          <= inject_Z y - float_value (Binary64.total_tax bY)) /\
     (forall bx bY,
        Binary64.calculate_new_regime_tax x = Some bx ->
        Binary64.calculate_new_regime_tax y = Some bY ->
        inject_Z x - float_value (Binary64.total_tax bx)
          <= inject_Z y - float_value (Binary64.total_tax bY))).
Proof.
  split.
  - intros x y Hxy. rewrite !total_tax_old, !total_tax_new.
    pose proof (old_regime_slab_lipschitz x y Hxy).
    pose proof (new_regime_slab_lipschitz x y Hxy).
    split; lra.
  - intros x y [Hxy Hy].
    assert (H49 : (2 ^ 49 < 2 ^ 53)%Z) by (apply Binary64Facts.pow2_lt; lia).
    destruct (Z.eq_dec x y) as [-> | Hne].
    { split; intros bx bY Ex Ey; rewrite Ex in Ey; injection Ey as <-; lra. }
    assert (Hq : inject_Z x + 1 <= inject_Z y).
    { change 1 with (inject_Z 1). rewrite <- inject_Z_plus, <- Zle_Qle. lia. }
    assert (Hq' : inject_Z x <= inject_Z y) by lra.
    assert (Hy' : inject_Z y <= 562949953421312).
    { change 562949953421312 with (inject_Z (2 ^ 49)). rewrite <- Zle_Qle. lia. }
    pose proof (total_tax_old (inject_Z x)) as Tox.
    pose proof (total_tax_old (inject_Z y)) as Toy.
    pose proof (total_tax_new (inject_Z x)) as Tnx.
    pose proof (total_tax_new (inject_Z y)) as Tny.
    pose proof (old_regime_slab_nonneg (inject_Z x)) as Pox.
    pose proof (old_regime_slab_nonneg (inject_Z y)) as Poy.
    pose proof (new_regime_slab_nonneg (inject_Z x)) as Pnx.
    pose proof (new_regime_slab_nonneg (inject_Z y)) as Pny.
    pose proof (old_regime_slab_lipschitz _ _ Hq') as Lo.
    pose proof (new_regime_slab_lipschitz _ _ Hq') as Ln.
    pose proof (old_regime_slab_mono _ _ Hq') as Mo.
    pose proof (new_regime_slab_mono _ _ Hq') as Mn.
    assert (Soy : old_regime_slab (inject_Z y) <= (3 # 10) * 562949953421312).
    { destruct (Qlt_le_dec (inject_Z y) 0) as [N | P].
      - rewrite old_regime_slab_1 by lra. unfold old_slab_1. lra.
      - pose proof (old_regime_slab_share _ P). lra. }
    assert (Sny : new_regime_slab (inject_Z y) <= (3 # 10) * 562949953421312).
    { destruct (Qlt_le_dec (inject_Z y) 0) as [N | P].
      - rewrite new_regime_slab_1 by lra. unfold new_slab_1. lra.
      - pose proof (new_regime_slab_share _ P). lra. }
    split; intros bx bY Ex Ey.
    + pose proof (Binary64Accuracy.total_near_old x bx ltac:(lia) Ex) as Bx.
    apply near_6_bounds in Bx; [| lra].
      pose proof (Binary64Accuracy.total_near_old y bY ltac:(lia) Ey) as By.
    apply near_6_bounds in By; [| lra].
      lra.
    + pose proof (Binary64Accuracy.total_near_new x bx ltac:(lia) Ex) as Bx.
    apply near_6_bounds in Bx; [| lra].
      pose proof (Binary64Accuracy.total_near_new y bY ltac:(lia) Ey) as By.
    apply near_6_bounds in By; [| lra].
      lra.
Qed.

Lemma take_home_never_falls_witness :
  499999 - total_tax (calculate_old_regime_tax 499999)
    <= 500001 - total_tax (calculate_old_regime_tax 500001) /\
  (exists bx bY,
     Binary64.calculate_old_regime_tax 499999 = Some bx /\
     Binary64.calculate_old_regime_tax 500001 = Some bY /\
     inject_Z 499999 - float_value (Binary64.total_tax bx)
       <= inject_Z 500001 - float_value (Binary64.total_tax bY)).
Proof.
  destruct take_home_never_falls as [Hq Hf].
  split.
  - apply (Hq 499999 500001). vm_compute. discriminate.
  - eexists _, _. split; [vm_compute; reflexivity |]. split; [vm_compute; reflexivity |].
    apply (proj1 (Hf 499999 500001 ltac:(lia))%Z); vm_compute; reflexivity.
Defined.

(** ** Deductions of up to 50,000 *)

Module Binary64Threshold.

Import Binary64 Rounding Binary64Facts Binary64Edges.
Local Open Scope Z_scope.

(** On the top slab, with 50,000 less to tax under the old regime. *)
Lemma top_slab_new_le_old_shifted (x : Z) :
  1500000 < x < 2 ^ 53 -> le_opt (new_slab_6 x) (old_slab_4 (x - 50000)).
Proof.
  intros Hx ta tb Ha Hb. unfold new_slab_6, old_slab_4, int_add in *.
  destruct (int_mul (x - 1500000) lit_0_3) as [P2 |] eqn:E2; [| discriminate].
  destruct (int_mul (x - 50000 - 1000000) lit_0_3) as [P1 |] eqn:E1; [| discriminate].
  destruct (float_of_int_exact 150000 ltac:(lia)) as (c2 & Ec2 & Fc2 & Oc2).
  destruct (float_of_int_exact 112500 ltac:(lia)) as (c1 & Ec1 & Fc1 & Oc1).
  rewrite Ec2 in Ha. rewrite Ec1 in Hb. injection Ha as <-. injection Hb as <-.
  assert (Hb3 : bounded prec emax 5404319552844595 (-54) = true) by reflexivity.
  assert (HC : 2 ^ 53 <= ord lit_0_3).
  { rewrite lit_0_3_ord. pose proof (pow2_le 53 1020 ltac:(lia)). lia. }
  pose proof (int_mul_lit_0_3_finite (x - 1500000) P2 ltac:(lia) E2) as T2.
  pose proof (int_mul_lit_0_3_finite (x - 50000 - 1000000) P1 ltac:(lia) E1) as T1.
  destruct (int_mul_accurate (x - 1500000) _ _ P2 Hb3 HC ltac:(lia) E2 T2)
    as (F2 & _ & U2).
  destruct (int_mul_accurate (x - 50000 - 1000000) _ _ P1 Hb3 HC ltac:(lia) E1 T1)
    as (F1 & L1 & _).
  fold lit_0_3 in U2, L1. rewrite lit_0_3_ord in U2, L1.
  rewrite !fadd_finite by assumption.
  split; [apply round_scaled_good |]. split; [apply round_scaled_good |].
  apply round_scaled_mono. rewrite Oc1, Oc2.
  replace (2 ^ 1074) with (2 ^ 54 * 2 ^ 1020) by (rewrite <- Z.pow_add_r by lia; reflexivity).
  pose proof (pow2_pos 1020 ltac:(lia)) as HU.
  set (U := 2 ^ 1020) in *.
  set (a := (x - 1500000) * U).
  assert (Ha0 : 0 <= a) by (unfold a; nia).
  assert (Ha1 : a + 1500000 * U < 2 ^ 53 * U) by (unfold a; nia).
  replace ((x - 1500000) * (5404319552844595 * U)) with (5404319552844595 * a) in U2
    by (unfold a; ring).
  replace ((x - 50000 - 1000000) * (5404319552844595 * U))
    with (5404319552844595 * (a + 450000 * U)) in L1 by (unfold a; ring).
  lia.
Qed.

(** New-regime base tax on [x] against old-regime base tax on [x - 50000]. *)
Theorem new_slab_le_old_slab_shifted (x : Z) :
  x < 2 ^ 53 ->
  le_opt (new_regime_slab x) (old_regime_slab (Z.max 0 (x - 50000))).
Proof.
  intros Hx.
  destruct (Z_le_gt_dec x 300000).
  { intros ta tb Ha Hb.
    destruct (old_regime_slab_float_mono _ _ (Z.le_refl (Z.max 0 (x - 50000))) tb tb Hb Hb)
      as (G & _ & _).
    unfold new_regime_slab in Ha.
    destruct (Z.leb_spec x 300000); [| lia]. injection Ha as <-.
    pose proof (good_ord_nonneg tb G). cbn. repeat split; try assumption; lia. }
  rewrite Z.max_r by lia.
  destruct (Z_le_gt_dec x 550000).
  { pick_slabs. intros ta tb Ha Hb. unfold new_slab_2, old_slab_2 in *.
    apply (int_mul_mono (x - 300000) (x - 50000 - 250000) 7205759403792794 (-57) ta tb);
      try assumption; [reflexivity | lia]. }
  assert (M2 : forall a b, 300000 <= a <= b -> le_opt (new_slab_2 a) (new_slab_2 b))
    by exact new_slab_2_mono.
  assert (M3 : forall a b, 550000 <= a <= b ->
            le_opt (old_slab_3 (a - 50000)) (old_slab_3 (b - 50000)))
    by (intros a b Hab; apply old_slab_3_mono; lia).
  assert (M4 : forall a b, 1050000 <= a <= b ->
            le_opt (old_slab_4 (a - 50000)) (old_slab_4 (b - 50000)))
    by (intros a b Hab; apply old_slab_4_mono; lia).
  destruct (Z_le_gt_dec x 550003).
  { pick_slabs.
    apply (squeeze new_slab_2 (fun z => old_slab_3 (z - 50000)) 550001 550003 _ _
             (widen _ 300000 550001 ltac:(lia) M2)
             (widen _ 550000 550001 ltac:(lia) M3)
             ltac:(anchors) ltac:(anchors) ltac:(anchors)). lia. }
  destruct (Z_le_gt_dec x 550009).
  { pick_slabs.
    apply (squeeze new_slab_2 (fun z => old_slab_3 (z - 50000)) 550003 550009 _ _
             (widen _ 300000 550003 ltac:(lia) M2)
             (widen _ 550000 550003 ltac:(lia) M3)
             ltac:(anchors) ltac:(anchors) ltac:(anchors)). lia. }
  destruct (Z_le_gt_dec x 550027).
  { pick_slabs.
    apply (squeeze new_slab_2 (fun z => old_slab_3 (z - 50000)) 550009 550027 _ _
             (widen _ 300000 550009 ltac:(lia) M2)
             (widen _ 550000 550009 ltac:(lia) M3)
             ltac:(anchors) ltac:(anchors) ltac:(anchors)). lia. }
  destruct (Z_le_gt_dec x 550081).
  { pick_slabs.
    apply (squeeze new_slab_2 (fun z => old_slab_3 (z - 50000)) 550027 550081 _ _
             (widen _ 300000 550027 ltac:(lia) M2)
             (widen _ 550000 550027 ltac:(lia) M3)
             ltac:(anchors) ltac:(anchors) ltac:(anchors)). lia. }
  destruct (Z_le_gt_dec x 550243).
  { pick_slabs.
    apply (squeeze new_slab_2 (fun z => old_slab_3 (z - 50000)) 550081 550243 _ _
             (widen _ 300000 550081 ltac:(lia) M2)
             (widen _ 550000 550081 ltac:(lia) M3)
             ltac:(anchors) ltac:(anchors) ltac:(anchors)). lia. }
  destruct (Z_le_gt_dec x 550729).
  { pick_slabs.
    apply (squeeze new_slab_2 (fun z => old_slab_3 (z - 50000)) 550243 550729 _ _
             (widen _ 300000 550243 ltac:(lia) M2)
             (widen _ 550000 550243 ltac:(lia) M3)
             ltac:(anchors) ltac:(anchors) ltac:(anchors)). lia. }
  destruct (Z_le_gt_dec x 552187).
  { pick_slabs.
    apply (squeeze new_slab_2 (fun z => old_slab_3 (z - 50000)) 550729 552187 _ _
             (widen _ 300000 550729 ltac:(lia) M2)
             (widen _ 550000 550729 ltac:(lia) M3)
             ltac:(anchors) ltac:(anchors) ltac:(anchors)). lia. }
  destruct (Z_le_gt_dec x 556561).
  { pick_slabs.
    apply (squeeze new_slab_2 (fun z => old_slab_3 (z - 50000)) 552187 556561 _ _
             (widen _ 300000 552187 ltac:(lia) M2)
             (widen _ 550000 552187 ltac:(lia) M3)
             ltac:(anchors) ltac:(anchors) ltac:(anchors)). lia. }
  destruct (Z_le_gt_dec x 569683).
  { pick_slabs.
    apply (squeeze new_slab_2 (fun z => old_slab_3 (z - 50000)) 556561 569683 _ _
             (widen _ 300000 556561 ltac:(lia) M2)
             (widen _ 550000 556561 ltac:(lia) M3)
             ltac:(anchors) ltac:(anchors) ltac:(anchors)). lia. }
  destruct (Z_le_gt_dec x 600000).
  { pick_slabs.
    apply (squeeze new_slab_2 (fun z => old_slab_3 (z - 50000)) 569683 600000 _ _
             (widen _ 300000 569683 ltac:(lia) M2)
             (widen _ 550000 569683 ltac:(lia) M3)
             ltac:(anchors) ltac:(anchors) ltac:(anchors)). lia. }
  destruct (Z_le_gt_dec x 670000).
  { pick_slabs.
    apply (squeeze new_slab_3 (fun z => old_slab_3 (z - 50000)) 600000 670000 _ _
             (widen _ 600000 600000 ltac:(lia) new_slab_3_mono)
             (widen _ 550000 600000 ltac:(lia) M3)
             ltac:(anchors) ltac:(anchors) ltac:(anchors)). lia. }
  destruct (Z_le_gt_dec x 810000).
  { pick_slabs.
    apply (squeeze new_slab_3 (fun z => old_slab_3 (z - 50000)) 670000 810000 _ _
             (widen _ 600000 670000 ltac:(lia) new_slab_3_mono)
             (widen _ 550000 670000 ltac:(lia) M3)
             ltac:(anchors) ltac:(anchors) ltac:(anchors)). lia. }
  destruct (Z_le_gt_dec x 900000).
  { pick_slabs.
    apply (squeeze new_slab_3 (fun z => old_slab_3 (z - 50000)) 810000 900000 _ _
             (widen _ 600000 810000 ltac:(lia) new_slab_3_mono)
             (widen _ 550000 810000 ltac:(lia) M3)
             ltac:(anchors) ltac:(anchors) ltac:(anchors)). lia. }
  destruct (Z_le_gt_dec x 1050000).
  { pick_slabs.
    apply (squeeze new_slab_4 (fun z => old_slab_3 (z - 50000)) 900000 1050000 _ _
             new_slab_4_mono
             (widen _ 550000 900000 ltac:(lia) M3)
             ltac:(anchors) ltac:(anchors) ltac:(anchors)). lia. }
  destruct (Z_le_gt_dec x 1200000).
  { pick_slabs.
    apply (squeeze new_slab_4 (fun z => old_slab_4 (z - 50000)) 1050000 1200000 _ _
             (widen _ 900000 1050000 ltac:(lia) new_slab_4_mono)
             M4
             ltac:(anchors) ltac:(anchors) ltac:(anchors)). lia. }
  destruct (Z_le_gt_dec x 1500000).
  { pick_slabs.
    apply (squeeze new_slab_5 (fun z => old_slab_4 (z - 50000)) 1200000 1500000 _ _
             new_slab_5_mono
             (widen _ 1050000 1200000 ltac:(lia) M4)
             ltac:(anchors) ltac:(anchors) ltac:(anchors)). lia. }
  pick_slabs. apply top_slab_new_le_old_shifted. lia.
Qed.

End Binary64Threshold.


Lemma new_slab_le_old_slab_near (x t : Q) :
  x - 50000 <= t -> 0 <= t -> new_regime_slab x <= old_regime_slab t.
Proof.
  intros H1 H2.
  unfold new_regime_slab, new_slab_1, new_slab_2, new_slab_3, new_slab_4,
    new_slab_5, new_slab_6.
  unfold old_regime_slab, old_slab_1, old_slab_2, old_slab_3, old_slab_4.
  slab_cases x; slab_cases t; lra.
Qed.

(** X18.  With deductions of at most 50,000 in total the handler always
    recommends the new regime (in binary64, for incomes below [2^53]); the
    bound is sharp, since an income of 400,000 with 50,001 of deductions
    gets the old regime. *)
Theorem small_deductions_new_regime :
  (forall income i h l e r : Z,
     (i + h + l + e + r <= 50000)%Z ->
     regime (Main.better_regime (Main.calculate_tax income i h l e r))
       = "New Regime"%string) /\
  (forall income i h l e r : Z,
     (income < 2 ^ 53)%Z -> (i + h + l + e + r <= 50000)%Z ->
     forall o n v,
       Binary64.calculate_tax income i h l e r = Some (o, n, v) ->
       Binary64.regime v = "New Regime"%string) /\
  regime (Main.better_regime (Main.calculate_tax 400000 50001 0 0 0 0))
    = "Old Regime"%string /\
  (exists o n v,
     Binary64.calculate_tax 400000 50001 0 0 0 0 = Some (o, n, v) /\
     Binary64.regime v = "Old Regime"%string).
Proof.
  split; [| split; [| split]].
  - intros income i h l e r Hd. unfold Main.calculate_tax.
    cbn [Main.better_regime]. apply regime_of_le.
    rewrite total_tax_old, total_tax_new.
    set (d := (i + h + l + e + r)%Z) in *.
    assert (new_regime_slab (inject_Z income)
            <= old_regime_slab (inject_Z (Z.max 0 (income - d)))); [| lra].
    apply new_slab_le_old_slab_near.
    + change 50000 with (inject_Z 50000).
      unfold Qminus. rewrite <- inject_Z_opp, <- inject_Z_plus, <- Zle_Qle. lia.
    + change 0 with (inject_Z 0). rewrite <- Zle_Qle. lia.
  - intros income i h l e r Hi Hd o n v H.
    apply Binary64Edges.calculate_tax_some in H. destruct H as (Ho & Hn & ->).
    set (d := (i + h + l + e + r)%Z) in *.
    assert (H1023 : (Z.max 0 (income - 50000) <= 2 ^ 1023)%Z).
    { assert (2 ^ 53 <= 2 ^ 1023)%Z by (apply Binary64Facts.pow2_le; lia).
      assert (0 < 2 ^ 53)%Z by (apply Binary64Facts.pow2_pos; lia). lia. }
    destruct (Binary64Facts.old_regime_slab_total _ H1023) as [tm Em].
    assert (L : Rounding.le_opt (Binary64.new_regime_slab income)
                  (Binary64.old_regime_slab (Z.max 0 (income - d)))).
    { apply (Binary64Facts.le_opt_trans _ _ _ tm Em).
      - now apply Binary64Threshold.new_slab_le_old_slab_shifted.
      - apply Binary64Facts.old_regime_slab_float_mono. lia. }
    destruct (Binary64Facts.breakdown_of_mono _ _ n o L Hn Ho) as (Gn & Go & Le).
    unfold Binary64.get_better_regime.
    rewrite Binary64Facts.SFltb_ord by assumption.
    destruct (Z.ltb_spec (Rounding.ord (Binary64.total_tax o))
                         (Rounding.ord (Binary64.total_tax n))); [lia | reflexivity].
  - vm_compute. reflexivity.
  - eexists _, _, _. split; vm_compute; reflexivity.
Qed.

Lemma small_deductions_new_regime_witness :
  regime (Main.better_regime (Main.calculate_tax 600000 50000 0 0 0 0))
    = "New Regime"%string /\
  (exists o n v,
     Binary64.calculate_tax 600000 50000 0 0 0 0 = Some (o, n, v) /\
     Binary64.regime v = "New Regime"%string).
Proof.
  destruct small_deductions_new_regime as (Hq & Hf & _).
  split.
  - apply (Hq 600000 50000 0 0 0 0)%Z. lia.
  - eexists _, _, _. split; [vm_compute; reflexivity |].
    apply (Hf 600000 50000 0 0 0 0 ltac:(lia) ltac:(lia) _ _ _ eq_refl)%Z.
Defined.

(** ** Progressivity *)

(** Each schedule is the largest of its lines [rate * x - intercept]. *)
Lemma old_regime_slab_lines (x : Q) :
  0 <= old_regime_slab x /\
  (5 # 100) * x - 12500 <= old_regime_slab x /\
  (2 # 10) * x - 87500 <= old_regime_slab x /\
  (3 # 10) * x - 187500 <= old_regime_slab x.
Proof.
  unfold old_regime_slab, old_slab_1, old_slab_2, old_slab_3, old_slab_4.
  slab_cases x; repeat split; lra.
Qed.

Lemma new_regime_slab_lines (x : Q) :
  0 <= new_regime_slab x /\
  (5 # 100) * x - 15000 <= new_regime_slab x /\
  (1 # 10) * x - 45000 <= new_regime_slab x /\
  (15 # 100) * x - 90000 <= new_regime_slab x /\
  (2 # 10) * x - 150000 <= new_regime_slab x /\
  (3 # 10) * x - 300000 <= new_regime_slab x.
Proof.
  unfold new_regime_slab, new_slab_1, new_slab_2, new_slab_3, new_slab_4,
    new_slab_5, new_slab_6.
  slab_cases x; repeat split; lra.
Qed.

Lemma line_share (a b x y s : Q) :
  0 <= x -> a * y - b <= s -> x * (a * y) - b * x <= x * s.
Proof.
  intros Hx H. pose proof (Qmult_le_compat_r _ _ x H Hx) as M. lra.
Qed.

(** Above the exemption limit the average rate rises by at least the
    smallest intercept per rupee of distance. *)
Lemma old_regime_slab_progressive (x y : Q) :
  0 <= x -> x <= y ->
  old_regime_slab x * y <= old_regime_slab y * x /\
  (250000 < x -> old_regime_slab x * y + 12500 * (y - x) <= old_regime_slab y * x).
Proof.
  intros Hx Hxy.
  destruct (old_regime_slab_lines y) as (L0 & L1 & L2 & L3).
  pose proof (Qmult_le_0_compat _ _ Hx L0) as M0.
  pose proof (line_share _ _ x y _ Hx L1) as M1.
  pose proof (line_share _ _ x y _ Hx L2) as M2.
  pose proof (line_share _ _ x y _ Hx L3) as M3.
  unfold old_regime_slab at 1 3, old_slab_1, old_slab_2, old_slab_3, old_slab_4.
  slab_cases x; split; intros; lra.
Qed.

Lemma new_regime_slab_progressive (x y : Q) :
  0 <= x -> x <= y ->
  new_regime_slab x * y <= new_regime_slab y * x /\
  (300000 < x -> new_regime_slab x * y + 15000 * (y - x) <= new_regime_slab y * x).
Proof.
  intros Hx Hxy.
  destruct (new_regime_slab_lines y) as (L0 & L1 & L2 & L3 & L4 & L5).
  pose proof (Qmult_le_0_compat _ _ Hx L0) as M0.
  pose proof (line_share _ _ x y _ Hx L1) as M1.
  pose proof (line_share _ _ x y _ Hx L2) as M2.
  pose proof (line_share _ _ x y _ Hx L3) as M3.
  pose proof (line_share _ _ x y _ Hx L4) as M4.
  pose proof (line_share _ _ x y _ Hx L5) as M5.
  unfold new_regime_slab at 1 3, new_slab_1, new_slab_2, new_slab_3, new_slab_4,
    new_slab_5, new_slab_6.
  slab_cases x; split; intros; lra.
Qed.

Lemma ratio_le (a b x y : Q) :
  0 < x -> 0 < y -> a * y <= b * x -> a / x <= b / y.
Proof.
  intros Hx Hy H. apply Qle_shift_div_l; [exact Hy |].
  assert (E : a / x * y == a * y / x) by (field; lra).
  rewrite E. apply Qle_shift_div_r; [exact Hx | exact H].
Qed.

(** X19.  Both schedules are progressive: the average rate, total tax over
    income, never falls when the income rises.  In exact arithmetic for all
    positive amounts; in binary64 for all positive integer incomes below
    [2^30]. *)
Theorem average_rate_never_falls :
  (forall x y : Q, 0 < x -> x <= y ->
     total_tax (calculate_old_regime_tax x) / x
       <= total_tax (calculate_old_regime_tax y) / y /\
     total_tax (calculate_new_regime_tax x) / x
       <= total_tax (calculate_new_regime_tax y) / y) /\
  (forall x y : Z, (0 < x)%Z -> (x <= y < 2 ^ 30)%Z ->
     (forall bx bY,
        Binary64.calculate_old_regime_tax x = Some bx ->
        Binary64.calculate_old_regime_tax y = Some bY ->
        float_value (Binary64.total_tax bx) / inject_Z x
          <= float_value (Binary64.total_tax bY) / inject_Z y) /\
     (forall bx bY,
        Binary64.calculate_new_regime_tax x = Some bx ->
        Binary64.calculate_new_regime_tax y = Some bY ->
        float_value (Binary64.total_tax bx) / inject_Z x
          <= float_value (Binary64.total_tax bY) / inject_Z y)).
Proof.
  split.
  - intros x y Hx Hxy. rewrite !total_tax_old, !total_tax_new.
    destruct (old_regime_slab_progressive x y ltac:(lra) Hxy) as [Po _].
    destruct (new_regime_slab_progressive x y ltac:(lra) Hxy) as [Pn _].
    split; apply ratio_le; lra.
  - intros x y Hx [Hxy Hy].
    assert (H30 : (2 ^ 30 < 2 ^ 53)%Z) by (apply Binary64Facts.pow2_lt; lia).
    assert (Qx : 0 < inject_Z x)
      by (change 0 with (inject_Z 0); rewrite <- Zlt_Qlt; lia).
    assert (Qxy : inject_Z x <= inject_Z y) by (rewrite <- Zle_Qle; lia).
    assert (Qy : inject_Z y <= 1073741824).
    { change 1073741824 with (inject_Z (2 ^ 30)). rewrite <- Zle_Qle. lia. }
    destruct (Z.eq_dec x y) as [-> | Hne].
    { split; intros bx bY Ex Ey; rewrite Ex in Ey; injection Ey as <-; lra. }
    assert (Q1 : inject_Z x + 1 <= inject_Z y).
    { change 1 with (inject_Z 1). rewrite <- inject_Z_plus, <- Zle_Qle. lia. }
    set (qx := inject_Z x) in *. set (qy := inject_Z y) in *.
    assert (Pxy : qx * qy <= 1073741824 * 1073741824).
    { apply Qmult_le_compat_nonneg; split; lra. }
    pose proof (total_tax_old qx) as Tox. pose proof (total_tax_old qy) as Toy.
    pose proof (total_tax_new qx) as Tnx. pose proof (total_tax_new qy) as Tny.
    pose proof (old_regime_slab_nonneg qx) as Nox.
    pose proof (old_regime_slab_nonneg qy) as Noy.
    pose proof (new_regime_slab_nonneg qx) as Nnx.
    pose proof (new_regime_slab_nonneg qy) as Nny.
    pose proof (old_regime_slab_share qx ltac:(lra)) as Sox.
    pose proof (old_regime_slab_share qy ltac:(lra)) as Soy.
    pose proof (new_regime_slab_share qx ltac:(lra)) as Snx.
    pose proof (new_regime_slab_share qy ltac:(lra)) as Sny.
    pose proof (Qmult_le_compat_r _ _ qy Sox ltac:(lra)) as Box.
    pose proof (Qmult_le_compat_r _ _ qx Soy ltac:(lra)) as Boy.
    pose proof (Qmult_le_compat_r _ _ qy Snx ltac:(lra)) as Bnx.
    pose proof (Qmult_le_compat_r _ _ qx Sny ltac:(lra)) as Bny.
    assert (Zox : 0 <= old_regime_slab qx * qy) by (apply Qmult_le_0_compat; lra).
    assert (Zoy : 0 <= old_regime_slab qy * qx) by (apply Qmult_le_0_compat; lra).
    assert (Znx : 0 <= new_regime_slab qx * qy) by (apply Qmult_le_0_compat; lra).
    assert (Zny : 0 <= new_regime_slab qy * qx) by (apply Qmult_le_0_compat; lra).
    split; intros bx bY Ex Ey.
    + pose proof (Binary64Accuracy.total_near_old x bx ltac:(lia) Ex) as Bx.
      apply near_6_bounds in Bx; [| fold qx; lra].
      pose proof (Binary64Accuracy.total_near_old y bY ltac:(lia) Ey) as By.
      apply near_6_bounds in By; [| fold qy; lra].
      fold qx in Bx. fold qy in By. rewrite Tox in Bx. rewrite Toy in By.
      set (vx := float_value (Binary64.total_tax bx)) in *.
      set (vy := float_value (Binary64.total_tax bY)) in *.
      apply ratio_le; [lra | lra |].
      destruct Bx as [_ Ux], By as [Ly _].
      pose proof (Qmult_le_compat_r _ _ qy Ux ltac:(lra)) as A.
      pose proof (Qmult_le_compat_r _ _ qx Ly ltac:(lra)) as B.
      destruct (Qlt_le_dec 250000 qx) as [Above | Below].
      * destruct (old_regime_slab_progressive qx qy ltac:(lra) Qxy) as [_ P].
        specialize (P Above). lra.
      * assert (Z0 : old_regime_slab qx == 0)
          by (apply old_regime_slab_zero_iff; exact Below).
        assert (vx <= 0) by lra.
        assert (0 <= vy) by lra.
        pose proof (Qmult_le_0_compat vy qx ltac:(lra) ltac:(lra)).
        assert (vx * qy <= 0 * qy) by (apply Qmult_le_compat_r; lra).
        lra.
    + pose proof (Binary64Accuracy.total_near_new x bx ltac:(lia) Ex) as Bx.
      apply near_6_bounds in Bx; [| fold qx; lra].
      pose proof (Binary64Accuracy.total_near_new y bY ltac:(lia) Ey) as By.
      apply near_6_bounds in By; [| fold qy; lra].
      fold qx in Bx. fold qy in By. rewrite Tnx in Bx. rewrite Tny in By.
      set (vx := float_value (Binary64.total_tax bx)) in *.
      set (vy := float_value (Binary64.total_tax bY)) in *.
      apply ratio_le; [lra | lra |].
      destruct Bx as [_ Ux], By as [Ly _].
      pose proof (Qmult_le_compat_r _ _ qy Ux ltac:(lra)) as A.
      pose proof (Qmult_le_compat_r _ _ qx Ly ltac:(lra)) as B.
      destruct (Qlt_le_dec 300000 qx) as [Above | Below].
      * destruct (new_regime_slab_progressive qx qy ltac:(lra) Qxy) as [_ P].
        specialize (P Above). lra.
      * assert (Z0 : new_regime_slab qx == 0)
          by (apply new_regime_slab_zero_iff; exact Below).
        assert (vx <= 0) by lra.
        assert (0 <= vy) by lra.
        pose proof (Qmult_le_0_compat vy qx ltac:(lra) ltac:(lra)).
        assert (vx * qy <= 0 * qy) by (apply Qmult_le_compat_r; lra).
        lra.
Qed.

Lemma average_rate_never_falls_witness :
  total_tax (calculate_old_regime_tax 600000) / 600000
    <= total_tax (calculate_old_regime_tax 1200000) / 1200000 /\
  (exists bx bY,
     Binary64.calculate_old_regime_tax 600000 = Some bx /\
     Binary64.calculate_old_regime_tax 1200000 = Some bY /\
     float_value (Binary64.total_tax bx) / inject_Z 600000
       <= float_value (Binary64.total_tax bY) / inject_Z 1200000).
Proof.
  destruct average_rate_never_falls as [Hq Hf].
  split.
  - apply (Hq 600000 1200000); vm_compute; [reflexivity | discriminate].
  - eexists _, _. split; [vm_compute; reflexivity |]. split; [vm_compute; reflexivity |].
    apply (proj1 (Hf 600000 1200000 ltac:(lia) ltac:(lia))%Z); vm_compute; reflexivity.
Defined.

(** ** The texts that go into the report *)

Lemma pure_ascii_append (a b : string) :
  pure_ascii (a ++ b) = pure_ascii a && pure_ascii b.
Proof.
  induction a as [| c a IH]; [reflexivity |].
  cbn [String.append pure_ascii]. now rewrite IH, andb_assoc.
Qed.

Lemma pure_ascii_of_list (l : list ascii) :
  pure_ascii (string_of_list_ascii l) = forallb seven_bit l.
Proof.
  induction l as [| c l IH]; [reflexivity |].
  cbn [string_of_list_ascii pure_ascii forallb]. now rewrite IH.
Qed.

Lemma uint_digits_seven_bit (d : Decimal.uint) :
  forallb seven_bit (uint_digits d) = true.
Proof. induction d; cbn; auto. Qed.

Lemma group_thousands_seven_bit (l : list ascii) :
  forallb seven_bit l = true -> forallb seven_bit (group_thousands l) = true.
Proof.
  apply (group_thousands_cases
    (fun l g => forallb seven_bit l = true -> forallb seven_bit g = true)).
  - intros l0 _ H. exact H.
  - intros a b c d rest IH H. cbn [forallb] in H.
    apply andb_true_iff in H as [Ha H]. apply andb_true_iff in H as [Hb H].
    apply andb_true_iff in H as [Hc H].
    cbn [forallb]. rewrite Ha, Hb, Hc, (IH H). reflexivity.
Qed.

Lemma format_thousands_pure_ascii (n : Z) :
  pure_ascii (format_thousands n) = true.
Proof.
  unfold format_thousands. rewrite pure_ascii_of_list.
  assert (H : forallb seven_bit
                (rev (group_thousands (rev (uint_digits (N.to_uint (Z.abs_N n))))))
              = true).
  { rewrite forallb_rev. apply group_thousands_seven_bit.
    rewrite forallb_rev. apply uint_digits_seven_bit. }
  destruct (n <? 0)%Z; [cbn [forallb]; rewrite H; reflexivity | exact H].
Qed.

Lemma subsequence_Forall {A} (P : A -> Prop) (l l' : list A) :
  subsequence l l' -> Forall P l' -> Forall P l.
Proof.
  intros S. induction S as [| a l l' S IH | a l l' S IH]; intros F.
  - exact F.
  - inversion F; subst. auto.
  - inversion F; subst. constructor; auto.
Qed.

(** X20.  Every text the program computes for the report is 7-bit ASCII:
    each tip, with the amount it quotes, the regime named by
    [get_better_regime], and the regime and the explanation of a prediction
    (the rupee sign never occurs; amounts are written with [Rs.]). *)
Theorem texts_are_ascii :
  (forall income investments health_insurance home_loan edu_loan : Z,
     Forall (fun tip => pure_ascii tip = true)
       (get_tax_saving_tips income investments health_insurance home_loan
                            edu_loan)) /\
  (forall old_regime_tax new_regime_tax : TaxCalculator.TaxBreakdown,
     pure_ascii
       (TaxCalculator.regime
          (TaxCalculator.get_better_regime old_regime_tax new_regime_tax))
       = true) /\
  (forall (DecisionTreeClassifier : Type)
          (predict : DecisionTreeClassifier -> list Q -> Z)
          (predict_proba : DecisionTreeClassifier -> list Q -> list Q)
          (self : TaxPredictor.TaxRegimePredictor DecisionTreeClassifier)
          (income investments_80c health_insurance hra home_loan edu_loan age : Z)
          (p : TaxPredictor.Prediction),
     TaxPredictor.predict_regime _ predict predict_proba self
       income investments_80c health_insurance hra home_loan edu_loan age = Some p ->
     pure_ascii (TaxPredictor.regime p) = true /\
     pure_ascii (TaxPredictor.explanation p) = true).
Proof.
  split; [| split].
  - intros income investments health_insurance home_loan edu_loan.
    eapply subsequence_Forall; [apply tips_subsequence |].
    repeat constructor; try reflexivity.
    + unfold tip_80c. rewrite !pure_ascii_append, format_thousands_pure_ascii.
      reflexivity.
    + unfold tip_home_loan. rewrite !pure_ascii_append, format_thousands_pure_ascii.
      reflexivity.
  - intros old_regime_tax new_regime_tax. unfold TaxCalculator.get_better_regime.
    destruct (Qlt_bool _ _); reflexivity.
  - intros DTC predict predict_proba self income investments_80c health_insurance
      hra home_loan edu_loan age p.
    unfold TaxPredictor.predict_regime.
    destruct (TaxPredictor.py_index _ _) as [c |]; [| discriminate].
    intros [= <-]. cbn [TaxPredictor.regime TaxPredictor.explanation].
    repeat match goal with
           | |- context [if ?b then _ else _] => destruct b
           end; split; reflexivity.
Qed.

Lemma texts_are_ascii_witness :
  exists p,
    TaxPredictor.predict_regime unit (fun _ _ => 0%Z) (fun _ _ => [3 # 4; 1 # 4])
      (TaxPredictor.mkPredictor unit
         (TaxPredictor.mkTrainingData [] [] [] [] [] [] [] [] []) tt)
      500000 10000 0 0 0 0 30 = Some p /\
    pure_ascii (TaxPredictor.regime p) = true /\
    pure_ascii (TaxPredictor.explanation p) = true.
Proof.
  eexists. split; [reflexivity |].
  apply (proj2 (proj2 texts_are_ascii) unit (fun _ _ => 0%Z) (fun _ _ => [3 # 4; 1 # 4])
           (TaxPredictor.mkPredictor unit
              (TaxPredictor.mkTrainingData [] [] [] [] [] [] [] [] []) tt)
           500000 10000 0 0 0 0 30 _ eq_refl)%Z.
Defined.
